(** * pdftest: the document-structure reconstruction pipeline

    A shallow embedding of the three revisions of the pipeline kept in the
    repository: [src/index.js] (module [Index]; [src/unnamed/part_001] is the
    same program with comments and a different directory filter) and
    [src/unnamed/part_000] (module [Rev0]).

    JavaScript strings are sequences of UTF-16 code units, numbers are IEEE
    doubles, regular expressions are the backtracking matchers of ECMAScript.
    Each gets a small layer of its own below, and the program is written on
    top of those layers the way the source is written. *)

From Stdlib Require Import Strings.String Strings.Ascii.
From Stdlib Require Import List NArith ZArith QArith Qminmax Bool Arith Lia.
From Stdlib Require Import Sorting.Permutation Sorting.Sorted Sorting.Mergesort.
Import ListNotations.

Set Implicit Arguments.
Local Open Scope N_scope.

(** ** Strings *)

(** A UTF-16 code unit. *)
Definition char := N.

(** A JavaScript string value. *)
Definition jsstr := list char.

(** Literals of the source, written as Rocq strings (all of them ASCII). *)
Definition js (s : string) : jsstr := map N_of_ascii (list_ascii_of_string s).

Definition char_eqb (a b : char) : bool := N.eqb a b.

(** [a === b] on strings. *)
Fixpoint str_eqb (a b : jsstr) : bool :=
  match a, b with
  | [], [] => true
  | x :: a', y :: b' => char_eqb x y && str_eqb a' b'
  | _, _ => false
  end.

Definition in_range (lo hi c : char) : bool := (lo <=? c) && (c <=? hi).

(** [[A-Z]], [[a-z]] and [\d]. *)
Definition is_upper_AZ (c : char) : bool := in_range 65 90 c.
Definition is_lower_az (c : char) : bool := in_range 97 122 c.
Definition is_digit (c : char) : bool := in_range 48 57 c.

(** LineTerminator of ECMAScript: LF, CR, LS, PS. *)
Definition is_line_terminator (c : char) : bool :=
  (c =? 10) || (c =? 13) || (c =? 8232) || (c =? 8233).

(** The class [\s], which is also what [String.prototype.trim] strips:
    WhiteSpace and LineTerminator. *)
Definition is_space (c : char) : bool :=
  in_range 9 13 c || (c =? 32) || (c =? 160) || (c =? 5760)
  || in_range 8192 8202 c || (c =? 8232) || (c =? 8233) || (c =? 8239)
  || (c =? 8287) || (c =? 12288) || (c =? 65279).

Fixpoint drop_while (p : char -> bool) (s : jsstr) : jsstr :=
  match s with
  | [] => []
  | c :: s' => if p c then drop_while p s' else s
  end.

(** [s.trim()] *)
Definition trim (s : jsstr) : jsstr :=
  rev (drop_while is_space (rev (drop_while is_space s))).

(** [arr.join(sep)] *)
Fixpoint join (sep : jsstr) (arr : list jsstr) : jsstr :=
  match arr with
  | [] => []
  | [x] => x
  | x :: rest => x ++ sep ++ join sep rest
  end.

(** [s.repeat(n)] *)
Fixpoint repeat_str (s : jsstr) (n : nat) : jsstr :=
  match n with
  | O => []
  | S n' => s ++ repeat_str s n'
  end.

(** The value of a string in a condition: [""] is falsy. *)
Definition truthy (s : jsstr) : bool :=
  match s with [] => false | _ => true end.

(** [toUpperCase] on ASCII text.  The full Unicode mapping is a parameter of
    the analyzer below; this is the instance used on ASCII inputs, where the
    two agree. *)
Definition toUpperCase_ascii (s : jsstr) : jsstr :=
  map (fun c => if is_lower_az c then c - 32 else c) s.

(** Decimal rendering of a non-negative integer, as template literals do. *)
Fixpoint digits_of (fuel : nat) (n : N) (acc : jsstr) : jsstr :=
  match fuel with
  | O => acc
  | S f =>
      let acc' := (48 + n mod 10) :: acc in
      if n <? 10 then acc' else digits_of f (n / 10) acc'
  end.

Definition string_of_nat (n : nat) : jsstr :=
  digits_of (S n) (N.of_nat n) [].

(** ** Numbers *)

(** The doubles the program computes with are lengths, counts, their halves
    and small decimal multiples of them, far below 2^53.  Finite values are
    kept exact as rationals (the source's comparisons give the same answers on
    them as on the rounded doubles); [NaN] and the infinities are kept apart,
    since the statistics of an empty document are [0/0]. *)
Inductive number : Type :=
| NaN
| Inf (negative : bool)
| Num (q : Q).

Definition of_nat (n : nat) : number := Num (inject_Z (Z.of_nat n)).

Definition Qltb (a b : Q) : bool := negb (Qle_bool b a).

Definition nadd (a b : number) : number :=
  match a, b with
  | NaN, _ | _, NaN => NaN
  | Inf s, Inf t => if Bool.eqb s t then Inf s else NaN
  | Inf s, Num _ | Num _, Inf s => Inf s
  | Num x, Num y => Num (x + y)
  end.

Definition nmul (a b : number) : number :=
  match a, b with
  | NaN, _ | _, NaN => NaN
  | Inf s, Inf t => Inf (xorb s t)
  | Inf s, Num y | Num y, Inf s =>
      if Qeq_bool y 0 then NaN else Inf (xorb s (Qltb y 0))
  | Num x, Num y => Num (x * y)
  end.

Definition ndiv (a b : number) : number :=
  match a, b with
  | NaN, _ | _, NaN => NaN
  | Inf _, Inf _ => NaN
  | Inf s, Num y => Inf (xorb s (Qltb y 0))
  | Num _, Inf _ => Num 0
  | Num x, Num y =>
      if Qeq_bool y 0
      then (if Qeq_bool x 0 then NaN else Inf (Qltb x 0))
      else Num (x / y)
  end.

(** [a < b]; every comparison with [NaN] is false. *)
Definition nlt (a b : number) : bool :=
  match a, b with
  | NaN, _ | _, NaN => false
  | Inf s, Inf t => s && negb t
  | Inf s, Num _ => s
  | Num _, Inf t => negb t
  | Num x, Num y => Qltb x y
  end.

Definition ngt (a b : number) : bool := nlt b a.

(** [a >= b] *)
Definition nge (a b : number) : bool :=
  match a, b with
  | NaN, _ | _, NaN => false
  | Inf s, Inf t => negb s || t
  | Inf s, Num _ => negb s
  | Num _, Inf t => t
  | Num x, Num y => Qle_bool y x
  end.

(** [Math.min(a, b)] *)
Definition nmin (a b : number) : number :=
  match a, b with
  | NaN, _ | _, NaN => NaN
  | _, _ => if nlt b a then b else a
  end.

(** [arr.reduce((a, b) => a + b, 0)] *)
Definition sum (arr : list number) : number :=
  fold_left nadd arr (Num 0).

(** ** Regular expressions *)

(** The flags the source uses: [i] and [m] ([g] only selects replace-all). *)
Record flags : Type := { ignoreCase : bool; multiline : bool }.

Definition no_flags : flags := {| ignoreCase := false; multiline := false |}.
Definition flag_i : flags := {| ignoreCase := true; multiline := false |}.
Definition flag_m : flags := {| ignoreCase := false; multiline := true |}.

(** The fragment of the pattern language the source uses. *)
Inductive regex : Type :=
| Eps
| Chr (c : char)
| Cls (p : char -> bool)
| Seq (a b : regex)
| Alt (a b : regex)
| Star (a : regex)
| Bol
| Eol.

(** [a?], [a+], a literal word, a bracket of listed characters, [a|b|...]. *)
Definition Opt (a : regex) : regex := Alt a Eps.
Definition Plus (a : regex) : regex := Seq a (Star a).
Definition lit (s : string) : regex := fold_right (fun c r => Seq (Chr c) r) Eps (js s).
Definition one_of (s : string) : regex := Cls (fun c => existsb (char_eqb c) (js s)).
Definition alts (rs : list regex) : regex :=
  match rs with
  | [] => Eps
  | r :: rest => fold_left Alt rest r
  end.

(** Canonicalize of ECMAScript without the [u] flag.  Every literal under
    [/i] in the source is ASCII, and no code unit outside ASCII folds onto an
    ASCII letter, so folding [a-z] decides the same matches. *)
Definition canonicalize (fl : flags) (c : char) : char :=
  if ignoreCase fl && is_lower_az c then c - 32 else c.

Definition at_bol (fl : flags) (prev : option char) : bool :=
  match prev with
  | None => true
  | Some c => multiline fl && is_line_terminator c
  end.

Definition at_eol (fl : flags) (s : jsstr) : bool :=
  match s with
  | [] => true
  | c :: _ => multiline fl && is_line_terminator c
  end.

Section Matcher.
Variable R : Type.
Variable fl : flags.

(** The loop of a greedy [a*], given the matcher [ma] of [a]: one more
    iteration is tried before the rest [k] of the pattern, and an iteration
    that consumes nothing is rejected, as RepeatMatcher does.  The input
    bounds the number of iterations. *)
Fixpoint star_loop (ma : option char -> jsstr -> (option char -> jsstr -> option R) -> option R)
         (k : option char -> jsstr -> option R)
         (n : nat) (prev : option char) (s : jsstr) {struct n} : option R :=
  match n with
  | O => k prev s
  | S n' =>
      match ma prev s
              (fun p' s' =>
                 if (length s' <? length s)%nat then star_loop ma k n' p' s' else None)
      with
      | Some x => Some x
      | None => k prev s
      end
  end.

(** The backtracking matcher in continuation-passing style: [prev] is the
    code unit before the current position, [s] the rest of the input, and
    [k] the rest of the pattern.  Alternatives are tried left to right. *)
Fixpoint rmatch (r : regex) (prev : option char) (s : jsstr)
         (k : option char -> jsstr -> option R) {struct r} : option R :=
  match r with
  | Eps => k prev s
  | Chr c =>
      match s with
      | x :: s' =>
          if char_eqb (canonicalize fl x) (canonicalize fl c)
          then k (Some x) s' else None
      | [] => None
      end
  | Cls p =>
      match s with
      | x :: s' => if p x then k (Some x) s' else None
      | [] => None
      end
  | Seq a b => rmatch a prev s (fun p' s' => rmatch b p' s' k)
  | Alt a b =>
      match rmatch a prev s k with
      | Some x => Some x
      | None => rmatch b prev s k
      end
  | Star a => star_loop (rmatch a) k (S (length s)) prev s
  | Bol => if at_bol fl prev then k prev s else None
  | Eol => if at_eol fl s then k prev s else None
  end.
End Matcher.

(** A match attempt at the current position: the code unit before the end of
    the match and the input after it. *)
Definition rexec_at (fl : flags) (r : regex) (prev : option char) (s : jsstr)
  : option (option char * jsstr) :=
  rmatch fl r prev s (fun p s' => Some (p, s')).

Fixpoint test_from (fl : flags) (r : regex) (prev : option char) (s : jsstr) : bool :=
  match rexec_at fl r prev s with
  | Some _ => true
  | None =>
      match s with
      | [] => false
      | c :: s' => test_from fl r (Some c) s'
      end
  end.

(** [r.test(s)] for a pattern literal without [g]. *)
Definition test (fl : flags) (r : regex) (s : jsstr) : bool := test_from fl r None s.

(** The loop of [String.prototype.split] with a pattern: [acc] holds the
    piece since the last separator, reversed; a match that is empty at the
    start of the piece only advances. *)
Fixpoint split_loop (fl : flags) (r : regex) (fuel : nat) (prev : option char)
         (s : jsstr) (acc : jsstr) : list jsstr :=
  match fuel with
  | O => [rev acc ++ s]
  | S f =>
      match s with
      | [] => [rev acc]
      | c :: s' =>
          match rexec_at fl r prev s with
          | Some (p', rest) =>
              if (length rest =? length s)%nat && negb (truthy acc)
              then split_loop fl r f (Some c) s' (c :: acc)
              else rev acc :: split_loop fl r f p' rest []
          | None => split_loop fl r f (Some c) s' (c :: acc)
          end
      end
  end.

(** [s.split(r)] *)
Definition split (fl : flags) (r : regex) (s : jsstr) : list jsstr :=
  match s with
  | [] =>
      match rexec_at fl r None [] with
      | Some _ => []
      | None => [[]]
      end
  | _ => split_loop fl r (2 * length s + 1) None s []
  end.

Fixpoint replace_loop (fl : flags) (r : regex) (repl : jsstr) (fuel : nat)
         (prev : option char) (s : jsstr) : jsstr :=
  match fuel with
  | O => s
  | S f =>
      let advance :=
        match s with
        | [] => []
        | c :: s' => c :: replace_loop fl r repl f (Some c) s'
        end in
      match rexec_at fl r prev s with
      | Some (p', rest) =>
          if (length rest <? length s)%nat
          then repl ++ replace_loop fl r repl f p' rest
          else repl ++ advance
      | None => advance
      end
  end.

(** [s.replace(r, repl)] for a pattern with [g] and a replacement without
    [$] references. *)
Definition replace_all (fl : flags) (r : regex) (repl : jsstr) (s : jsstr) : jsstr :=
  replace_loop fl r repl (S (length s)) None s.

Fixpoint is_prefix (p s : jsstr) : option jsstr :=
  match p, s with
  | [], _ => Some s
  | x :: p', y :: s' => if char_eqb x y then is_prefix p' s' else None
  | _ :: _, [] => None
  end.

(** [s.replace(pat, repl)] for a string pattern: the first occurrence only. *)
Fixpoint replace_first (pat repl : jsstr) (s : jsstr) : jsstr :=
  match is_prefix pat s with
  | Some rest => repl ++ rest
  | None =>
      match s with
      | [] => []
      | c :: s' => c :: replace_first pat repl s'
      end
  end.

Definition LF : jsstr := [10].
Definition SP : jsstr := [32].

(** [arr[i]] read as a number: a hole or an index out of range is
    [undefined], which arithmetic turns into [NaN]. *)
Definition num_at (arr : list nat) (i : Z) : number :=
  if (i <? 0)%Z then NaN
  else match nth_error arr (Z.to_nat i) with
       | Some x => of_nat x
       | None => NaN
       end.

(** [arr.map((x, idx) => f(idx, x))], from position [idx]. *)
Fixpoint mapi {A B : Type} (f : nat -> A -> B) (idx : nat) (arr : list A) : list B :=
  match arr with
  | [] => []
  | x :: rest => f idx x :: mapi f (S idx) rest
  end.

(** The page objects [{ page, text }] that the extractors return. *)
Module Page.
Record t : Type := { page : nat; text : jsstr }.
End Page.

(** ** Effects *)

(** An exception value: what [err.message] and [err.stack] read. *)
Record error : Type := { message : jsstr; stack : jsstr }.

Inductive result (A : Type) : Type :=
| Ok (a : A)
| Throw (e : error).
Arguments Ok {A} a.
Arguments Throw {A} e.

Inductive request : Type :=
| POST (url : jsstr)
| GET (url : jsstr).

(** What a run changes outside the process: the files written, in order,
    and the HTTP requests sent, in order. *)
Record World : Type := {
  files : list (jsstr * jsstr);
  requests : list request
}.

Definition empty_world : World := {| files := []; requests := [] |}.

(** The payload of the OCR service: the body of a poll response and the pages
    of [analyzeResult]; [lines] holds the [content] of each line. *)
Module Azure.
Record page : Type := { pageNumber : nat; lines : list jsstr }.
Record poll : Type := { status : jsstr; analyzeResult : option (list page) }.
End Azure.

(** The value [PDFParse.getText()] resolves to: [pages], when it is an array,
    holds the [text] of each page ([None] for a page without one). *)
Module Parsed.
Record t : Type := { pages : option (list (option jsstr)); text : jsstr }.
End Parsed.

(** The collaborators outside the program: the file system, the PDF parser,
    the OCR service, the clock and the host's error objects.  [get url n] is
    the response to the [n]-th poll of [url]; [toISOString_now file] is what
    [new Date().toISOString()] gives when the output of [file] is put
    together. *)
Record Env : Type := {
  ocrOverride : bool;
  AZURE_ENDPOINT : jsstr;
  toISOString_now : jsstr -> jsstr;
  readFileSync : jsstr -> result jsstr;
  getText : jsstr -> result Parsed.t;
  post : jsstr -> jsstr -> result jsstr;
  get : jsstr -> nat -> result Azure.poll;
  write_error : jsstr -> option error;
  stack_of : jsstr -> jsstr
}.

(** Computations of the program: they add to the world, return or throw,
    and may still be running when the fuel of a polling loop is spent
    ([None]). *)
Definition M (A : Type) : Type := World -> option (result A * World).

Definition ret {A : Type} (a : A) : M A := fun w => Some (Ok a, w).

Definition throw {A : Type} (e : error) : M A := fun w => Some (Throw e, w).

Definition lift {A : Type} (r : result A) : M A := fun w => Some (r, w).

Definition still_running {A : Type} : M A := fun _ => None.

Definition bind {A B : Type} (m : M A) (f : A -> M B) : M B :=
  fun w =>
    match m w with
    | None => None
    | Some (Ok a, w') => f a w'
    | Some (Throw e, w') => Some (Throw e, w')
    end.

(** [try { m } catch (err) { h err }] *)
Definition try_catch {A : Type} (m : M A) (h : error -> M A) : M A :=
  fun w =>
    match m w with
    | Some (Throw e, w') => h e w'
    | other => other
    end.

Notation "x <- m ;; k" := (bind m (fun x => k))
  (at level 61, m at next level, right associativity).

(** [new Error(msg)] and the [TypeError] of a property read on [undefined]. *)
Definition new_Error (env : Env) (msg : jsstr) : error :=
  {| message := msg; stack := stack_of env msg |}.

Definition TypeError_undefined (env : Env) (prop : string) : error :=
  new_Error env (js "Cannot read properties of undefined (reading '" ++ js prop ++ js "')").

(** [fs.writeFileSync(path, data)] *)
Definition writeFileSync (env : Env) (path data : jsstr) : M unit :=
  fun w =>
    match write_error env path with
    | Some e => Some (Throw e, w)
    | None => Some (Ok tt, {| files := files w ++ [(path, data)]; requests := requests w |})
    end.

(** [axios.post(url, body, ...)], read at [headers["operation-location"]]. *)
Definition axios_post (env : Env) (url body : jsstr) : M jsstr :=
  fun w => Some (post env url body,
                 {| files := files w; requests := requests w ++ [POST url] |}).

(** [axios.get(url, ...)], read at [data], for the [n]-th poll of [url]. *)
Definition axios_get (env : Env) (url : jsstr) (n : nat) : M Azure.poll :=
  fun w => Some (get env url n,
                 {| files := files w; requests := requests w ++ [GET url] |}).

(** [path.join(INPUT_DIR, file)] for a directory entry [file]: the leading
    [./] is normalized away. *)
Definition path_join_input (file : jsstr) : jsstr := js "input_pdfs/" ++ file.

(** A call of an async function as the event loop sees it: the stretches
    of code between two awaits, each run as a whole when the promise it
    waits for is settled.  A stretch is told by what it does to the world:
    it sends a request ([axios.post], [axios.get]) and waits for the answer,
    or it is the last, in which the call writes what it writes and returns
    or throws.  A stretch that does neither (the start of the call up to
    [await parser.getText()], the [await sleep(1500)] of the polling loop) is
    one with the stretch after it.  [Pending] is a call whose next promise
    is never settled. *)
Inductive call : Type :=
| Sends (r : request) (next : call)
| Returns (written : list (jsstr * jsstr)) (r : result unit)
| Pending.

(** The call of a computation that never reads the world (the program's
    computations do not): its requests, one to a stretch, then its end, with
    the files it writes ([processSinglePDF] writes after its last await
    only).  A computation that has not come to its end when its fuel is used
    up is a call that stays pending. *)
Definition call_of (m : M unit) : call :=
  match m empty_world with
  | Some (r, we) => fold_right Sends (Returns (files we) r) (requests we)
  | None => Pending
  end.

(** The promise of [runQueue] when it is settled: its rejection, if it is
    rejected, and what there is at that moment: the queue, the number of
    calls of the worker function that have not returned, and the world. *)
Record Settled : Type := {
  rejected : option error;
  queue_left : list jsstr;
  calls_pending : nat;
  world_then : World
}.

(** [while (queue.length) { const item = queue.shift(); if (item) await
    worker(item); }] up to its first [await]: the items that are falsy are
    shifted and skipped, the first that is not is handed to the worker
    function, whose call runs to its own first await; [None] when the queue
    runs empty, and the loop ends. *)
Fixpoint next_call (worker : jsstr -> call) (queue : list jsstr)
  : list jsstr * option call :=
  match queue with
  | [] => ([], None)
  | item :: rest =>
      if truthy item then (rest, Some (worker item)) else next_call worker rest
  end.

(** [Array.from({ length: limit }, async () => { ... })]: the [limit] async
    functions are called one after the other, each to its first await. *)
Fixpoint start_workers (worker : jsstr -> call) (queue : list jsstr) (limit : nat)
  : list jsstr * list call :=
  match limit with
  | O => (queue, [])
  | S fewer =>
      match next_call worker queue with
      | (queue', Some c) =>
          let '(waiting, calls) := start_workers worker queue' fewer in
          (waiting, c :: calls)
      | (queue', None) => (queue', [])
      end
  end.

(** One turn of the event loop while [Promise.all(workers)] is awaited.
    [running] holds the calls that the workers still in their loop wait
    for; the call at position [n] (modulo the length) is resumed and runs its
    next stretch.  When it returns, its worker goes on with its loop in the
    same turn (what happens between the two is not seen from outside).  When
    it throws, the promise of its worker is rejected, and with it the promise
    of [Promise.all] and of [runQueue], while the other calls are still
    pending: the turn gives the settled promise. *)
Definition resume (worker : jsstr -> call) (n : nat)
           (queue : list jsstr) (running : list call) (w : World)
  : Settled + (list jsstr * list call * World) :=
  let i := (n mod length running)%nat in
  let before := firstn i running in
  match skipn i running with
  | [] => inr (queue, running, w)
  | Sends r next :: after =>
      inr (queue, before ++ next :: after,
           {| files := files w; requests := requests w ++ [r] |})
  | Returns written (Ok _) :: after =>
      let w' := {| files := files w ++ written; requests := requests w |} in
      match next_call worker queue with
      | (queue', Some c) => inr (queue', before ++ c :: after, w')
      | (queue', None) => inr (queue', before ++ after, w')
      end
  | Returns written (Throw e) :: after =>
      inl {| rejected := Some e; queue_left := queue;
             calls_pending := length before + length after;
             world_then := {| files := files w ++ written; requests := requests w |} |}
  | Pending :: after => inr (queue, running, w)
  end.

(** [await Promise.all(workers)].  Which call is resumed next is up to the
    promises the calls wait for, that is, to the world outside: [schedule]
    gives it, turn by turn.  When no worker is left in its loop, the promise
    is fulfilled.  [None]: the promise is not settled when the turns of
    [schedule] are used up. *)
Fixpoint event_loop (worker : jsstr -> call) (schedule : list nat)
         (queue : list jsstr) (running : list call) (w : World) : option Settled :=
  match running with
  | [] => Some {| rejected := None; queue_left := queue;
                  calls_pending := 0; world_then := w |}
  | _ :: _ =>
      match schedule with
      | [] => None
      | n :: later =>
          match resume worker n queue running w with
          | inl settled => Some settled
          | inr (queue', running', w') => event_loop worker later queue' running' w'
          end
      end
  end.

(** [runQueue(items, limit, worker)] *)
Definition runQueue (worker : jsstr -> call) (items : list jsstr) (limit : nat)
           (schedule : list nat) (w : World) : option Settled :=
  let '(queue, running) := start_workers worker items limit in
  event_loop worker schedule queue running w.

(** * src/index.js *)

Module Index.

Definition INPUT_DIR : jsstr := js "./input_pdfs".
Definition OUTPUT_DIR : jsstr := js "./output".
Definition MIN_CHARS_PER_PAGE : nat := 50.

(** The patterns of [TextStructureAnalyzer], in the order of the source. *)
Definition re_newline : regex := Seq (Opt (Chr 13)) (Chr 10).
Definition re_sentence_end : regex := Seq (one_of ".!?") Eol.
Definition re_colon_end : regex := Seq (Chr 58) Eol.
Definition re_spaces : regex := Plus (Cls is_space).
Definition re_has_upper : regex := Cls is_upper_AZ.
Definition re_starts_upper : regex := Seq Bol (Cls is_upper_AZ).
Definition re_digits : regex := Plus (Cls is_digit).
Definition re_bullet_header : regex :=
  Seq Bol (Seq (alts [Seq re_digits (Chr 46); Seq re_digits (Chr 41);
                      Chr 45; Chr 42; Chr 8226])
          (Seq re_spaces (Cls is_upper_AZ))).
Definition headerPatterns : list (flags * regex) :=
  [ (flag_i, Seq Bol (alts [lit "chapter"; lit "section"; lit "part";
                            lit "appendix"; lit "introduction"; lit "conclusion";
                            lit "abstract"; lit "summary"; lit "overview";
                            lit "background"]));
    (flag_i, Seq Bol (alts [lit "table of contents"; lit "references";
                            lit "bibliography"; lit "acknowledgments"]));
    (no_flags, Seq Bol (Seq re_digits (Seq (Chr 46) (Seq re_spaces (Cls is_upper_AZ)))));
    (no_flags, Seq Bol (Seq (Plus (one_of "IVXLCDM"))
                            (Seq (Chr 46) (Seq re_spaces (Cls is_upper_AZ))))) ].
Definition re_list_item : regex :=
  Seq Bol (Seq (alts [Seq re_digits (Chr 46); Seq re_digits (Chr 41);
                      Chr 45; Chr 42; Chr 8226; Chr 9675; Chr 167;
                      Seq (Cls is_lower_az) (Chr 46);
                      Seq (Cls is_upper_AZ) (Chr 46)])
          re_spaces).
Definition re_starts_lower : regex := Seq Bol (Cls is_lower_az).
Definition re_punct_end : regex := Seq (one_of ".!?;") Eol.
Definition re_starts_capital : regex :=
  Seq Bol (Cls (fun c => is_upper_AZ c || (c =? 34) || (c =? 39) || (c =? 40) || (c =? 91))).

Record Stats : Type := {
  avgLength : number;
  medianLength : number;
  sentenceEndingRatio : number;
  colonEndingRatio : number;
  totalLines : nat
}.

Record TextStructureAnalyzer : Type := {
  lines : list jsstr;
  stats : Stats
}.

(** [median(arr)]: the comparator [(a, b) => a - b] sorts numerically. *)
Definition median (arr : list nat) : number :=
  let sorted := NatSort.sort arr in
  let mid := Nat.div (length sorted) 2 in
  if Nat.odd (length sorted)
  then num_at sorted (Z.of_nat mid)
  else ndiv (nadd (num_at sorted (Z.of_nat mid - 1)) (num_at sorted (Z.of_nat mid))) (Num 2).

Definition analyzeDocument (lines : list jsstr) : Stats :=
  let lengths := map (@length char) lines in
  let avgLength := ndiv (sum (map of_nat lengths)) (of_nat (length lengths)) in
  let medianLength := median lengths in
  let sentenceEndings := length (filter (test no_flags re_sentence_end) lines) in
  let colonEndings := length (filter (test no_flags re_colon_end) lines) in
  {| avgLength := avgLength;
     medianLength := medianLength;
     sentenceEndingRatio := ndiv (of_nat sentenceEndings) (of_nat (length lines));
     colonEndingRatio := ndiv (of_nat colonEndings) (of_nat (length lines));
     totalLines := length lines |}.

(** [new TextStructureAnalyzer(rawText)] *)
Definition new_TextStructureAnalyzer (rawText : jsstr) : TextStructureAnalyzer :=
  let lines := filter truthy (map trim (split no_flags re_newline rawText)) in
  {| lines := lines; stats := analyzeDocument lines |}.

Definition endsWithPunctuation (line : jsstr) : bool := test no_flags re_punct_end line.

Definition startsWithCapital (line : jsstr) : bool := test no_flags re_starts_capital line.

Definition isListItem (line : jsstr) : bool := test no_flags re_list_item line.

(** [this.lines[i]] where the source has guarded the index: [isHeaderLine]
    reads [lines[index - 1]] for [index > 0] and [lines[index + 1]] for
    [index < lines.length - 1], so that for [index] from [-1] to
    [lines.length] the line it reads is there.  Beyond these the source reads
    [undefined] and throws at its [length]; what is said of [isHeaderLine] is
    said of the indices from [-1] to [lines.length]. *)
Definition line_at (this : TextStructureAnalyzer) (i : Z) : jsstr :=
  nth (Z.to_nat i) (lines this) [].

Definition push (factors : list number) (w : Q) : list number := factors ++ [Num w].

Section Analyzer.
(** [String.prototype.toUpperCase], the Unicode mapping of the host. *)
Variable toUpperCase : jsstr -> jsstr.

(** The all-caps test of [isHeaderLine], factor 2. *)
Definition isAllCaps (line : jsstr) (words : list jsstr) : bool :=
  str_eqb line (toUpperCase line)
  && test no_flags re_has_upper line
  && (1 <? length words)%nat
  && (length words <? 12)%nat.

(** [isHeaderLine(line, index)].  The callers pass a position of
    [this.lines] or [-1]; for those the two neighbour reads are guarded. *)
Definition isHeaderLine (this : TextStructureAnalyzer) (line : jsstr) (index : Z) : bool :=
  let factors := [] in
  let lengthThreshold := nmin (nmul (medianLength (stats this)) (Num (6 # 10))) (Num 80) in
  let factors := if nlt (of_nat (length line)) lengthThreshold then push factors 1 else factors in
  let words := split no_flags re_spaces line in
  let factors := if isAllCaps line words then push factors 2 else factors in
  let capitalizedWords :=
    filter (fun w => test no_flags re_starts_upper w && (2 <? length w)%nat) words in
  let isTitleCase :=
    nge (of_nat (length capitalizedWords)) (nmul (of_nat (length words)) (Num (7 # 10)))
    && (2 <=? length words)%nat
    && (length words <? 15)%nat in
  let factors :=
    if isTitleCase && negb (endsWithPunctuation line) then push factors (3 # 2) else factors in
  let factors :=
    if negb (endsWithPunctuation line) && (length line <? 100)%nat
    then push factors 1 else factors in
  let factors := if test no_flags re_colon_end line then push factors 2 else factors in
  let factors :=
    if test no_flags re_bullet_header line && (length line <? 100)%nat
    then push factors (3 # 2) else factors in
  let prevLine := if (index >? 0)%Z then line_at this (index - 1) else [] in
  let nextLine :=
    if (index <? Z.of_nat (length (lines this)) - 1)%Z then line_at this (index + 1) else [] in
  let factors :=
    if ngt (of_nat (length prevLine)) (nmul (of_nat (length line)) (Num (3 # 2)))
       || ngt (of_nat (length nextLine)) (nmul (of_nat (length line)) (Num (3 # 2)))
    then push factors (1 # 2) else factors in
  let factors :=
    if existsb (fun p => test (fst p) (snd p) line) headerPatterns
    then push factors 2 else factors in
  let score := sum factors in
  nge score (Num (5 # 2)).

Definition isContinuation (this : TextStructureAnalyzer) (line : jsstr) : bool :=
  negb (isListItem line)
  && test no_flags re_starts_lower line
  && negb (isHeaderLine this line (-1)).
End Analyzer.

(** The block objects of [cleanNaturalText]: [{ type, lines, level }], where
    only header blocks carry a level. *)
Module Block.
Inductive kind : Type := header | list | paragraph.

Definition kind_eqb (a b : kind) : bool :=
  match a, b with
  | header, header | list, list | paragraph, paragraph => true
  | _, _ => false
  end.

Record t : Type := {
  type : kind;
  lines : Datatypes.list jsstr;
  level : option nat
}.

Definition empty (k : kind) : t := {| type := k; lines := []; level := None |}.

(** [block.lines.push(line)] *)
Definition push_line (b : t) (line : jsstr) : t :=
  {| type := type b; lines := lines b ++ [line]; level := level b |}.

(** [block.lines[block.lines.length - 1] = line] *)
Definition set_last (b : t) (line : jsstr) : t :=
  {| type := type b; lines := removelast (lines b) ++ [line]; level := level b |}.
End Block.

(** The page objects [{ pageNumber, text }] that [cleanPages] returns. *)
Module Cleaned.
Record t : Type := { pageNumber : nat; text : jsstr }.
End Cleaned.

Definition re_nl3 : regex := Seq (Chr 10) (Seq (Chr 10) (Seq (Chr 10) (Star (Chr 10)))).

Section Cleaner.
Variable toUpperCase : jsstr -> jsstr.

(** The local [shouldMerge] of the loop. *)
Definition shouldMerge (analyzer : TextStructureAnalyzer) (lastLine line : jsstr) : bool :=
  negb (endsWithPunctuation lastLine)
  || isContinuation toUpperCase analyzer line
  || ((length lastLine <? 80)%nat && negb (startsWithCapital line)).

(** The state of the loop: [blocks] and [currentBlock]. *)
Definition loop_state : Type := (list Block.t * Block.t)%type.

Definition header_level (line : jsstr) : nat :=
  if (length line <? 30)%nat then 1%nat
  else if (length line <? 60)%nat then 2%nat else 3%nat.

(** One iteration of the [for] loop, on [lines[i]]. *)
Definition loop_body (analyzer : TextStructureAnalyzer) (st : loop_state)
           (i : Z) (line : jsstr) : loop_state :=
  let '(blocks, currentBlock) := st in
  if isHeaderLine toUpperCase analyzer line i then
    let blocks :=
      if (0 <? length (Block.lines currentBlock))%nat
      then blocks ++ [currentBlock] else blocks in
    let blocks :=
      blocks ++ [ {| Block.type := Block.header;
                     Block.lines := [line];
                     Block.level := Some (header_level line) |} ] in
    (blocks, Block.empty Block.paragraph)
  else if isListItem line then
    let '(blocks, currentBlock) :=
      if Block.kind_eqb (Block.type currentBlock) Block.paragraph
         && (0 <? length (Block.lines currentBlock))%nat
      then (blocks ++ [currentBlock], Block.empty Block.list)
      else (blocks, currentBlock) in
    let currentBlock :=
      if negb (Block.kind_eqb (Block.type currentBlock) Block.list)
      then Block.empty Block.list else currentBlock in
    (blocks, Block.push_line currentBlock line)
  else
    let '(blocks, currentBlock) :=
      if Block.kind_eqb (Block.type currentBlock) Block.list
         && (0 <? length (Block.lines currentBlock))%nat
      then (blocks ++ [currentBlock], Block.empty Block.paragraph)
      else (blocks, currentBlock) in
    if (0 <? length (Block.lines currentBlock))%nat then
      let lastLine := last (Block.lines currentBlock) [] in
      if shouldMerge analyzer lastLine line
      then (blocks, Block.set_last currentBlock (lastLine ++ SP ++ line))
      else (blocks, Block.push_line currentBlock line)
    else (blocks, Block.push_line currentBlock line).

(** [for (let i = ...; i < lines.length; i++)] over the rest [ls] of the
    lines, from position [i]. *)
Fixpoint loop (analyzer : TextStructureAnalyzer) (ls : list jsstr) (i : Z)
         (st : loop_state) : loop_state :=
  match ls with
  | [] => st
  | line :: rest => loop analyzer rest (i + 1)%Z (loop_body analyzer st i line)
  end.

(** The blocks at the end of the loop, the last one flushed. *)
Definition build_blocks (analyzer : TextStructureAnalyzer) : list Block.t :=
  let '(blocks, currentBlock) :=
    loop analyzer (lines analyzer) 0%Z ([], Block.empty Block.paragraph) in
  if (0 <? length (Block.lines currentBlock))%nat
  then blocks ++ [currentBlock] else blocks.

(** The callback of [blocks.map] in the return statement. *)
Definition render (block : Block.t) : jsstr :=
  match Block.type block with
  | Block.header =>
      let hashes := repeat_str (js "#") (match Block.level block with
                                        | Some n => n
                                        | None => 0%nat
                                        end) in
      LF ++ hashes ++ SP ++ toUpperCase (hd [] (Block.lines block)) ++ SP ++ hashes ++ LF
  | Block.list => join LF (Block.lines block)
  | Block.paragraph => join SP (Block.lines block)
  end.

(** [cleanNaturalText(rawText)]; [None] stands for [null] and
    [undefined]. *)
Definition cleanNaturalText (rawText : option jsstr) : jsstr :=
  match rawText with
  | None => []
  | Some rawText =>
      if negb (truthy rawText) then []
      else
        let analyzer := new_TextStructureAnalyzer rawText in
        let blocks := build_blocks analyzer in
        trim (replace_all no_flags re_nl3 (LF ++ LF)
                (join (LF ++ LF) (map render blocks)))
  end.

Definition re_formfeed : regex := Chr 12.
Definition re_page_of : regex :=
  Seq (lit "Page ") (Seq re_digits (Seq (lit " of ") re_digits)).
Definition re_lone_number : regex :=
  Seq Bol (Seq re_digits (Seq (Star (Cls is_space)) Eol)).
Definition re_rule_line : regex :=
  Seq Bol (Seq (Plus (Cls (fun c => is_space c || (c =? 45) || (c =? 95)))) Eol).

(** The callback of [pages.map] in [cleanPages]. *)
Definition clean_page (idx : nat) (page : Page.t) : Cleaned.t :=
  let cleaned := cleanNaturalText (Some (Page.text page)) in
  let cleaned := replace_all no_flags re_formfeed [] cleaned in
  let cleaned := replace_all flag_i re_page_of [] cleaned in
  let cleaned := replace_all flag_m re_lone_number [] cleaned in
  let cleaned := replace_all flag_m re_rule_line [] cleaned in
  {| Cleaned.pageNumber := idx + 1; Cleaned.text := cleaned |}.

Definition cleanPages (pages : list Page.t) : list Cleaned.t :=
  filter (fun p => (MIN_CHARS_PER_PAGE <=? length (trim (Cleaned.text p)))%nat)
         (mapi clean_page 0 pages).
End Cleaner.


Section Program.
Variable toUpperCase : jsstr -> jsstr.
Variable env : Env.

Definition extractPdfParse (pdfPath : jsstr) : M (list Page.t) :=
  buffer <- lift (readFileSync env pdfPath) ;;
  result <- lift (getText env buffer) ;;
  let by_formfeed :=
    filter (fun p => (0 <? length (trim (Page.text p)))%nat)
           (mapi (fun i text => {| Page.page := i + 1; Page.text := text |}) 0
                 (split no_flags (Chr 12) (Parsed.text result))) in
  match Parsed.pages result with
  | Some pages =>
      if (0 <? length pages)%nat
      then ret (mapi (fun i p => {| Page.page := i + 1;
                                    Page.text := match p with
                                                 | Some t => t
                                                 | None => []
                                                 end |}) 0 pages)
      else ret by_formfeed
  | None => ret by_formfeed
  end.

(** [while (!result) { await sleep(1500); poll = await axios.get(pollUrl);
    if (poll.data.status === "succeeded") result = poll.data; }], before
    the poll number [n]. *)
Fixpoint poll_loop (fuel : nat) (pollUrl : jsstr) (n : nat) : M Azure.poll :=
  match fuel with
  | O => still_running
  | S fuel' =>
      poll <- axios_get env pollUrl n ;;
      if str_eqb (Azure.status poll) (js "succeeded")
      then ret poll
      else poll_loop fuel' pollUrl (S n)
  end.

Definition analyze_url : jsstr :=
  AZURE_ENDPOINT env
  ++ js "/formrecognizer/documentModels/prebuilt-layout:analyze?api-version=2023-07-31".

Definition extractAzure (fuel : nat) (pdfPath : jsstr) : M (list Page.t) :=
  file <- lift (readFileSync env pdfPath) ;;
  pollUrl <- axios_post env analyze_url file ;;
  result <- poll_loop fuel pollUrl 0 ;;
  match Azure.analyzeResult result with
  | None => throw (TypeError_undefined env "pages")
  | Some pages =>
      ret (map (fun page => {| Page.page := Azure.pageNumber page;
                               Page.text := join LF (Azure.lines page) |}) pages)
  end.

(** [pages.some(p => p.text.length >= MIN_CHARS_PER_PAGE)] *)
Definition usable (pages : list Page.t) : bool :=
  existsb (fun p => (MIN_CHARS_PER_PAGE <=? length (Page.text p))%nat) pages.

Definition transcript (file method : jsstr) (cleanedPages : list Cleaned.t) : jsstr :=
  join LF
    ([ js "# Document: " ++ file;
       js "# Processed: " ++ toISOString_now env file;
       js "# Method: " ++ method;
       js "# Pages: " ++ string_of_nat (length cleanedPages);
       LF ++ repeat_str (js "=") 80 ++ LF ]
     ++ map (fun p => LF ++ js "## Page " ++ string_of_nat (Cleaned.pageNumber p) ++ LF
                      ++ repeat_str (js "-") 80 ++ LF ++ LF ++ Cleaned.text p)
            cleanedPages).

Definition base_of (file : jsstr) : jsstr := replace_first (js ".pdf") [] file.

Definition transcript_path (file : jsstr) : jsstr :=
  OUTPUT_DIR ++ js "/" ++ base_of file ++ js ".txt".

Definition error_path (file : jsstr) : jsstr :=
  OUTPUT_DIR ++ js "/" ++ base_of file ++ js ".error.txt".

(** What follows the choice of the extractor in the [try] of
    [processSinglePDF]. *)
Definition finish (file : jsstr) (chosen : list Page.t * jsstr) : M unit :=
  let '(pages, method) := chosen in
  let cleanedPages := cleanPages toUpperCase pages in
  writeFileSync env (transcript_path file) (transcript file method cleanedPages).

(** The body of the [try] of [processSinglePDF]. *)
Definition process_body (fuel : nat) (file : jsstr) : M unit :=
  let pdfPath := path_join_input file in
  pages <- extractPdfParse pdfPath ;;
  chosen <- (if negb (usable pages) || ocrOverride env
             then (pages <- extractAzure fuel pdfPath ;; ret (pages, js "azure"))
             else ret (pages, js "pdf-parse")) ;;
  finish file chosen.

(** [processSinglePDF(file)]; the two console lines are left out. *)
Definition processSinglePDF (fuel : nat) (file : jsstr) : M unit :=
  try_catch (process_body fuel file)
            (fun err => writeFileSync env (error_path file) (stack err)).

(** A call [processSinglePDF(file)], as [runQueue] makes it. *)
Definition call_processSinglePDF (fuel : nat) (file : jsstr) : call :=
  call_of (processSinglePDF fuel file).

(** The last line of the program, on the listing [pdfFiles] of the input
    directory, with [CONCURRENCY] workers. *)
Definition main (fuel : nat) (pdfFiles : list jsstr) (CONCURRENCY : nat)
           (schedule : list nat) (w : World) : option Settled :=
  runQueue (call_processSinglePDF fuel) pdfFiles CONCURRENCY schedule w.
End Program.

End Index.

(** * src/unnamed/part_000 *)

Module Rev0.

Definition MIN_CHARS_PER_PAGE : nat := 50.

Definition re_newline : regex := Seq (Opt (Chr 13)) (Chr 10).
Definition re_spaces : regex := Plus (Cls is_space).
Definition re_has_upper : regex := Cls is_upper_AZ.
Definition re_digits : regex := Plus (Cls is_digit).
Definition re_caps_line : regex :=
  Seq Bol (Seq (Cls (fun c => is_upper_AZ c || is_digit c))
          (Seq (Plus (Cls (fun c => is_upper_AZ c || is_digit c || is_space c
                                   || (c =? 45) || (c =? 46))))
               Eol)).
Definition re_numbered : regex :=
  Seq Bol (Seq (alts [Seq re_digits (Chr 46);
                      Seq re_digits (Seq (Chr 46) re_digits);
                      Seq (Plus (one_of "IVXLCDM")) (Chr 46)])
          (Seq re_spaces (Cls is_upper_AZ))).
Definition re_hashes : regex := Seq Bol (Seq (Plus (Chr 35)) (Cls is_space)).
Definition re_sentence_end : regex := Seq (one_of ".!?") Eol.

(** [s.endsWith(suffix)] *)
Definition endsWith (s suffix : jsstr) : bool :=
  match is_prefix (rev suffix) (rev s) with
  | Some _ => true
  | None => false
  end.

Record Stats : Type := { medianLength : number }.

Record TextStructureAnalyzer : Type := {
  rawText : jsstr;
  lines : list jsstr;
  stats : Stats
}.

Definition analyzeDocument (lines : list jsstr) : Stats :=
  let lengths := map (@length char) lines in
  if (length lengths =? 0)%nat then {| medianLength := Num 0 |}
  else
    let sorted := NatSort.sort lengths in
    let mid := Nat.div (length sorted) 2 in
    let median :=
      if Nat.odd (length sorted)
      then num_at sorted (Z.of_nat mid)
      else ndiv (nadd (num_at sorted (Z.of_nat mid - 1)) (num_at sorted (Z.of_nat mid)))
                (Num 2) in
    {| medianLength := median |}.

Section Analyzer.
(** [toUpperCase] of the host and [he.decode] of the [he] package. *)
Variable toUpperCase : jsstr -> jsstr.
Variable he_decode : jsstr -> jsstr.

(** [new TextStructureAnalyzer(rawText)]; the tokenizer object it also
    creates is used by [processContent] only. *)
Definition new_TextStructureAnalyzer (rawText : jsstr) : TextStructureAnalyzer :=
  let rawText := he_decode rawText in
  let lines := filter truthy (map trim (split no_flags re_newline rawText)) in
  {| rawText := rawText; lines := lines; stats := analyzeDocument lines |}.

(** [isHeaderLine(line, index)]; [prevLine] and [nextLine] are computed by
    the source and never read. *)
Definition isHeaderLine (this : TextStructureAnalyzer) (line : jsstr) (index : Z) : bool :=
  if (length line <? 3)%nat || (120 <? length line)%nat then false
  else
    let score := 0%nat in
    let words := split no_flags re_spaces line in
    let isAllCaps := str_eqb line (toUpperCase line) && test no_flags re_has_upper line in
    let score := if isAllCaps && (length words <=? 8)%nat then (score + 4)%nat else score in
    let score :=
      if test no_flags re_caps_line line && (length line <? 60)%nat
      then (score + 2)%nat else score in
    let score := if test no_flags re_numbered line then (score + 3)%nat else score in
    let score :=
      if endsWith line (js ":") && (length line <? 50)%nat
      then (score + 2)%nat else score in
    let score := if test no_flags re_hashes line then (score + 5)%nat else score in
    let score :=
      if nlt (of_nat (length line)) (nmul (medianLength (stats this)) (Num (7 # 10)))
      then (if negb (test no_flags re_sentence_end line) then (score + 2)%nat else score)
      else score in
    (4 <=? score)%nat.
End Analyzer.

Section Program.
Variable env : Env.

(** [applyArtifactCleanup(processContent(text))]: the reconstruction of this
    revision goes through the [he] and [sentence-tokenizer] packages; the
    page pipeline below is stated for the text it returns. *)
Variable clean_text : jsstr -> jsstr.

(** [path.parse(file).name] of Node. *)
Variable path_parse_name : jsstr -> jsstr.

Definition extractPdfParse (pdfPath : jsstr) : M (list Page.t) :=
  buffer <- lift (readFileSync env pdfPath) ;;
  result <- lift (getText env buffer) ;;
  match Parsed.pages result with
  | Some pages =>
      ret (mapi (fun i p => {| Page.page := i + 1;
                               Page.text := match p with
                                            | Some t => t
                                            | None => []
                                            end |}) 0 pages)
  | None =>
      ret (mapi (fun i text => {| Page.page := i + 1; Page.text := text |}) 0
                (split no_flags (Chr 12) (Parsed.text result)))
  end.

(** [while (true) { poll = await axios.get(pollUrl); if succeeded: break;
    if failed: throw; await sleep(2000); }], before the poll number [n]. *)
Fixpoint poll_loop (fuel : nat) (pollUrl : jsstr) (n : nat) : M Azure.poll :=
  match fuel with
  | O => still_running
  | S fuel' =>
      poll <- axios_get env pollUrl n ;;
      if str_eqb (Azure.status poll) (js "succeeded") then ret poll
      else if str_eqb (Azure.status poll) (js "failed")
           then throw (new_Error env (js "Azure OCR Failed"))
           else poll_loop fuel' pollUrl (S n)
  end.

Definition analyze_url : jsstr :=
  AZURE_ENDPOINT env
  ++ js "/formrecognizer/documentModels/prebuilt-layout:analyze?api-version=2023-07-31".

(** The second declaration of [extractAzure], which is the one in force:
    a later function declaration of the same name replaces the earlier. *)
Definition extractAzure (fuel : nat) (pdfPath : jsstr) : M (list Page.t) :=
  file <- lift (readFileSync env pdfPath) ;;
  response <- axios_post env analyze_url file ;;
  result <- poll_loop fuel response 0 ;;
  match Azure.analyzeResult result with
  | None => throw (TypeError_undefined env "pages")
  | Some pages =>
      ret (map (fun page => {| Page.page := Azure.pageNumber page;
                               Page.text := join LF (Azure.lines page) |}) pages)
  end.

(** [pages.filter(p => p.text.trim().length >= MIN_CHARS_PER_PAGE).length
     / pages.length > 0.5] *)
Definition usable (pages : list Page.t) : bool :=
  ngt (ndiv (of_nat (length (filter (fun p => (MIN_CHARS_PER_PAGE
                                               <=? length (trim (Page.text p)))%nat)
                                    pages)))
            (of_nat (length pages)))
      (Num (1 # 2)).

(** [pages.map(p => ({...p, text: ...})).filter(p => p.text.length > 10)] *)
Definition processedPages (pages : list Page.t) : list Page.t :=
  filter (fun p => (10 <? length (Page.text p))%nat)
         (map (fun p => {| Page.page := Page.page p;
                           Page.text := clean_text (Page.text p) |}) pages).

Definition manifest (file method : jsstr) (processedPages : list Page.t) : jsstr :=
  join LF
    ([ js "# MANIFEST";
       js "SOURCE: " ++ file;
       js "ENGINE: " ++ method;
       js "DATE: " ++ toISOString_now env file;
       js "PAGES_EXTRACTED: " ++ string_of_nat (length processedPages);
       LF ++ repeat_str (js "#") 40 ++ LF ]
     ++ map (fun p => js "[PAGE " ++ string_of_nat (Page.page p) ++ js "]" ++ LF
                      ++ Page.text p ++ LF)
            processedPages).

(** [path.join(OUTPUT_DIR, name)] for a plain file name. *)
Definition path_join_output (name : jsstr) : jsstr := js "output/" ++ name.

(** What follows the choice of the extractor in the [try] of
    [processSinglePDF]. *)
Definition finish (file : jsstr) (chosen : list Page.t * jsstr) : M unit :=
  let '(pages, method) := chosen in
  let processed := processedPages pages in
  writeFileSync env (path_join_output (path_parse_name file ++ js ".txt"))
                (manifest file method processed).

Definition process_body (fuel : nat) (file : jsstr) : M unit :=
  let pdfPath := path_join_input file in
  pages <- extractPdfParse pdfPath ;;
  chosen <- (if negb (usable pages) || ocrOverride env
             then (pages <- extractAzure fuel pdfPath ;; ret (pages, js "azure"))
             else ret (pages, js "pdf-parse")) ;;
  finish file chosen.

(** [processSinglePDF(file)]; the two console lines are left out. *)
Definition processSinglePDF (fuel : nat) (file : jsstr) : M unit :=
  try_catch (process_body fuel file)
            (fun err => writeFileSync env
                          (path_join_output (path_parse_name file ++ js ".error.log"))
                          (stack err)).

(** A call [processSinglePDF(file)], as [runQueue] makes it. *)
Definition call_processSinglePDF (fuel : nat) (file : jsstr) : call :=
  call_of (processSinglePDF fuel file).
End Program.

End Rev0.

(** * The rest of the two programs *)

(** ** Replacement by a function of the match *)

(** [s.replace(r, repl)] for a pattern with [g], where [f] gives the
    replacement from the matched text. *)
Fixpoint replace_fn_loop (fl : flags) (r : regex) (f : jsstr -> jsstr) (fuel : nat)
         (prev : option char) (s : jsstr) : jsstr :=
  match fuel with
  | O => s
  | S fuel' =>
      let advance :=
        match s with
        | [] => []
        | c :: s' => c :: replace_fn_loop fl r f fuel' (Some c) s'
        end in
      match rexec_at fl r prev s with
      | Some (p', rest) =>
          let matched := firstn (length s - length rest) s in
          if (length rest <? length s)%nat
          then f matched ++ replace_fn_loop fl r f fuel' p' rest
          else f matched ++ advance
      | None => advance
      end
  end.

Definition replace_all_fn (fl : flags) (r : regex) (f : jsstr -> jsstr) (s : jsstr) : jsstr :=
  replace_fn_loop fl r f (S (length s)) None s.

(** [\w] *)
Definition is_word (c : char) : bool :=
  is_upper_AZ c || is_lower_az c || is_digit c || (c =? 95).

(** ** src/unnamed/part_000: the text of a page *)

Module Rev0Text.

(** The two patterns of [isListItem]; the [u] flag of the first changes
    nothing to a pattern of code units below the surrogates that is anchored
    at the start. *)
Definition re_list_marker : regex :=
  Seq Bol
      (Seq (alts [Seq Rev0.re_digits (Cls (fun c => (c =? 46) || (c =? 41)));
                  Cls (fun c => (c =? 45) || (c =? 42) || (c =? 8226) || (c =? 9675)
                                || (c =? 167));
                  Seq (Alt (Cls is_lower_az) (Cls is_upper_AZ))
                      (Cls (fun c => (c =? 46) || (c =? 41)))])
           Rev0.re_spaces).
Definition bullet_glyphs : list char :=
  [9679; 9675; 9632; 9633; 9654; 9655; 9658; 9656; 9657; 9664; 9665; 9666; 9667;
   9642; 9643; 8226].
Definition re_bullet_glyph : regex :=
  Seq Bol (Cls (fun c => existsb (char_eqb c) bullet_glyphs)).

Definition isListItem (line : jsstr) : bool :=
  test no_flags re_list_marker line || test no_flags re_bullet_glyph line.

Definition re_join_punct_end : regex := Seq (one_of ".!?;:") Eol.
Definition re_starts_lower : regex := Seq Bol (Cls is_lower_az).

Definition shouldJoin (this : Rev0.TextStructureAnalyzer) (prevLine currLine : jsstr) : bool :=
  if negb (truthy prevLine) then false
  else if isListItem currLine || isListItem prevLine then false
  else
    let endsWithPunct := test no_flags re_join_punct_end prevLine in
    let startsWithLower := test no_flags re_starts_lower currLine in
    if startsWithLower then true
    else if negb endsWithPunct
            && ngt (of_nat (length prevLine))
                   (nmul (Rev0.medianLength (Rev0.stats this)) (Num (1 # 2)))
         then true
         else false.

Definition re_nl3 : regex := Seq (Chr 10) (Seq (Chr 10) (Seq (Chr 10) (Star (Chr 10)))).

Section Content.
(** [toUpperCase] of the host, [he.decode] of the [he] package, and the
    sentences that the tokenizer of the [sentence-tokenizer] package finds
    in an entry ([setEntry] followed by [getSentences]). *)
Variable toUpperCase : jsstr -> jsstr.
Variable he_decode : jsstr -> jsstr.
Variable getSentences : jsstr -> list jsstr.

(** The state of the loop of [processContent]: [blocks] and
    [currentParagraph]. *)
Definition content_state : Type := (list jsstr * list jsstr)%type.

(** The local [flush]. *)
Definition flush (st : content_state) : content_state :=
  let '(blocks, currentParagraph) := st in
  if (0 <? length currentParagraph)%nat
  then
    let text := join SP currentParagraph in
    (blocks ++ [join SP (getSentences text)], [])
  else st.

(** One iteration of the [for] loop, on [lines[i]]. *)
Definition content_body (analyzer : Rev0.TextStructureAnalyzer) (st : content_state)
           (i : Z) (line : jsstr) : content_state :=
  if Rev0.isHeaderLine toUpperCase analyzer line i then
    let '(blocks, currentParagraph) := flush st in
    (blocks ++ [LF ++ js "### " ++ toUpperCase line ++ js " ###" ++ LF], currentParagraph)
  else if isListItem line then
    let '(blocks, currentParagraph) := flush st in
    (blocks ++ [line], currentParagraph)
  else
    let '(blocks, currentParagraph) :=
      if (0 <? length (snd st))%nat
         && negb (shouldJoin analyzer (last (snd st) []) line)
      then flush st else st in
    (blocks, currentParagraph ++ [line]).

Fixpoint content_loop (analyzer : Rev0.TextStructureAnalyzer) (ls : list jsstr) (i : Z)
         (st : content_state) : content_state :=
  match ls with
  | [] => st
  | line :: rest => content_loop analyzer rest (i + 1)%Z (content_body analyzer st i line)
  end.

(** The blocks at the end of the loop, after the last [flush]. *)
Definition content_blocks (analyzer : Rev0.TextStructureAnalyzer) : list jsstr :=
  fst (flush (content_loop analyzer (Rev0.lines analyzer) 0%Z ([], []))).

(** [processContent(rawText)]; [None] stands for [null] and [undefined]. *)
Definition processContent (rawText : option jsstr) : jsstr :=
  match rawText with
  | None => []
  | Some rawText =>
      if negb (truthy rawText) then []
      else
        let analyzer := Rev0.new_TextStructureAnalyzer he_decode rawText in
        let blocks := content_blocks analyzer in
        trim (replace_all no_flags re_nl3 (LF ++ LF) (join (LF ++ LF) blocks))
  end.
End Content.

Definition re_formfeed : regex := Chr 12.
Definition re_page_of : regex :=
  Seq (lit "Page ") (Seq Rev0.re_digits (Seq (lit " of ") Rev0.re_digits)).
Definition re_lone_number : regex := Seq Bol (Seq Rev0.re_digits Eol).
Definition is_control (c : char) : bool :=
  in_range 0 8 c || (c =? 11) || (c =? 12) || in_range 14 31 c || in_range 127 159 c.
Definition re_control : regex := Cls is_control.
Definition re_hyphen_break : regex :=
  Seq (Cls is_word)
      (Seq (Chr 45) (Seq (Star (Cls is_space)) (Seq (Chr 10) (Cls is_word)))).
Definition is_blank (c : char) : bool := (c =? 32) || (c =? 9).
Definition re_blanks : regex := Plus (Cls is_blank).

(** The replacement ["$1$2"] of [re_hyphen_break], whose two groups are the
    first and the last code unit of the match. *)
Definition first_and_last (matched : jsstr) : jsstr :=
  match matched with
  | [] => []
  | c :: _ => [c; last matched c]
  end.

Definition applyArtifactCleanup (text : jsstr) : jsstr :=
  let text := replace_all no_flags re_formfeed [] text in
  let text := replace_all flag_i re_page_of [] text in
  let text := replace_all flag_m re_lone_number [] text in
  let text := replace_all no_flags re_control [] text in
  let text := replace_all_fn no_flags re_hyphen_break first_and_last text in
  replace_all no_flags re_blanks SP text.

(** [applyArtifactCleanup(processContent(p.text))], the text function of
    [processSinglePDF]. *)
Definition clean_text (toUpperCase he_decode : jsstr -> jsstr)
           (getSentences : jsstr -> list jsstr) (text : jsstr) : jsstr :=
  applyArtifactCleanup (processContent toUpperCase he_decode getSentences (Some text)).

End Rev0Text.

(** ** The listing of the input directory and the start of the run *)

(** [Math.max(1, os.cpus().length - 1)], for [cpus] processors. *)
Definition CONCURRENCY (cpus : nat) : nat := Nat.max 1 (cpus - 1).

(** [src/index.js]: the entries [fs.readdirSync(INPUT_DIR)] that end in
    [.pdf], handed to [runQueue]. *)
Module IndexMain.
Definition pdfFiles (entries : list jsstr) : list jsstr :=
  filter (fun f => Rev0.endsWith f (js ".pdf")) entries.

Definition run (toUpperCase : jsstr -> jsstr) (env : Env) (fuel : nat)
           (entries : list jsstr) (cpus : nat) (schedule : list nat) (w : World)
  : option Settled :=
  runQueue (Index.call_processSinglePDF toUpperCase env fuel) (pdfFiles entries) (CONCURRENCY cpus)
           schedule w.
End IndexMain.

(** [src/unnamed/part_000]: the entries that match [/\.pdf$/i]. *)
Module Rev0Main.
Definition re_pdf : regex := Seq (lit ".pdf") Eol.

Definition pdfFiles (entries : list jsstr) : list jsstr :=
  filter (test flag_i re_pdf) entries.

Definition run (env : Env) (clean_text path_parse_name : jsstr -> jsstr) (fuel : nat)
           (entries : list jsstr) (cpus : nat) (schedule : list nat) (w : World)
  : option Settled :=
  runQueue (Rev0.call_processSinglePDF env clean_text path_parse_name fuel) (pdfFiles entries)
           (CONCURRENCY cpus) schedule w.
End Rev0Main.

(** [src/unnamed/part_001]: every entry that is not the empty string. *)
Module Part001Main.
Definition pdfFiles (entries : list jsstr) : list jsstr := filter truthy entries.
End Part001Main.

(** * The vocabulary of the properties *)

(** ** Notions *)

(** The standard median, in the words of the specification: the middle
    element of the sorted copy for an odd count, the average of the two
    central elements for an even count. *)
Definition spec_median (sorted : list nat) : number :=
  let n := length sorted in
  if Nat.odd n
  then of_nat (nth (n / 2) sorted 0%nat)
  else Num ((inject_Z (Z.of_nat (nth (n / 2 - 1) sorted 0%nat))
             + inject_Z (Z.of_nat (nth (n / 2) sorted 0%nat))) / 2).

(** [s'] is what is left of [s] after some code units. *)
Definition suffix_of (s' s : jsstr) : Prop := exists pre, s = pre ++ s'.

(** A matcher that only ever hands a suffix of its input to the rest of
    the pattern. *)
Definition hands_suffix (R : Type)
           (m : option char -> jsstr -> (option char -> jsstr -> option R) -> option R)
  : Prop :=
  forall prev s k x,
    m prev s k = Some x -> exists p' s', suffix_of s' s /\ k p' s' = Some x.

(** [l] is a run of consecutive lines of [whole]. *)
Definition segment (l whole : list jsstr) : Prop :=
  exists pre post, whole = pre ++ l ++ post.

(** Lines that [isListItem] accepts. *)
Definition list_items (ls : list jsstr) : Prop :=
  Forall (fun l => Index.isListItem l = true) ls.

(** A closed block, after the lines [done]: if it is a list block, it is a
    run of list items of the input, as they were. *)
Definition list_block_ok (done : list jsstr) (b : Index.Block.t) : Prop :=
  Index.Block.type b = Index.Block.list ->
  list_items (Index.Block.lines b) /\ segment (Index.Block.lines b) done.

(** The invariant of the loop after the lines [done]: the open block is a
    paragraph or a list; an open list is not empty and holds the last lines
    read. *)
Definition loop_inv (done : list jsstr) (st : Index.loop_state) : Prop :=
  Forall (list_block_ok done) (fst st)
  /\ Index.Block.type (snd st) <> Index.Block.header
  /\ (Index.Block.type (snd st) = Index.Block.list ->
      Index.Block.lines (snd st) <> []
      /\ list_items (Index.Block.lines (snd st))
      /\ exists pre, done = pre ++ Index.Block.lines (snd st)).

(** The state of the loop when it reaches position [i]. *)
Definition state_before (toUpperCase : jsstr -> jsstr)
           (analyzer : Index.TextStructureAnalyzer) (i : nat) : Index.loop_state :=
  Index.loop toUpperCase analyzer (firstn i (Index.lines analyzer)) 0%Z
    ([], Index.Block.empty Index.Block.paragraph).

(** The pages whose raw text has at least [MIN_CHARS_PER_PAGE] code units. *)
Definition meeting (pages : list Page.t) : list Page.t :=
  filter (fun p => (50 <=? length (Page.text p))%nat) pages.

(** [n] polls of [url]. *)
Fixpoint gets (url : jsstr) (n : nat) : list request :=
  match n with
  | O => []
  | S n' => GET url :: gets url n'
  end.

(** [w] followed by what a run from the empty world added. *)
Definition extend (w we : World) : World :=
  {| files := files w ++ files we; requests := requests w ++ requests we |}.

(** A computation that never reads the world: from any world it does what
    it does from the empty one, and appends. *)
Definition framed {A : Type} (m : M A) : Prop :=
  forall w, m w = match m empty_world with
                  | None => None
                  | Some (r, we) => Some (r, extend w we)
                  end.

(** A computation that writes no file. *)
Definition writes_nothing {A : Type} (m : M A) : Prop :=
  forall w r w', m w = Some (r, w') -> files w' = files w.

(** The artifact of a document: the transcript its [try] body wrote, when
    the body returns; the error record with the stack of the exception, when
    the body throws (and then the body wrote nothing). *)
Definition artifact_of (toUpperCase : jsstr -> jsstr) (env : Env) (fuel : nat)
           (file : jsstr) (entry : jsstr * jsstr) : Prop :=
  match Index.process_body toUpperCase env fuel file empty_world with
  | Some (Ok _, we) => files we = [entry] /\ fst entry = Index.transcript_path file
  | Some (Throw e, we) => files we = [] /\ entry = (Index.error_path file, stack e)
  | None => False
  end.

(** The two conditions on a document under which [processSinglePDF] returns:
    its processing comes to an end, and its error record, if one is due, can
    be written. *)
Definition settles (toUpperCase : jsstr -> jsstr) (env : Env) (fuel : nat)
           (file : jsstr) : Prop :=
  Index.process_body toUpperCase env fuel file empty_world <> None
  /\ (forall e we,
         Index.process_body toUpperCase env fuel file empty_world = Some (Throw e, we) ->
         write_error env (Index.error_path file) = None).

(** ** Documents *)

(** A note with a list of two items between two sentences. *)
Definition shopping_note : jsstr :=
  js "Shopping for the week ahead of us." ++ LF
  ++ js "- apples are red." ++ LF
  ++ js "- pears are green." ++ LF
  ++ js "then we went home again.".

(** A sentence followed by a heading without letters. *)
Definition sentence_then_heading : jsstr := js "Go on." ++ LF ++ js "12:".

(** A sentence of more than 80 code units followed by a long heading without
    letters, and what that heading is rendered as. *)
Definition long_sentence : jsstr :=
  js "It took the committee the better part of a year to agree on the wording of this one sentence.".

Definition long_sentence_then_heading : jsstr :=
  long_sentence ++ LF ++ js "2020 2021 2022 2023 2024 2025 2026 2027 2028 2029 2030:".

Definition rendered_heading : jsstr :=
  js "## 2020 2021 2022 2023 2024 2025 2026 2027 2028 2029 2030: ##".

(** A sentence of 11 words in capitals, alone and above a longer line; the
    same with a twelfth word. *)
Definition eleven_words : jsstr := js "WE HOLD THAT ALL OF THE ABOVE IS TRUE AND FAIR.".

Definition eleven_words_document : jsstr :=
  eleven_words ++ LF
  ++ js "this second line of the document is a good deal longer than the first line of it was, is it not.".




(** The text of a page, of 64 code units. *)
Definition page_with_text : jsstr :=
  js "The quick brown fox jumps over the lazy dog near the river bank.".

(** What the local parser finds in a document of ten pages, five of them
    with text, and the pages [extractPdfParse] makes of it. *)
Definition ten_pages : list (option jsstr) :=
  [ Some page_with_text; Some (js "(blank)"); Some page_with_text; None;
    Some page_with_text; Some []; Some page_with_text; Some (js "7");
    Some page_with_text; Some (js "- 10 -") ].

Definition half_text_pages : list Page.t :=
  mapi (fun i p => {| Page.page := i + 1;
                      Page.text := match p with
                                   | Some t => t
                                   | None => []
                                   end |}) 0 ten_pages.

(** The pages 3 and 4 of a scanned document, as the OCR service reports
    them. *)
Definition pages_3_and_4 : list Azure.page :=
  [ {| Azure.pageNumber := 3; Azure.lines := [page_with_text] |};
    {| Azure.pageNumber := 4; Azure.lines := [page_with_text] |} ].

(** A page that starts with a running footer. *)
Definition footer_page : Page.t :=
  {| Page.page := 1;
     Page.text := js "Page 3 of 9 the committee met on mondays and agreed a budget." |}.

(** ** Collaborators *)

(** [path.parse(file).name] for a plain file name: the name without its last
    extension, if it has one that does not start the name. *)
Definition name_of (file : jsstr) : jsstr :=
  match drop_while (fun c => negb (c =? 46)) (rev file) with
  | [] => file
  | [_] => file
  | _ :: before => rev before
  end.

(** The error of a write that is not permitted. *)
Definition EACCES : error :=
  {| message := js "EACCES: permission denied";
     stack := js "Error: EACCES: permission denied" |}.

(** Collaborators that answer the same to every call: every file can be
    read, the parser finds [parsed] in it, the service accepts every document
    and answers every poll with [poll], and writing to [path] fails with
    [unwritable path], if any. *)
Definition steady_env (parsed : Parsed.t) (poll : Azure.poll)
           (unwritable : jsstr -> option error) : Env :=
  {| ocrOverride := false;
     AZURE_ENDPOINT := js "https://ocr.example";
     toISOString_now := fun _ => js "2024-05-01T10:00:00.000Z";
     readFileSync := fun _ => Ok (js "%PDF-1.7");
     getText := fun _ => Ok parsed;
     post := fun _ _ => Ok (js "https://ocr.example/operations/1");
     get := fun _ _ => Ok poll;
     write_error := unwritable;
     stack_of := fun msg => js "Error: " ++ msg |}.

(** Documents of ten pages, five of them with text; a service that would
    answer at once; a disk that takes every write. *)
Definition half_text_env : Env :=
  steady_env {| Parsed.pages := Some ten_pages; Parsed.text := [] |}
             {| Azure.status := js "succeeded"; Azure.analyzeResult := Some [] |}
             (fun _ => None).

(** The same, but the two files of document [a] cannot be written (say they
    exist and are read-only). *)
Definition locked_env : Env :=
  steady_env {| Parsed.pages := Some ten_pages; Parsed.text := [] |}
             {| Azure.status := js "succeeded"; Azure.analyzeResult := Some [] |}
             (fun path => if str_eqb path (js "./output/a.txt")
                             || str_eqb path (js "./output/a.error.txt")
                          then Some EACCES else None).

(** Scanned documents, without text for the local parser, and a service
    that answers every poll with the status [failed]. *)
Definition failed_ocr_env : Env :=
  steady_env {| Parsed.pages := Some [None]; Parsed.text := [] |}
             {| Azure.status := js "failed"; Azure.analyzeResult := None |}
             (fun _ => None).

(** Scanned documents of which the service returns the pages 3 and 4. *)
Definition ocr_env : Env :=
  steady_env {| Parsed.pages := Some [None]; Parsed.text := [] |}
             {| Azure.status := js "succeeded"; Azure.analyzeResult := Some pages_3_and_4 |}
             (fun _ => None).

(** ** Notions for the rest of the programs *)

(** A text of several lines with blank lines, a carriage return and spaces
    at the ends of its lines. *)
Definition ragged_text : jsstr :=
  js "  First line  " ++ [13; 10] ++ [9] ++ LF ++ LF ++ js "second" ++ [13]
  ++ js "half " ++ LF ++ js "   ".

(** The block [b] holds the run [run] of consecutive lines: a header block
    its one line, with the level of that line; a list block its lines as
    they were; a paragraph block lines that read as the run when both are
    joined by single spaces. *)
Definition holds_run (b : Index.Block.t) (run : list jsstr) : Prop :=
  run <> [] /\ Index.Block.lines b <> [] /\
  match Index.Block.type b with
  | Index.Block.header =>
      exists line, run = [line] /\ Index.Block.lines b = [line]
                   /\ Index.Block.level b = Some (Index.header_level line)
  | Index.Block.list => Index.Block.lines b = run /\ Index.Block.level b = None
  | Index.Block.paragraph =>
      join SP (Index.Block.lines b) = join SP run /\ Index.Block.level b = None
  end.

(** The open block of the loop and the run of lines it has taken so far. *)
Definition open_run (cur : Index.Block.t) (run : list jsstr) : Prop :=
  Index.Block.type cur <> Index.Block.header
  /\ Index.Block.level cur = None
  /\ (Index.Block.lines cur = [] <-> run = [])
  /\ (Index.Block.type cur = Index.Block.list -> Index.Block.lines cur = run)
  /\ join SP (Index.Block.lines cur) = join SP run.

(** No two blocks in a row are both paragraphs, or both lists. *)
Fixpoint alternate (blocks : list Index.Block.t) : Prop :=
  match blocks with
  | b1 :: ((b2 :: _) as rest) =>
      (Index.Block.type b1 = Index.Block.type b2 -> Index.Block.type b1 = Index.Block.header)
      /\ alternate rest
  | _ => True
  end.

(** The type of the block closed last. *)
Definition last_type (blocks : list Index.Block.t) : option Index.Block.kind :=
  match rev blocks with
  | [] => None
  | b :: _ => Some (Index.Block.type b)
  end.

(** The invariant of the loop of [cleanNaturalText] after the lines [done]:
    the closed blocks and the open one hold consecutive runs that make up
    [done], and they alternate. *)
Definition shape_inv (done : list jsstr) (st : Index.loop_state) : Prop :=
  exists runs run,
    done = concat runs ++ run
    /\ Forall2 holds_run (fst st) runs
    /\ open_run (snd st) run
    /\ alternate (fst st)
    /\ last_type (fst st) <> Some (Index.Block.type (snd st))
    /\ (Index.Block.lines (snd st) = [] ->
        Index.Block.type (snd st) = Index.Block.paragraph
        /\ last_type (fst st) <> Some Index.Block.list).

(** The number of line feeds at the start of a text. *)
Fixpoint leading_lf (s : jsstr) : nat :=
  match s with
  | c :: s' => if c =? 10 then S (leading_lf s') else 0%nat
  | [] => 0%nat
  end.

(** No three line feeds in a row. *)
Fixpoint no_lf3 (s : jsstr) : bool :=
  match s with
  | [] => true
  | _ :: s' => (leading_lf s <? 3)%nat && no_lf3 s'
  end.

(** The line feed. *)
Definition is_lf (c : char) : bool := c =? 10.

(** The page object that [extractAzure] makes of a page of the service. *)
Definition page_of_azure (page : Azure.page) : Page.t :=
  {| Page.page := Azure.pageNumber page; Page.text := join LF (Azure.lines page) |}.

(** The service answers the poll number [k] of [url] with [poll], of status
    [succeeded], and the polls before it with another status. *)
Definition succeeds_at (env : Env) (url : jsstr) (k : nat) (poll : Azure.poll) : Prop :=
  (forall j, (j < k)%nat ->
     exists p, get env url j = Ok p /\ str_eqb (Azure.status p) (js "succeeded") = false)
  /\ get env url k = Ok poll
  /\ str_eqb (Azure.status poll) (js "succeeded") = true.

(** A service that is still at work at the first two polls of an operation
    and returns the pages 3 and 4 at the third. *)
Definition slow_ocr_env : Env :=
  {| ocrOverride := false;
     AZURE_ENDPOINT := js "https://ocr.example";
     toISOString_now := fun _ => js "2024-05-01T10:00:00.000Z";
     readFileSync := fun _ => Ok (js "%PDF-1.7");
     getText := fun _ => Ok {| Parsed.pages := Some [None]; Parsed.text := [] |};
     post := fun _ _ => Ok (js "https://ocr.example/operations/1");
     get := fun _ n =>
              if (n <? 2)%nat
              then Ok {| Azure.status := js "running"; Azure.analyzeResult := None |}
              else Ok {| Azure.status := js "succeeded";
                         Azure.analyzeResult := Some pages_3_and_4 |};
     write_error := fun _ => None;
     stack_of := fun msg => js "Error: " ++ msg |}.

(** The text starts with a space or a tab. *)
Definition starts_blank (s : jsstr) : bool :=
  match s with
  | c :: _ => Rev0Text.is_blank c
  | [] => false
  end.

(** No two code units in a row are spaces or tabs. *)
Fixpoint spaced (s : jsstr) : bool :=
  match s with
  | c :: s' => negb (Rev0Text.is_blank c && starts_blank s') && spaced s'
  | [] => true
  end.

(** A line that [processContent] of [part_000] takes for plain text: not a
    header line (the position is not looked at), not a list item. *)
Definition plain_line (toUpperCase : jsstr -> jsstr) (analyzer : Rev0.TextStructureAnalyzer)
           (line : jsstr) : Prop :=
  Rev0.isHeaderLine toUpperCase analyzer line 0 = false
  /\ Rev0Text.isListItem line = false.

(** The block [b] of [processContent] is made of the run [run] of lines: a
    header line between its marks, in capitals; a list item as it was; or a
    run of plain lines, joined by spaces, cut into sentences by the
    tokenizer, and joined by spaces again. *)
Definition content_block_of (toUpperCase : jsstr -> jsstr)
           (getSentences : jsstr -> list jsstr) (analyzer : Rev0.TextStructureAnalyzer)
           (b : jsstr) (run : list jsstr) : Prop :=
  (exists line, run = [line]
                /\ Rev0.isHeaderLine toUpperCase analyzer line 0 = true
                /\ b = LF ++ js "### " ++ toUpperCase line ++ js " ###" ++ LF)
  \/ (exists line, run = [line]
                   /\ Rev0.isHeaderLine toUpperCase analyzer line 0 = false
                   /\ Rev0Text.isListItem line = true
                   /\ b = line)
  \/ (run <> []
      /\ Forall (plain_line toUpperCase analyzer) run
      /\ b = join SP (getSentences (join SP run))).

(** The invariant of the loop of [processContent] after the lines [done]. *)
Definition content_inv (toUpperCase : jsstr -> jsstr)
           (getSentences : jsstr -> list jsstr) (analyzer : Rev0.TextStructureAnalyzer)
           (done : list jsstr) (st : Rev0Text.content_state) : Prop :=
  exists runs,
    done = concat runs ++ snd st
    /\ Forall2 (content_block_of toUpperCase getSentences analyzer) (fst st) runs
    /\ Forall (plain_line toUpperCase analyzer) (snd st).

(** The markers of a list item in [index.js]: a number and a full stop or a
    closing parenthesis, one of five signs, or a letter and a full stop. *)
Definition index_list_marker (m : jsstr) : Prop :=
  (exists digits, digits <> []
                  /\ Forall (fun x => is_digit x = true) digits
                  /\ (m = digits ++ [46] \/ m = digits ++ [41]))
  \/ (exists g, m = [g] /\ In g [45; 42; 8226; 9675; 167])
  \/ (exists x, (is_lower_az x = true \/ is_upper_AZ x = true) /\ m = [x; 46]).

(** The artifact of a document in [part_000]: the manifest its [try] body
    wrote, when the body returns; the error log with the stack of the
    exception, when the body throws (and then the body wrote nothing). *)
Definition Rev0_artifact_of (env : Env) (clean_text path_parse_name : jsstr -> jsstr)
           (fuel : nat) (file : jsstr) (entry : jsstr * jsstr) : Prop :=
  match Rev0.process_body env clean_text path_parse_name fuel file empty_world with
  | Some (Ok _, we) =>
      files we = [entry]
      /\ fst entry = Rev0.path_join_output (path_parse_name file ++ js ".txt")
  | Some (Throw e, we) =>
      files we = []
      /\ entry = (Rev0.path_join_output (path_parse_name file ++ js ".error.log"), stack e)
  | None => False
  end.

(** The two conditions on a document under which [processSinglePDF] of
    [part_000] returns. *)
Definition Rev0_settles (env : Env) (clean_text path_parse_name : jsstr -> jsstr)
           (fuel : nat) (file : jsstr) : Prop :=
  Rev0.process_body env clean_text path_parse_name fuel file empty_world <> None
  /\ (forall e we,
         Rev0.process_body env clean_text path_parse_name fuel file empty_world
         = Some (Throw e, we) ->
         write_error env (Rev0.path_join_output (path_parse_name file ++ js ".error.log"))
         = None).

(** Two lines of running text. *)
Definition running_text : jsstr :=
  js "the quick brown fox jumps" ++ [13; 10] ++ js "  over the lazy dog." ++ LF ++ LF.

(** ** Notions for the queue *)

(** How a call ends: what it writes in its last stretch, and its result. *)
Fixpoint final (c : call) : option (list (jsstr * jsstr) * result unit) :=
  match c with
  | Sends _ next => final next
  | Returns written r => Some (written, r)
  | Pending => None
  end.

(** The number of turns a call takes to its end. *)
Fixpoint stretches (c : call) : nat :=
  match c with
  | Sends _ next => S (stretches next)
  | Returns _ _ => 1%nat
  | Pending => 1%nat
  end.

(** What the call of the worker function on [item] writes. *)
Definition written_by (worker : jsstr -> call) (item : jsstr) : list (jsstr * jsstr) :=
  match final (worker item) with
  | Some (written, _) => written
  | None => []
  end.

Definition returns_normally (worker : jsstr -> call) (item : jsstr) : Prop :=
  exists written, final (worker item) = Some (written, Ok tt).

Definition throws (worker : jsstr -> call) (item : jsstr) (e : error) : Prop :=
  exists written, final (worker item) = Some (written, Throw e).

(** A call resumed turn after turn, with no other call in between. *)
Fixpoint run_alone (c : call) (w : World) : option (result unit * World) :=
  match c with
  | Sends r next => run_alone next {| files := files w; requests := requests w ++ [r] |}
  | Returns written r => Some (r, {| files := files w ++ written; requests := requests w |})
  | Pending => None
  end.

(** What a settled promise of the event loop accounts for, from the moment
    when the items [taken] were in the hands of the workers, [queue] was
    waiting and the world was [w]: the items [newly] shifted since, those
    whose calls are [finished], in the order in which they ended, and those
    whose calls are [still] pending. *)
Definition accounts_for (worker : jsstr -> call) (taken queue : list jsstr) (w : World)
           (s : Settled) : Prop :=
  exists finished newly still,
    filter truthy queue = newly ++ filter truthy (queue_left s)
    /\ (exists gone, queue = gone ++ queue_left s)
    /\ Permutation (taken ++ newly) (finished ++ still)
    /\ length still = calls_pending s
    /\ files (world_then s) = files w ++ concat (map (written_by worker) finished)
    /\ match rejected s with
       | None =>
           still = [] /\ Forall (returns_normally worker) finished
           /\ (taken = [] \/ queue_left s = [])
       | Some e =>
           exists before item,
             finished = before ++ [item]
             /\ Forall (returns_normally worker) before
             /\ throws worker item e
       end.

(** The error of reading a file that is not there. *)
Definition ENOENT : error :=
  {| message := js "ENOENT: no such file or directory";
     stack := js "Error: ENOENT: no such file or directory" |}.

(** Documents of ten pages, five of them with text, except [a.pdf], which
    cannot be read; a disk that takes every write. *)
Definition unreadable_env : Env :=
  {| ocrOverride := false;
     AZURE_ENDPOINT := js "https://ocr.example";
     toISOString_now := fun _ => js "2024-05-01T10:00:00.000Z";
     readFileSync := fun path => if str_eqb path (js "input_pdfs/a.pdf")
                                 then Throw ENOENT else Ok (js "%PDF-1.7");
     getText := fun _ => Ok {| Parsed.pages := Some ten_pages; Parsed.text := [] |};
     post := fun _ _ => Ok (js "https://ocr.example/operations/1");
     get := fun _ _ => Ok {| Azure.status := js "succeeded";
                             Azure.analyzeResult := Some [] |};
     write_error := fun _ => None;
     stack_of := fun msg => js "Error: " ++ msg |}.

(** What a settled promise of [runQueue] accounts for: the items [taken]
    off the queue that are not falsy, a first part of those that the queue
    held; of these, the items whose calls are [finished], in the order in
    which they ended, with what they wrote, and the items whose calls are
    [still] pending.  A promise that is fulfilled leaves no call pending
    and, if there is a worker, no item in the queue, and all the calls
    returned; a promise that is rejected has the exception of the call that
    ended last, and the calls before it returned. *)
Definition run_accounts (worker : jsstr -> call) (items : list jsstr) (limit : nat)
           (w : World) (s : Settled) : Prop :=
  exists taken finished still,
    filter truthy items = taken ++ filter truthy (queue_left s)
    /\ (exists gone, items = gone ++ queue_left s)
    /\ Permutation taken (finished ++ still)
    /\ length still = calls_pending s
    /\ files (world_then s) = files w ++ concat (map (written_by worker) finished)
    /\ match rejected s with
       | None =>
           still = [] /\ Forall (returns_normally worker) finished
           /\ ((1 <= limit)%nat -> queue_left s = [])
       | Some e =>
           exists before item,
             finished = before ++ [item]
             /\ Forall (returns_normally worker) before
             /\ throws worker item e
       end.

(** * Properties *)

(** ** The median of the line lengths *)

Lemma sort_strongly_sorted (l : list nat) : StronglySorted le (NatSort.sort l).
Proof.
  assert (T : RelationClasses.Transitive (fun x y => is_true (NatOrder.leb x y))).
  { intros x y z Hxy Hyz.
    apply Nat.leb_le. apply Nat.leb_le in Hxy. apply Nat.leb_le in Hyz. lia. }
  pose proof (NatSort.StronglySorted_sort l T) as H.
  induction H as [|a l' Hs IH Hall]; constructor; auto.
  eapply Forall_impl; [|exact Hall].
  intros b Hb. apply Nat.leb_le. exact Hb.
Qed.

(** A list has one sorted arrangement only. *)
Lemma sorted_perm_unique (l1 : list nat) :
  forall l2, StronglySorted le l1 -> StronglySorted le l2 -> Permutation l1 l2 -> l1 = l2.
Proof.
  induction l1 as [|a l1 IH]; intros l2 H1 H2 P.
  - apply Permutation_nil in P. now subst.
  - destruct l2 as [|b l2].
    + apply Permutation_sym, Permutation_nil in P. discriminate.
    + inversion H1 as [|? ? S1 F1]; subst. inversion H2 as [|? ? S2 F2]; subst.
      assert (a = b) as ->.
      { assert (Ha : In a (b :: l2)) by (eapply Permutation_in; [exact P | now left]).
        assert (Hb : In b (a :: l1))
          by (eapply Permutation_in; [apply Permutation_sym; exact P | now left]).
        rewrite Forall_forall in F1, F2.
        destruct Ha as [Ha | Ha]; [now subst|].
        destruct Hb as [Hb | Hb]; [now subst|].
        specialize (F1 _ Hb). specialize (F2 _ Ha). lia. }
      f_equal. apply IH; auto. eapply Permutation_cons_inv; exact P.
Qed.

Lemma sort_unique (arr s : list nat) :
  Permutation s arr -> Sorted le s -> NatSort.sort arr = s.
Proof.
  intros P S. apply sorted_perm_unique.
  - apply sort_strongly_sorted.
  - apply Sorted_StronglySorted; [|exact S]. intros x y z; lia.
  - eapply Permutation_trans; [apply Permutation_sym, NatSort.Permuted_sort|].
    apply Permutation_sym; exact P.
Qed.

Lemma num_at_nth (l : list nat) (i : nat) :
  (i < length l)%nat -> num_at l (Z.of_nat i) = of_nat (nth i l 0%nat).
Proof.
  intros Hi. unfold num_at.
  destruct (Z.ltb_spec (Z.of_nat i) 0); [lia|].
  rewrite Nat2Z.id.
  rewrite (nth_error_nth' l 0%nat Hi). reflexivity.
Qed.

Lemma half_lt (n : nat) : (0 < n)%nat -> (n / 2 < n)%nat.
Proof. intros H. apply Nat.div_lt; lia. Qed.

Lemma even_half_pos (n : nat) : (0 < n)%nat -> Nat.odd n = false -> (1 <= n / 2)%nat.
Proof.
  intros Hn Ho.
  destruct n as [|[|n]]; [lia | discriminate |].
  replace (S (S n)) with (n + 1 * 2)%nat by lia. rewrite Nat.div_add by lia. lia.
Qed.

(** The median of the source on its sorted copy. *)
Lemma median_of_sorted (arr s : list nat) :
  arr <> [] -> Permutation s arr -> Sorted le s -> Index.median arr = spec_median s.
Proof.
  intros Hne P S.
  unfold Index.median, spec_median.
  rewrite (sort_unique P S).
  assert (Hlen : (0 < length s)%nat).
  { destruct s; [apply Permutation_nil in P; congruence | simpl; lia]. }
  destruct (Nat.odd (length s)) eqn:Ho.
  - apply num_at_nth. now apply half_lt.
  - pose proof (even_half_pos Hlen Ho) as Hh.
    pose proof (half_lt Hlen) as Hlt.
    replace (Z.of_nat (length s / 2) - 1)%Z with (Z.of_nat (length s / 2 - 1)) by lia.
    rewrite !num_at_nth by lia.
    reflexivity.
Qed.

Lemma Rev0_median_is_median (lines : list jsstr) :
  lines <> [] ->
  Rev0.medianLength (Rev0.analyzeDocument lines) = Index.median (map (@length char) lines).
Proof.
  intros Hne. unfold Rev0.analyzeDocument.
  destruct lines as [|l ls]; [congruence|]. reflexivity.
Qed.

(** C7: for every non-empty set of lines, the [medianLength] that
    [analyzeDocument] computes (in [index.js] through [median], in
    [part_000] inline) is the standard median of the line lengths: whatever
    sorted arrangement [s] of the lengths one takes, it is the middle element
    of [s] for an odd count and the average of the two central elements of
    [s] for an even count. *)
Theorem C7_median_is_standard (lines : list jsstr) (s : list nat) :
  lines <> [] ->
  Permutation s (map (@length char) lines) ->
  Sorted le s ->
  Index.medianLength (Index.analyzeDocument lines) = spec_median s
  /\ Rev0.medianLength (Rev0.analyzeDocument lines) = spec_median s.
Proof.
  intros Hne P S.
  assert (Hm : map (@length char) lines <> []) by (destruct lines; simpl; congruence).
  split.
  - simpl. apply median_of_sorted; assumption.
  - rewrite Rev0_median_is_median by assumption. apply median_of_sorted; assumption.
Qed.

Lemma C7_median_witness :
  Index.medianLength (Index.analyzeDocument [js "abcd"; js "a"; js "abcdefg"; js "ab"])
    = Num ((2 + 4) / 2)
  /\ Rev0.medianLength (Rev0.analyzeDocument [js "abcd"; js "a"; js "abcdefg"; js "ab"])
    = Num ((2 + 4) / 2).
Proof.
  apply (@C7_median_is_standard [js "abcd"; js "a"; js "abcdefg"; js "ab"]
                               [1; 2; 4; 7]%nat).
  - discriminate.
  - simpl. apply Permutation_sym.
    apply perm_trans with (l' := [1; 4; 7; 2]%nat); [apply perm_swap|].
    apply perm_skip.
    apply perm_trans with (l' := [4; 2; 7]%nat); [apply perm_skip, perm_swap|].
    apply perm_swap.
  - repeat constructor.
Defined.

(** ** The matcher *)

Lemma suffix_of_refl (s : jsstr) : suffix_of s s.
Proof. now exists []. Qed.

Lemma suffix_of_tail (c : char) (s' s : jsstr) : suffix_of s' s -> suffix_of s' (c :: s).
Proof. intros [pre ->]. now exists (c :: pre). Qed.

Lemma suffix_of_trans (a b c : jsstr) : suffix_of a b -> suffix_of b c -> suffix_of a c.
Proof. intros [p ->] [q ->]. exists (q ++ p). now rewrite app_assoc. Qed.

Lemma suffix_of_Forall (P : char -> Prop) (s' s : jsstr) :
  suffix_of s' s -> Forall P s -> Forall P s'.
Proof. intros [pre ->] H. apply Forall_app in H. tauto. Qed.

Lemma suffix_of_length (s' s : jsstr) : suffix_of s' s -> (length s' <= length s)%nat.
Proof. intros [pre ->]. rewrite length_app. lia. Qed.

Section MatcherFacts.
Variable R : Type.
Variable fl : flags.

Lemma star_loop_suffix
      (ma : option char -> jsstr -> (option char -> jsstr -> option R) -> option R) :
  hands_suffix ma -> forall n, hands_suffix (fun prev s k => star_loop ma k n prev s).
Proof.
  intros Hma n.
  induction n as [|n IH]; intros prev s k x H; simpl in H.
  - exists prev, s. split; [apply suffix_of_refl | exact H].
  - destruct (ma prev s _) as [y|] eqn:E.
    + inversion H; subst y. apply Hma in E.
      destruct E as (p' & s' & Hsuf & Hk).
      destruct (length s' <? length s)%nat; [|discriminate].
      apply IH in Hk. destruct Hk as (p'' & s'' & Hsuf' & Hk).
      exists p'', s''. split; [eapply suffix_of_trans; eauto | exact Hk].
    + exists prev, s. split; [apply suffix_of_refl | exact H].
Qed.

Lemma rmatch_suffix (r : regex) : hands_suffix (rmatch (R := R) fl r).
Proof.
  induction r as [|c|p|a IHa b IHb|a IHa b IHb|a IHa| |]; intros prev s k x H; simpl in H.
  - exists prev, s. split; [apply suffix_of_refl | exact H].
  - destruct s as [|y s']; [discriminate|].
    destruct (char_eqb _ _); [|discriminate].
    exists (Some y), s'. split; [apply suffix_of_tail, suffix_of_refl | exact H].
  - destruct s as [|y s']; [discriminate|].
    destruct (p y); [|discriminate].
    exists (Some y), s'. split; [apply suffix_of_tail, suffix_of_refl | exact H].
  - apply IHa in H. destruct H as (p1 & s1 & Hs1 & H).
    apply IHb in H. destruct H as (p2 & s2 & Hs2 & H).
    exists p2, s2. split; [eapply suffix_of_trans; eauto | exact H].
  - destruct (rmatch fl a prev s k) as [y|] eqn:E.
    + inversion H; subst y. now apply IHa in E.
    + now apply IHb in H.
  - exact (star_loop_suffix IHa (S (length s)) prev s k H).
  - destruct (at_bol fl prev); [|discriminate].
    exists prev, s. split; [apply suffix_of_refl | exact H].
  - destruct (at_eol fl s); [|discriminate].
    exists prev, s. split; [apply suffix_of_refl | exact H].
Qed.
End MatcherFacts.

Lemma rexec_at_suffix fl r prev s p' rest :
  rexec_at fl r prev s = Some (p', rest) -> suffix_of rest s.
Proof.
  intros H. apply rmatch_suffix in H.
  destruct H as (p & s' & Hsuf & Hk). inversion Hk; subst. exact Hsuf.
Qed.

(** Every piece of a split is made of code units of the input. *)
Lemma split_loop_Forall (P : char -> Prop) fl r fuel :
  forall prev s acc,
    Forall P s -> Forall P acc -> Forall (Forall P) (split_loop fl r fuel prev s acc).
Proof.
  induction fuel as [|f IH]; intros prev s acc Hs Hacc; simpl.
  - constructor; [|constructor]. apply Forall_app. split; [|exact Hs].
    now apply Forall_rev.
  - destruct s as [|c s'].
    + constructor; [|constructor]. now apply Forall_rev.
    + assert (Hadv : Forall (Forall P) (split_loop fl r f (Some c) s' (c :: acc))).
      { inversion Hs; subst. apply IH; [assumption | now constructor]. }
      destruct (rexec_at fl r prev (c :: s')) as [[p' rest]|] eqn:E; [|exact Hadv].
      destruct ((length rest =? length (c :: s'))%nat && negb (truthy acc)); [exact Hadv|].
      constructor; [now apply Forall_rev|].
      apply IH; [|constructor].
      eapply suffix_of_Forall; [eapply rexec_at_suffix; exact E | exact Hs].
Qed.

Lemma split_Forall (P : char -> Prop) fl r s :
  Forall P s -> Forall (Forall P) (split fl r s).
Proof.
  intros H. unfold split. destruct s as [|c s'].
  - destruct (rexec_at fl r None []); repeat constructor.
  - apply split_loop_Forall; [exact H | constructor].
Qed.

Lemma drop_while_all (p : char -> bool) (s : jsstr) :
  Forall (fun c => p c = true) s -> drop_while p s = [].
Proof.
  induction 1 as [|c s Hc _ IH]; simpl; [reflexivity|]. now rewrite Hc.
Qed.

Lemma trim_all_space (s : jsstr) : Forall (fun c => is_space c = true) s -> trim s = [].
Proof. intros H. unfold trim. now rewrite (drop_while_all _ H). Qed.

(** A text of white space only has no line. *)
Lemma blank_text_has_no_line fl r (s : jsstr) :
  Forall (fun c => is_space c = true) s ->
  filter truthy (map trim (split fl r s)) = [].
Proof.
  intros H. pose proof (split_Forall fl r H) as Hp.
  induction Hp as [|piece rest Hpiece _ IH]; simpl; [reflexivity|].
  now rewrite (trim_all_space Hpiece).
Qed.

(** ** Blank input *)

Lemma analyzer_of_blank_text (s : jsstr) :
  Forall (fun c => is_space c = true) s ->
  Index.new_TextStructureAnalyzer s
  = {| Index.lines := []; Index.stats := Index.analyzeDocument [] |}.
Proof.
  intros H. unfold Index.new_TextStructureAnalyzer.
  now rewrite (blank_text_has_no_line no_flags Index.re_newline H).
Qed.

(** C10: when [rawText] is [null] or [undefined] ([None]), empty, or made of
    white space and line breaks only, [cleanNaturalText] returns the empty
    string.  Nothing is thrown on the way: the line set is empty, and the
    averages and the median that [analyzeDocument] computes over it, dividing
    by a line count of zero, are [NaN]. *)
Theorem C10_blank_text_gives_empty_string
        (toUpperCase : jsstr -> jsstr) (rawText : option jsstr) :
  (forall s, rawText = Some s -> Forall (fun c => is_space c = true) s) ->
  Index.cleanNaturalText toUpperCase rawText = []
  /\ (forall s, rawText = Some s ->
        let analyzer := Index.new_TextStructureAnalyzer s in
        Index.lines analyzer = []
        /\ Index.avgLength (Index.stats analyzer) = NaN
        /\ Index.medianLength (Index.stats analyzer) = NaN
        /\ Index.sentenceEndingRatio (Index.stats analyzer) = NaN
        /\ Index.colonEndingRatio (Index.stats analyzer) = NaN).
Proof.
  intros H. split.
  - destruct rawText as [s|]; [|reflexivity].
    specialize (H s eq_refl). unfold Index.cleanNaturalText.
    destruct (negb (truthy s)); [reflexivity|].
    rewrite (analyzer_of_blank_text H). reflexivity.
  - intros s ->. specialize (H s eq_refl).
    cbv zeta. rewrite (analyzer_of_blank_text H).
    repeat split; reflexivity.
Qed.

Lemma C10_blank_text_witness :
  Index.cleanNaturalText toUpperCase_ascii (Some ([32; 9] ++ LF ++ [13; 10; 32] ++ LF)) = [].
Proof.
  apply (@C10_blank_text_gives_empty_string toUpperCase_ascii
           (Some ([32; 9] ++ LF ++ [13; 10; 32] ++ LF))).
  intros s Hs. inversion Hs; subst. repeat constructor.
Defined.

(** ** List blocks *)

Section ListBlocks.
Variable toUpperCase : jsstr -> jsstr.
Variable analyzer : Index.TextStructureAnalyzer.

Lemma segment_grows (l done : list jsstr) (line : jsstr) :
  segment l done -> segment l (done ++ [line]).
Proof.
  intros (pre & post & ->). exists pre, (post ++ [line]).
  now rewrite <- !app_assoc.
Qed.

Lemma list_block_ok_grows (done : list jsstr) (line : jsstr) (b : Index.Block.t) :
  list_block_ok done b -> list_block_ok (done ++ [line]) b.
Proof.
  intros H Hty. destruct (H Hty) as [H1 H2]. split; [exact H1|].
  now apply segment_grows.
Qed.

Lemma closed_blocks_grow (done : list jsstr) (line : jsstr) (blocks : list Index.Block.t) :
  Forall (list_block_ok done) blocks -> Forall (list_block_ok (done ++ [line])) blocks.
Proof. intros H. eapply Forall_impl; [|exact H]. apply list_block_ok_grows. Qed.

(** Closing the open block keeps the closed blocks in order. *)
Lemma close_open_block (done : list jsstr) (line : jsstr) (st : Index.loop_state) :
  loop_inv done st ->
  Forall (list_block_ok (done ++ [line])) (fst st ++ [snd st]).
Proof.
  intros (Hb & _ & Hc). apply Forall_app. split; [now apply closed_blocks_grow|].
  constructor; [|constructor].
  intros Hty. destruct (Hc Hty) as (_ & Hitems & pre & ->).
  split; [exact Hitems|]. exists pre, [line]. now rewrite <- app_assoc.
Qed.

Lemma loop_body_inv (done : list jsstr) (st : Index.loop_state) (i : Z) (line : jsstr) :
  loop_inv done st -> loop_inv (done ++ [line]) (Index.loop_body toUpperCase analyzer st i line).
Proof.
  intros Hinv.
  pose proof (close_open_block line Hinv) as Hclose.
  destruct Hinv as (Hb & Hnh & Hc).
  pose proof (closed_blocks_grow line Hb) as Hb'.
  destruct st as [blocks [ty ls lv]]. simpl in *.
  unfold Index.loop_body.
  destruct (Index.isHeaderLine toUpperCase analyzer line i).
  { (* a header closes the open block *)
    split; [|split; [discriminate | discriminate]].
    simpl. apply Forall_app. split.
    - destruct ls; simpl; [exact Hb' | exact Hclose].
    - constructor; [|constructor]. intros Hty. discriminate. }
  destruct (Index.isListItem line) eqn:Hli.
  { (* a list item goes to the open list *)
    destruct ty; [congruence | |]; simpl.
    - destruct (Hc eq_refl) as (Hne & Hitems & pre & ->).
      split; [exact Hb'|]. split; [discriminate|]. intros _. simpl.
      split; [now destruct ls|].
      split; [apply Forall_app; split; [exact Hitems | now repeat constructor]|].
      exists pre. now rewrite <- app_assoc.
    - destruct ls as [|l0 ls0]; simpl.
      + split; [exact Hb'|]. split; [discriminate|]. intros _.
        split; [discriminate|]. split; [now repeat constructor|].
        exists done. reflexivity.
      + split; [exact Hclose|]. split; [discriminate|]. intros _.
        split; [discriminate|]. split; [now repeat constructor|].
        exists done. reflexivity. }
  (* a plain line *)
  destruct ty; [congruence | |]; simpl.
  - destruct (Hc eq_refl) as (Hne & _).
    destruct ls as [|l0 ls0]; [congruence|]. simpl.
    split; [exact Hclose|]. split; [discriminate|]. discriminate.
  - destruct ls as [|l0 ls0]; simpl.
    + split; [exact Hb'|]. split; discriminate.
    + destruct (Index.shouldMerge toUpperCase analyzer _ line); simpl;
        (split; [exact Hb'|]; split; discriminate).
Qed.

Lemma loop_inv_all (ls : list jsstr) :
  forall done st i, loop_inv done st -> loop_inv (done ++ ls) (Index.loop toUpperCase analyzer ls i st).
Proof.
  induction ls as [|line rest IH]; intros done st i Hinv; simpl.
  - now rewrite app_nil_r.
  - replace (done ++ line :: rest) with ((done ++ [line]) ++ rest)
      by now rewrite <- app_assoc.
    apply IH. now apply loop_body_inv.
Qed.

Lemma loop_inv_init : loop_inv [] ([], Index.Block.empty Index.Block.paragraph).
Proof. split; [constructor|]. split; discriminate. Qed.

Lemma state_before_inv (i : nat) :
  loop_inv (firstn i (Index.lines analyzer)) (state_before toUpperCase analyzer i).
Proof. apply (loop_inv_all _ (done := []) 0%Z loop_inv_init). Qed.

Lemma build_blocks_ok :
  Forall (list_block_ok (Index.lines analyzer)) (Index.build_blocks toUpperCase analyzer).
Proof.
  unfold Index.build_blocks.
  pose proof (loop_inv_all (Index.lines analyzer) (done := []) 0%Z loop_inv_init) as Hinv.
  simpl in Hinv.
  destruct (Index.loop toUpperCase analyzer (Index.lines analyzer) 0%Z _) as [blocks cur] eqn:E.
  destruct Hinv as (Hb & _ & Hc). simpl in *.
  destruct (0 <? length (Index.Block.lines cur))%nat; [|exact Hb].
  apply Forall_app. split; [exact Hb|]. constructor; [|constructor].
  intros Hty. destruct (Hc Hty) as (_ & Hitems & pre & Hpre).
  split; [exact Hitems|]. exists pre, []. now rewrite app_nil_r.
Qed.
End ListBlocks.

(** The loop over all the lines passes through [state_before i]. *)
Lemma loop_app toUpperCase analyzer (l1 l2 : list jsstr) :
  forall i st,
    Index.loop toUpperCase analyzer (l1 ++ l2) i st
    = Index.loop toUpperCase analyzer l2 (i + Z.of_nat (length l1))%Z
        (Index.loop toUpperCase analyzer l1 i st).
Proof.
  induction l1 as [|x l1 IH]; intros i st; simpl.
  - now rewrite Z.add_0_r.
  - rewrite IH. f_equal. lia.
Qed.

Lemma loop_resumes toUpperCase analyzer (i : nat) :
  Index.loop toUpperCase analyzer (Index.lines analyzer) 0%Z
    ([], Index.Block.empty Index.Block.paragraph)
  = Index.loop toUpperCase analyzer (skipn i (Index.lines analyzer))
      (Z.of_nat (length (firstn i (Index.lines analyzer))))
      (state_before toUpperCase analyzer i).
Proof.
  unfold state_before.
  rewrite <- (firstn_skipn i (Index.lines analyzer)) at 1.
  now rewrite loop_app.
Qed.

(** C8: a list block is never merged with paragraph text.  At every position
    of the loop of [cleanNaturalText] whose line is not a header: a line that
    is a list item becomes, as it is, the last line of the open list block
    (after the lines that block already has, or alone in a new block); a line
    that is not, read while a list block is open, closes that block unchanged
    and opens a paragraph block of its own.  At the end every list block is a
    run of consecutive list items of the input, as they were and in their
    order, and is rendered as its lines joined by newlines. *)
Theorem C8_list_blocks_stay_apart
        (toUpperCase : jsstr -> jsstr) (analyzer : Index.TextStructureAnalyzer) :
  (forall (i : nat) (line : jsstr),
      nth_error (Index.lines analyzer) i = Some line ->
      Index.isHeaderLine toUpperCase analyzer line (Z.of_nat i) = false ->
      let st := state_before toUpperCase analyzer i in
      let st' := Index.loop_body toUpperCase analyzer st (Z.of_nat i) line in
      (Index.isListItem line = true ->
       fst st' = (if Index.Block.kind_eqb (Index.Block.type (snd st)) Index.Block.list
                  then fst st
                  else if (0 <? length (Index.Block.lines (snd st)))%nat
                       then fst st ++ [snd st] else fst st)
       /\ Index.Block.type (snd st') = Index.Block.list
       /\ Index.Block.lines (snd st')
          = (if Index.Block.kind_eqb (Index.Block.type (snd st)) Index.Block.list
             then Index.Block.lines (snd st) else []) ++ [line])
      /\ (Index.isListItem line = false ->
          Index.Block.type (snd st) = Index.Block.list ->
          fst st' = fst st ++ [snd st]
          /\ snd st' = {| Index.Block.type := Index.Block.paragraph;
                          Index.Block.lines := [line];
                          Index.Block.level := None |}))
  /\ (forall b : Index.Block.t,
         In b (Index.build_blocks toUpperCase analyzer) ->
         Index.Block.type b = Index.Block.list ->
         list_items (Index.Block.lines b)
         /\ segment (Index.Block.lines b) (Index.lines analyzer)
         /\ Index.render toUpperCase b = join LF (Index.Block.lines b)).
Proof.
  split.
  - intros i line _ Hh st st'.
    pose proof (state_before_inv toUpperCase analyzer i) as (_ & Hnh & Hc).
    subst st'. fold st in Hnh, Hc.
    destruct st as [blocks [ty ls lv]]. simpl in *.
    unfold Index.loop_body. rewrite Hh.
    split.
    + intros Hli. rewrite Hli.
      destruct ty; [congruence | |]; simpl.
      * auto.
      * destruct ls; simpl; auto.
    + intros Hli Hty. rewrite Hli. subst ty. simpl.
      destruct (Hc eq_refl) as (Hne & _).
      destruct ls; [congruence|]. simpl. auto.
  - intros b Hin Hty.
    pose proof (build_blocks_ok toUpperCase analyzer) as Hall.
    rewrite Forall_forall in Hall. destruct (Hall b Hin Hty) as [H1 H2].
    split; [exact H1|]. split; [exact H2|].
    unfold Index.render. now rewrite Hty.
Qed.

Lemma C8_list_blocks_witness :
  let analyzer := Index.new_TextStructureAnalyzer shopping_note in
  let items := {| Index.Block.type := Index.Block.list;
                  Index.Block.lines := [js "- apples are red."; js "- pears are green."];
                  Index.Block.level := None |} in
  (Index.loop_body toUpperCase_ascii analyzer
     (state_before toUpperCase_ascii analyzer 3) 3%Z (js "then we went home again.")
   = ([ {| Index.Block.type := Index.Block.paragraph;
           Index.Block.lines := [js "Shopping for the week ahead of us."];
           Index.Block.level := None |}; items ],
      {| Index.Block.type := Index.Block.paragraph;
         Index.Block.lines := [js "then we went home again."];
         Index.Block.level := None |}))
  /\ Index.render toUpperCase_ascii items
     = js "- apples are red." ++ LF ++ js "- pears are green.".
Proof.
  intros analyzer items.
  destruct (C8_list_blocks_stay_apart toUpperCase_ascii analyzer) as [Hstep Hend].
  split.
  - destruct (Hstep 3%nat (js "then we went home again.")) as [_ Hplain];
      [vm_compute; reflexivity | vm_compute; reflexivity |].
    destruct Hplain as [Hclosed Hopen]; [vm_compute; reflexivity | vm_compute; reflexivity |].
    apply injective_projections; [exact Hclosed | exact Hopen].
  - destruct (Hend items) as (_ & _ & Hrender);
      [vm_compute; right; left; reflexivity | reflexivity |].
    exact Hrender.
Defined.

(** ** Anchored patterns *)

(** Without the [m] flag, [^] matches at the start of the input only. *)
Lemma test_from_bol_later (r : regex) (c : char) (s : jsstr) :
  test_from no_flags (Seq Bol r) (Some c) s = false.
Proof.
  revert c. induction s as [|x s IH]; intros c; simpl; [reflexivity|]. apply IH.
Qed.

(** [/^[class]/.test(s)] looks at the first code unit. *)
Lemma test_bol_cls (p : char -> bool) (s : jsstr) :
  test no_flags (Seq Bol (Cls p)) s = match s with
                                      | [] => false
                                      | x :: _ => p x
                                      end.
Proof.
  destruct s as [|x s]; [reflexivity|].
  unfold test. simpl. unfold rexec_at. simpl.
  destruct (p x); [reflexivity|]. apply test_from_bol_later.
Qed.

(** [/[class]$/.test(s)] looks at the last code unit. *)
Lemma test_cls_eol (p : char -> bool) (s : jsstr) :
  forall prev, test_from no_flags (Seq (Cls p) Eol) prev s
               = match s with
                 | [] => false
                 | _ => p (last s 0)
                 end.
Proof.
  induction s as [|x s IH]; intros prev; [reflexivity|].
  simpl. unfold rexec_at. simpl.
  destruct s as [|y s'].
  - simpl. destruct (p x); reflexivity.
  - rewrite IH. simpl. destruct (p x); reflexivity.
Qed.

Lemma endsWithPunctuation_last (s : jsstr) :
  Index.endsWithPunctuation s
  = match s with
    | [] => false
    | _ => existsb (char_eqb (last s 0)) (js ".!?;")
    end.
Proof. unfold Index.endsWithPunctuation, Index.re_punct_end, one_of, test. apply test_cls_eol. Qed.

Lemma last_of_app (pre a : jsstr) (d : char) : a <> [] -> last (pre ++ a) d = last a d.
Proof.
  intros Ha. rewrite (app_removelast_last d Ha) at 1.
  rewrite app_assoc. apply last_last.
Qed.

(** Text put in front of a line does not change how the line ends. *)
Lemma endsWithPunctuation_app (pre a : jsstr) :
  a <> [] -> Index.endsWithPunctuation (pre ++ a) = Index.endsWithPunctuation a.
Proof.
  intros Ha. rewrite !endsWithPunctuation_last.
  rewrite (last_of_app pre 0 Ha).
  destruct a; [congruence|]. destruct pre; reflexivity.
Qed.

Lemma lower_is_not_capital (c : char) :
  is_lower_az c = true ->
  (is_upper_AZ c || (c =? 34) || (c =? 39) || (c =? 40) || (c =? 91)) = false.
Proof.
  unfold is_lower_az, is_upper_AZ, in_range. intros H.
  apply andb_true_iff in H. destruct H as [H1 H2].
  apply N.leb_le in H1. apply N.leb_le in H2.
  repeat (apply orb_false_iff; split);
    try (apply N.eqb_neq; lia).
  apply andb_false_iff. right. apply N.leb_gt. lia.
Qed.

Lemma capital_line_is_no_continuation toUpperCase analyzer (line : jsstr) :
  Index.startsWithCapital line = true ->
  Index.isContinuation toUpperCase analyzer line = false.
Proof.
  unfold Index.startsWithCapital, Index.isContinuation, Index.re_starts_capital,
    Index.re_starts_lower.
  rewrite !test_bol_cls. destruct line as [|x s]; [discriminate|].
  intros Hcap.
  destruct (is_lower_az x) eqn:Hlow.
  - rewrite (lower_is_not_capital _ Hlow) in Hcap. discriminate.
  - now rewrite andb_false_r.
Qed.

(** ** The merge policy *)

Lemma firstn_succ (ls : list jsstr) (i : nat) (a : jsstr) :
  nth_error ls i = Some a -> firstn (S i) ls = firstn i ls ++ [a].
Proof.
  revert i. induction ls as [|x ls IH]; intros [|i] H; simpl in *; try discriminate.
  - now inversion H.
  - f_equal. now apply IH.
Qed.

Lemma state_before_succ toUpperCase analyzer (i : nat) (a : jsstr) :
  nth_error (Index.lines analyzer) i = Some a ->
  state_before toUpperCase analyzer (S i)
  = Index.loop_body toUpperCase analyzer (state_before toUpperCase analyzer i) (Z.of_nat i) a.
Proof.
  intros H. unfold state_before. rewrite (firstn_succ _ _ H), loop_app. simpl.
  rewrite length_firstn, Nat.min_l; [reflexivity|].
  apply Nat.lt_le_incl. apply nth_error_Some. congruence.
Qed.

Lemma snoc_not_nil (A : Type) (l : list A) (x : A) : l ++ [x] <> [].
Proof. intros H. apply app_eq_nil in H. destruct H. discriminate. Qed.

(** After a plain line [a] the open block is a paragraph whose last line ends
    with [a]: [a] itself, or [a] merged onto the line before it. *)
Lemma after_plain_line toUpperCase analyzer (done : list jsstr)
      (st : Index.loop_state) (i : Z) (a : jsstr) :
  loop_inv done st ->
  Index.isHeaderLine toUpperCase analyzer a i = false ->
  Index.isListItem a = false ->
  let st' := Index.loop_body toUpperCase analyzer st i a in
  Index.Block.type (snd st') = Index.Block.paragraph
  /\ Index.Block.lines (snd st') <> []
  /\ exists pre, last (Index.Block.lines (snd st')) [] = pre ++ a.
Proof.
  intros (_ & Hnh & Hc) Hh Hli. destruct st as [blocks [ty ls lv]]. simpl in *.
  unfold Index.loop_body. rewrite Hh, Hli.
  destruct ty; [congruence | |].
  - destruct (Hc eq_refl) as (Hne & _). destruct ls as [|l0 ls0]; [congruence|]. simpl.
    split; [reflexivity|]. split; [discriminate|]. now exists [].
  - destruct ls as [|l0 ls0].
    + simpl. split; [reflexivity|]. split; [discriminate|]. now exists [].
    + cbn -[last removelast app].
      destruct (Index.shouldMerge toUpperCase analyzer _ a); cbn -[last removelast app].
      * split; [reflexivity|]. split; [apply snoc_not_nil|].
        rewrite last_last. eexists (_ ++ SP). rewrite <- app_assoc. reflexivity.
      * split; [reflexivity|]. split; [apply snoc_not_nil|].
        rewrite last_last. now exists [].
Qed.

(** What the loop does with a plain line [b] that follows a plain line [a]
    ending in [. ! ? ;]: the first disjunct of [shouldMerge] is off, and a
    line that starts with a capital, a quote or an opening bracket turns the
    other two off as well. *)
Lemma merge_after_sentence_end toUpperCase analyzer (i : nat) (a b : jsstr) :
  nth_error (Index.lines analyzer) i = Some a ->
  nth_error (Index.lines analyzer) (S i) = Some b ->
  Index.isHeaderLine toUpperCase analyzer a (Z.of_nat i) = false ->
  Index.isListItem a = false ->
  Index.isHeaderLine toUpperCase analyzer b (Z.of_nat (S i)) = false ->
  Index.isListItem b = false ->
  Index.endsWithPunctuation a = true ->
  let st := state_before toUpperCase analyzer (S i) in
  let lastLine := last (Index.Block.lines (snd st)) [] in
  Index.loop_body toUpperCase analyzer st (Z.of_nat (S i)) b
  = (fst st,
     if Index.isContinuation toUpperCase analyzer b
        || ((length lastLine <? 80)%nat && negb (Index.startsWithCapital b))
     then Index.Block.set_last (snd st) (lastLine ++ SP ++ b)
     else Index.Block.push_line (snd st) b)
  /\ (Index.startsWithCapital b = true ->
      Index.loop_body toUpperCase analyzer st (Z.of_nat (S i)) b
      = (fst st, Index.Block.push_line (snd st) b)).
Proof.
  intros Ha Hb Hha Hla Hhb Hlb Hpa st lastLine.
  assert (Hane : a <> []).
  { intros ->. rewrite endsWithPunctuation_last in Hpa. discriminate. }
  pose proof (after_plain_line toUpperCase analyzer (Z.of_nat i) a
                (state_before_inv toUpperCase analyzer i) Hha Hla) as Hshape.
  cbv zeta in Hshape. rewrite <- (state_before_succ toUpperCase analyzer i Ha) in Hshape.
  fold st in Hshape. destruct Hshape as (Hty & Hne & pre & Hlast).
  assert (Hplast : Index.endsWithPunctuation lastLine = true).
  { unfold lastLine. rewrite Hlast, endsWithPunctuation_app; assumption. }
  assert (Hstep :
            Index.loop_body toUpperCase analyzer st (Z.of_nat (S i)) b
            = (fst st,
               if Index.isContinuation toUpperCase analyzer b
                  || ((length lastLine <? 80)%nat && negb (Index.startsWithCapital b))
               then Index.Block.set_last (snd st) (lastLine ++ SP ++ b)
               else Index.Block.push_line (snd st) b)).
  { subst lastLine. destruct st as [blocks [ty ls lv]].
    cbn [fst snd Index.Block.type Index.Block.lines] in *. subst ty.
    unfold Index.loop_body. rewrite Hhb, Hlb. simpl.
    destruct ls as [|l0 ls0]; [congruence|].
    unfold Index.shouldMerge. rewrite Hplast.
    change (0 <? length (l0 :: ls0))%nat with true. cbv iota.
    change (negb true) with false. rewrite orb_false_l.
    match goal with |- (if ?c then _ else _) = _ => destruct c end; reflexivity. }
  split; [exact Hstep|].
  intros Hcap. rewrite Hstep.
  rewrite (capital_line_is_no_continuation toUpperCase analyzer b Hcap), Hcap.
  now rewrite andb_false_r.
Qed.

(** The second pass on the rendered output of [sentence_then_heading]: the
    output re-splits into the lines [Go on.] and [# 12: #], the first ends
    in a full stop, and the second pass makes one line of the two. *)
Lemma C9_second_pass_merges_after_full_stop :
  let pass1 := Index.cleanNaturalText toUpperCase_ascii (Some sentence_then_heading) in
  let analyzer := Index.new_TextStructureAnalyzer pass1 in
  pass1 = js "Go on." ++ LF ++ LF ++ js "# 12: #"
  /\ Index.lines analyzer = [js "Go on."; js "# 12: #"]
  /\ test no_flags Index.re_sentence_end (js "Go on.") = true
  /\ Index.build_blocks toUpperCase_ascii analyzer
     = [ {| Index.Block.type := Index.Block.paragraph;
            Index.Block.lines := [js "Go on. # 12: #"];
            Index.Block.level := None |} ]
  /\ Index.cleanNaturalText toUpperCase_ascii (Some pass1) = js "Go on. # 12: #".
Proof. vm_compute. repeat split; reflexivity. Qed.

(** C9, as the code has it: in a second pass over its own rendered output,
    re-split into lines, a plain line [b] that follows a plain line [a]
    ending in [. ! ? ;] is merged onto the open line exactly when [b] is a
    continuation line, or the open line is shorter than 80 code units and [b]
    does not start with a capital letter, a quote or an opening bracket;
    otherwise [b] is pushed as a line of its own. *)
Theorem C9_second_pass_merge_policy
        (toUpperCase : jsstr -> jsstr) (rawText : option jsstr)
        (i : nat) (a b : jsstr) :
  let analyzer :=
    Index.new_TextStructureAnalyzer (Index.cleanNaturalText toUpperCase rawText) in
  nth_error (Index.lines analyzer) i = Some a ->
  nth_error (Index.lines analyzer) (S i) = Some b ->
  Index.isHeaderLine toUpperCase analyzer a (Z.of_nat i) = false ->
  Index.isListItem a = false ->
  Index.isHeaderLine toUpperCase analyzer b (Z.of_nat (S i)) = false ->
  Index.isListItem b = false ->
  Index.endsWithPunctuation a = true ->
  let st := state_before toUpperCase analyzer (S i) in
  let lastLine := last (Index.Block.lines (snd st)) [] in
  Index.loop_body toUpperCase analyzer st (Z.of_nat (S i)) b
  = (fst st,
     if Index.isContinuation toUpperCase analyzer b
        || ((length lastLine <? 80)%nat && negb (Index.startsWithCapital b))
     then Index.Block.set_last (snd st) (lastLine ++ SP ++ b)
     else Index.Block.push_line (snd st) b).
Proof.
  intros analyzer Ha Hb Hha Hla Hhb Hlb Hpa.
  exact (proj1 (merge_after_sentence_end toUpperCase analyzer i Ha Hb Hha Hla Hhb Hlb Hpa)).
Qed.

Lemma C9_second_pass_witness :
  let pass1 := Index.cleanNaturalText toUpperCase_ascii (Some long_sentence_then_heading) in
  let analyzer := Index.new_TextStructureAnalyzer pass1 in
  let st := state_before toUpperCase_ascii analyzer 1 in
  Index.loop_body toUpperCase_ascii analyzer st 1%Z rendered_heading
  = (fst st, Index.Block.push_line (snd st) rendered_heading).
Proof.
  intros pass1 analyzer st.
  apply (@C9_second_pass_merge_policy toUpperCase_ascii (Some long_sentence_then_heading) 0
           long_sentence rendered_heading); vm_compute; reflexivity.
Defined.

(** ** The all-caps factor *)










(** ** The choice of the extractor *)

Lemma drop_while_length (p : char -> bool) (s : jsstr) :
  (length (drop_while p s) <= length s)%nat.
Proof.
  induction s as [|c s IH]; simpl; [lia|]. destruct (p c); simpl; lia.
Qed.

Lemma trim_length (s : jsstr) : (length (trim s) <= length s)%nat.
Proof.
  unfold trim. rewrite length_rev.
  etransitivity; [apply drop_while_length|]. rewrite length_rev.
  apply drop_while_length.
Qed.

Lemma trimmed_meeting_le (pages : list Page.t) :
  (length (filter (fun p => (Rev0.MIN_CHARS_PER_PAGE <=? length (trim (Page.text p)))%nat)
                  pages)
   <= length (meeting pages))%nat.
Proof.
  unfold meeting, Rev0.MIN_CHARS_PER_PAGE.
  induction pages as [|p ps IH]; [simpl; lia|].
  pose proof (trim_length (Page.text p)) as Ht.
  cbn [filter].
  destruct (Nat.leb_spec 50 (length (trim (Page.text p))));
    destruct (Nat.leb_spec 50 (length (Page.text p))); cbn [length]; lia.
Qed.

Lemma fraction_le_half (c n : nat) :
  Qle_bool (inject_Z (Z.of_nat c) / inject_Z (Z.of_nat (S n))) (1 # 2)
  = (2 * c <=? S n)%nat.
Proof.
  unfold Qle_bool, Qdiv, Qmult, Qinv, inject_Z.
  cbn [Qnum Qden]. rewrite Nat2Z.inj_succ.
  destruct (Z.succ (Z.of_nat n)) eqn:E; try lia.
  cbn [Qnum Qden].
  destruct (Nat.leb_spec (2 * c) (S n)); [apply Z.leb_le | apply Z.leb_gt]; lia.
Qed.

(** [c / n > 0.5] on counts: [NaN > 0.5] is false when there is no page. *)
Lemma fraction_above_half (c n : nat) :
  ngt (ndiv (of_nat c) (of_nat n)) (Num (1 # 2)) = (n <? 2 * c)%nat.
Proof.
  unfold ngt, ndiv, of_nat.
  destruct n as [|n].
  - destruct c as [|c]; reflexivity.
  - assert (Hn : Qeq_bool (inject_Z (Z.of_nat (S n))) 0 = false).
    { destruct (Qeq_bool _ 0) eqn:E; [|reflexivity].
      apply Qeq_bool_iff in E. unfold Qeq in E. simpl in E. lia. }
    rewrite Hn. unfold nlt, Qltb. rewrite fraction_le_half.
    destruct (Nat.leb_spec (2 * c) (S n)); destruct (Nat.ltb_spec (S n) (2 * c));
      simpl; try reflexivity; lia.
Qed.

(** In [part_000] the local result is usable when more than half of the
    pages have 50 code units after trimming. *)
Lemma Rev0_usable_spec (pages : list Page.t) :
  Rev0.usable pages
  = (length pages
     <? 2 * length (filter (fun p => (Rev0.MIN_CHARS_PER_PAGE
                                       <=? length (trim (Page.text p)))%nat) pages))%nat.
Proof. unfold Rev0.usable. apply fraction_above_half. Qed.

Lemma Rev0_half_is_not_usable (pages : list Page.t) :
  (2 * length (meeting pages) <= length pages)%nat -> Rev0.usable pages = false.
Proof.
  intros H. rewrite Rev0_usable_spec. apply Nat.ltb_ge.
  pose proof (trimmed_meeting_le pages). lia.
Qed.

(** In [index.js] the local result is usable when some page has 50 code
    units. *)
Lemma Index_usable_spec (pages : list Page.t) :
  Index.usable pages = negb (length (meeting pages) =? 0)%nat.
Proof.
  unfold Index.usable, meeting, Index.MIN_CHARS_PER_PAGE.
  induction pages as [|p ps IH]; [reflexivity|].
  cbn [existsb filter].
  destruct (50 <=? length (Page.text p))%nat; [reflexivity | exact IH].
Qed.

Lemma bind_bind_ret (A B C : Type) (m : M A) (f : A -> B) (k : B -> M C) (w : World) :
  bind (bind m (fun a => ret (f a))) k w = bind m (fun a => k (f a)) w.
Proof.
  unfold bind, ret. destruct (m w) as [[[a|e] w']|]; reflexivity.
Qed.

(** The two ways on from the local extraction in [part_000]. *)
Lemma Rev0_process_body_choice env clean_text path_parse_name
      (fuel : nat) (file : jsstr) (w w1 : World) (pages : list Page.t) :
  Rev0.extractPdfParse env (path_join_input file) w = Some (Ok pages, w1) ->
  Rev0.process_body env clean_text path_parse_name fuel file w
  = if negb (Rev0.usable pages) || ocrOverride env
    then (ocr <- Rev0.extractAzure env fuel (path_join_input file) ;;
          Rev0.finish env clean_text path_parse_name file (ocr, js "azure")) w1
    else Rev0.finish env clean_text path_parse_name file (pages, js "pdf-parse") w1.
Proof.
  intros H. unfold Rev0.process_body.
  unfold bind at 1. rewrite H.
  destruct (negb (Rev0.usable pages) || ocrOverride env).
  - apply bind_bind_ret.
  - reflexivity.
Qed.

(** The two ways on from the local extraction in [index.js]. *)
Lemma Index_process_body_choice toUpperCase env
      (fuel : nat) (file : jsstr) (w w1 : World) (pages : list Page.t) :
  Index.extractPdfParse env (path_join_input file) w = Some (Ok pages, w1) ->
  Index.process_body toUpperCase env fuel file w
  = if negb (Index.usable pages) || ocrOverride env
    then (ocr <- Index.extractAzure env fuel (path_join_input file) ;;
          Index.finish toUpperCase env file (ocr, js "azure")) w1
    else Index.finish toUpperCase env file (pages, js "pdf-parse") w1.
Proof.
  intros H. unfold Index.process_body.
  unfold bind at 1. rewrite H.
  destruct (negb (Index.usable pages) || ocrOverride env).
  - apply bind_bind_ret.
  - reflexivity.
Qed.

(** C1, as the code has it.  In [part_000], when at most half of the locally
    parsed pages have a raw text of 50 code units or more (5 pages of 10, or
    no page at all), the local result is not usable and the run goes on with
    the remote OCR extraction.  In [index.js] the local result is given up
    only when no page has 50 code units (or the override flag is set): with
    one such page, and the flag off, the run goes on with the local pages. *)
Theorem C1_extractor_choice
        (toUpperCase : jsstr -> jsstr) (env : Env)
        (clean_text path_parse_name : jsstr -> jsstr)
        (fuel : nat) (file : jsstr) (w w1 : World) (pages : list Page.t) :
  (Rev0.extractPdfParse env (path_join_input file) w = Some (Ok pages, w1) ->
   (2 * length (meeting pages) <= length pages)%nat ->
   Rev0.usable pages = false
   /\ Rev0.process_body env clean_text path_parse_name fuel file w
      = (ocr <- Rev0.extractAzure env fuel (path_join_input file) ;;
         Rev0.finish env clean_text path_parse_name file (ocr, js "azure")) w1)
  /\ (Index.extractPdfParse env (path_join_input file) w = Some (Ok pages, w1) ->
      (Index.usable pages = false <-> length (meeting pages) = 0%nat)
      /\ (length (meeting pages) = 0%nat ->
          Index.process_body toUpperCase env fuel file w
          = (ocr <- Index.extractAzure env fuel (path_join_input file) ;;
             Index.finish toUpperCase env file (ocr, js "azure")) w1)
      /\ (length (meeting pages) <> 0%nat ->
          ocrOverride env = false ->
          Index.process_body toUpperCase env fuel file w
          = Index.finish toUpperCase env file (pages, js "pdf-parse") w1)).
Proof.
  split.
  - intros Hparse Hhalf.
    pose proof (Rev0_half_is_not_usable pages Hhalf) as Hu.
    split; [exact Hu|].
    rewrite (Rev0_process_body_choice env clean_text path_parse_name fuel file w Hparse).
    now rewrite Hu.
  - intros Hparse.
    pose proof (Index_process_body_choice toUpperCase env fuel file w Hparse) as Hbody.
    rewrite Index_usable_spec in *.
    split; [|split].
    + destruct (Nat.eqb_spec (length (meeting pages)) 0); simpl; split; congruence.
    + intros H0. rewrite Hbody, H0. reflexivity.
    + intros Hn Hov. rewrite Hbody, Hov.
      destruct (Nat.eqb_spec (length (meeting pages)) 0); [contradiction | reflexivity].
Qed.

(** In [index.js], with exactly 5 pages of 10 at 50 code units or more, the
    local result is usable: the document is written from the local pages and
    no request goes to the OCR service. *)
Lemma C1_index_keeps_local_pages_at_one_half :
  Index.extractPdfParse half_text_env (path_join_input (js "report.pdf")) empty_world
  = Some (Ok half_text_pages, empty_world)
  /\ length half_text_pages = 10%nat
  /\ length (meeting half_text_pages) = 5%nat
  /\ Index.usable half_text_pages = true
  /\ match Index.processSinglePDF toUpperCase_ascii half_text_env 5 (js "report.pdf")
             empty_world with
     | Some (Ok _, w') =>
         requests w' = [] /\ map fst (files w') = [js "./output/report.txt"]
     | _ => False
     end.
Proof. vm_compute. repeat split; reflexivity. Qed.

Lemma C1_extractor_choice_witness :
  (Rev0.usable half_text_pages = false
   /\ Rev0.process_body half_text_env (fun s => s) name_of 5 (js "report.pdf")
        empty_world
      = (ocr <- Rev0.extractAzure half_text_env 5 (path_join_input (js "report.pdf")) ;;
         Rev0.finish half_text_env (fun s => s) name_of (js "report.pdf")
           (ocr, js "azure")) empty_world)
  /\ Index.process_body toUpperCase_ascii half_text_env 5 (js "report.pdf") empty_world
     = Index.finish toUpperCase_ascii half_text_env (js "report.pdf")
         (half_text_pages, js "pdf-parse") empty_world.
Proof.
  destruct (C1_extractor_choice toUpperCase_ascii half_text_env (fun s => s) name_of
              5 (js "report.pdf") empty_world empty_world half_text_pages)
    as [Hrev0 Hindex].
  split.
  - apply Hrev0; [reflexivity | vm_compute; lia].
  - destruct Hindex as (_ & _ & Hlocal); [reflexivity|].
    apply Hlocal; [vm_compute; lia | reflexivity].
Defined.

(** ** Polling the OCR service *)

Lemma str_eqb_eq (a b : jsstr) : str_eqb a b = true -> a = b.
Proof.
  revert b. induction a as [|x a IH]; intros [|y b] H; simpl in H;
    try discriminate; [reflexivity|].
  apply andb_true_iff in H. destruct H as [Hx Hab].
  apply N.eqb_eq in Hx. subst y. f_equal. now apply IH.
Qed.

(** The loop of [index.js] leaves on [succeeded] only: while the service
    answers with any other status, it is still polling, whatever the number
    of polls allowed. *)
Lemma Index_poll_loop_never_leaves env (url : jsstr) :
  (forall n, exists d, get env url n = Ok d
                       /\ str_eqb (Azure.status d) (js "succeeded") = false) ->
  forall fuel n w, Index.poll_loop env fuel url n w = None.
Proof.
  intros Hall fuel. induction fuel as [|fuel IH]; intros n w; [reflexivity|].
  simpl. unfold bind, axios_get. destruct (Hall n) as (d & Hd & Hs).
  rewrite Hd, Hs. apply IH.
Qed.

(** The loop of [part_000] leaves on [failed] as well, by throwing: if the
    poll number [k] is the first to answer [succeeded] or [failed], and it
    answers [failed], the loop throws after [k + 1] requests. *)
Lemma Rev0_poll_loop_throws_on_failed env (url : jsstr) (k : nat) :
  forall fuel n w,
    (forall j, (j < k)%nat ->
               exists d, get env url (n + j) = Ok d
                         /\ str_eqb (Azure.status d) (js "succeeded") = false
                         /\ str_eqb (Azure.status d) (js "failed") = false) ->
    (exists d, get env url (n + k) = Ok d
               /\ str_eqb (Azure.status d) (js "failed") = true) ->
    (k < fuel)%nat ->
    Rev0.poll_loop env fuel url n w
    = Some (Throw (new_Error env (js "Azure OCR Failed")),
            {| files := files w; requests := requests w ++ gets url (S k) |}).
Proof.
  induction k as [|k IH]; intros fuel n w Hrun Hfail Hfuel.
  - destruct fuel as [|fuel]; [lia|]. simpl. unfold bind, axios_get.
    destruct Hfail as (d & Hd & Hs). rewrite Nat.add_0_r in Hd. rewrite Hd.
    assert (Hne : str_eqb (Azure.status d) (js "succeeded") = false).
    { rewrite (str_eqb_eq _ _ Hs). reflexivity. }
    rewrite Hne, Hs. reflexivity.
  - destruct fuel as [|fuel]; [lia|]. simpl. unfold bind, axios_get.
    destruct (Hrun 0%nat) as (d & Hd & Hs & Hf); [lia|].
    rewrite Nat.add_0_r in Hd. rewrite Hd, Hs, Hf.
    rewrite IH; [| | |lia].
    + simpl. rewrite <- app_assoc. reflexivity.
    + intros j Hj. replace (S n + j)%nat with (n + S j)%nat by lia. apply Hrun. lia.
    + replace (S n + k)%nat with (n + S k)%nat by lia. exact Hfail.
Qed.

(** C2: on a poll that answers [failed] the extraction has to end and fail
    the document.  [part_000] does: the document gets its error record after
    one poll.  [index.js] does not: its loop tests for [succeeded] only, so
    with any number of polls allowed the run is still polling, and nothing is
    written for the document. *)
Theorem C2_index_keeps_polling_after_failed (fuel : nat) :
  Index.processSinglePDF toUpperCase_ascii failed_ocr_env fuel (js "scan.pdf") empty_world
  = None
  /\ Rev0.processSinglePDF failed_ocr_env (fun s => s) name_of (S fuel)
       (js "scan.pdf") empty_world
     = Some (Ok tt,
             {| files := [(js "output/scan.error.log", js "Error: Azure OCR Failed")];
                requests := [POST (Rev0.analyze_url failed_ocr_env);
                             GET (js "https://ocr.example/operations/1")] |}).
Proof.
  split.
  - unfold Index.processSinglePDF, try_catch.
    rewrite (@Index_process_body_choice toUpperCase_ascii failed_ocr_env fuel (js "scan.pdf")
               empty_world empty_world
               [ {| Page.page := 1; Page.text := [] |} ] eq_refl).
    unfold Index.extractAzure, bind.
    cbn [lift readFileSync failed_ocr_env steady_env axios_post post].
    rewrite Index_poll_loop_never_leaves; [reflexivity|].
    intros n. eexists. split; [reflexivity | reflexivity].
  - unfold Rev0.processSinglePDF, try_catch.
    rewrite (@Rev0_process_body_choice failed_ocr_env (fun s => s) name_of
               (S fuel) (js "scan.pdf") empty_world empty_world
               [ {| Page.page := 1; Page.text := [] |} ] eq_refl).
    reflexivity.
Qed.

(** ** The world is a log *)

Lemma extend_empty_l (we : World) : extend empty_world we = we.
Proof. now destruct we. Qed.

Lemma extend_empty_r (w : World) : extend w empty_world = w.
Proof. destruct w. unfold extend. simpl. now rewrite !app_nil_r. Qed.

Lemma extend_assoc (w a b : World) : extend (extend w a) b = extend w (extend a b).
Proof. unfold extend. simpl. now rewrite !app_assoc. Qed.

Lemma framed_ret (A : Type) (a : A) : framed (ret a).
Proof. intros w. unfold ret. f_equal. f_equal. symmetry. apply extend_empty_r. Qed.

Lemma framed_throw (A : Type) (e : error) : framed (@throw A e).
Proof. intros w. unfold throw. f_equal. f_equal. symmetry. apply extend_empty_r. Qed.

Lemma framed_lift (A : Type) (r : result A) : framed (lift r).
Proof. intros w. unfold lift. f_equal. f_equal. symmetry. apply extend_empty_r. Qed.

Lemma framed_still_running (A : Type) : framed (@still_running A).
Proof. intros w. reflexivity. Qed.

Lemma framed_bind (A B : Type) (m : M A) (f : A -> M B) :
  framed m -> (forall a, framed (f a)) -> framed (bind m f).
Proof.
  intros Hm Hf w. unfold bind. rewrite (Hm w).
  destruct (m empty_world) as [[[a|e] we]|]; [| reflexivity | reflexivity].
  rewrite (Hf a (extend w we)), (Hf a we).
  destruct (f a empty_world) as [[r wf]|]; [|reflexivity].
  now rewrite extend_assoc.
Qed.

Lemma framed_try_catch (A : Type) (m : M A) (h : error -> M A) :
  framed m -> (forall e, framed (h e)) -> framed (try_catch m h).
Proof.
  intros Hm Hh w. unfold try_catch. rewrite (Hm w).
  destruct (m empty_world) as [[[a|e] we]|]; [reflexivity | | reflexivity].
  rewrite (Hh e (extend w we)), (Hh e we).
  destruct (h e empty_world) as [[r wf]|]; [|reflexivity].
  now rewrite extend_assoc.
Qed.

Lemma framed_writeFileSync env (path data : jsstr) : framed (writeFileSync env path data).
Proof.
  intros [fs rs]. unfold writeFileSync.
  destruct (write_error env path); unfold extend; simpl; now rewrite ?app_nil_r.
Qed.

Lemma framed_axios_post env (url body : jsstr) : framed (axios_post env url body).
Proof. intros [fs rs]. unfold axios_post, extend. simpl. now rewrite app_nil_r. Qed.

Lemma framed_axios_get env (url : jsstr) (n : nat) : framed (axios_get env url n).
Proof. intros [fs rs]. unfold axios_get, extend. simpl. now rewrite app_nil_r. Qed.

Create HintDb framed.
#[local] Hint Resolve framed_ret framed_throw framed_lift framed_still_running
  framed_writeFileSync framed_axios_post framed_axios_get : framed.

Ltac framed :=
  repeat first
    [ solve [auto with framed]
    | progress cbv zeta
    | apply framed_bind; [|intros ?]
    | apply framed_try_catch; [|intros ?]
    | match goal with
      | |- framed (if ?c then _ else _) => destruct c
      | |- framed (match ?x with _ => _ end) => destruct x
      end ].

Lemma framed_Index_poll_loop env (url : jsstr) (fuel : nat) :
  forall n, framed (Index.poll_loop env fuel url n).
Proof.
  induction fuel as [|fuel IH]; intros n; simpl; framed.
Qed.

Lemma framed_Index_extractPdfParse env (pdfPath : jsstr) :
  framed (Index.extractPdfParse env pdfPath).
Proof. unfold Index.extractPdfParse. framed. Qed.

#[local] Hint Resolve framed_Index_poll_loop framed_Index_extractPdfParse : framed.

Lemma framed_Index_extractAzure env (fuel : nat) (pdfPath : jsstr) :
  framed (Index.extractAzure env fuel pdfPath).
Proof. unfold Index.extractAzure. framed. Qed.

Lemma framed_Index_finish toUpperCase env (file : jsstr) chosen :
  framed (Index.finish toUpperCase env file chosen).
Proof. unfold Index.finish. destruct chosen. framed. Qed.

#[local] Hint Resolve framed_Index_extractAzure framed_Index_finish : framed.

Lemma framed_Index_process_body toUpperCase env (fuel : nat) (file : jsstr) :
  framed (Index.process_body toUpperCase env fuel file).
Proof. unfold Index.process_body. framed. Qed.

#[local] Hint Resolve framed_Index_process_body : framed.

Lemma framed_Index_processSinglePDF toUpperCase env (fuel : nat) (file : jsstr) :
  framed (Index.processSinglePDF toUpperCase env fuel file).
Proof. unfold Index.processSinglePDF. framed. Qed.

(** ** One artifact for each document *)

Lemma writes_nothing_ret (A : Type) (a : A) : writes_nothing (ret a).
Proof. intros w r w' H. inversion H. reflexivity. Qed.

Lemma writes_nothing_throw (A : Type) (e : error) : writes_nothing (@throw A e).
Proof. intros w r w' H. inversion H. reflexivity. Qed.

Lemma writes_nothing_lift (A : Type) (x : result A) : writes_nothing (lift x).
Proof. intros w r w' H. inversion H. reflexivity. Qed.

Lemma writes_nothing_still_running (A : Type) : writes_nothing (@still_running A).
Proof. intros w r w' H. discriminate. Qed.

Lemma writes_nothing_axios_post env (url body : jsstr) :
  writes_nothing (axios_post env url body).
Proof. intros w r w' H. inversion H. reflexivity. Qed.

Lemma writes_nothing_axios_get env (url : jsstr) (n : nat) :
  writes_nothing (axios_get env url n).
Proof. intros w r w' H. inversion H. reflexivity. Qed.

Lemma writes_nothing_bind (A B : Type) (m : M A) (f : A -> M B) :
  writes_nothing m -> (forall a, writes_nothing (f a)) -> writes_nothing (bind m f).
Proof.
  intros Hm Hf w r w' H. unfold bind in H.
  destruct (m w) as [[[a|e] w1]|] eqn:E; [| |discriminate].
  - rewrite (Hf a _ _ _ H). exact (Hm _ _ _ E).
  - inversion H; subst. exact (Hm _ _ _ E).
Qed.

Create HintDb writes_nothing.
#[local] Hint Resolve writes_nothing_ret writes_nothing_throw writes_nothing_lift
  writes_nothing_still_running writes_nothing_axios_post writes_nothing_axios_get
  : writes_nothing.

Ltac writes_nothing :=
  repeat first
    [ solve [auto with writes_nothing]
    | progress cbv zeta
    | apply writes_nothing_bind; [|intros ?]
    | match goal with
      | |- writes_nothing (if ?c then _ else _) => destruct c
      | |- writes_nothing (match ?x with _ => _ end) => destruct x
      end ].

Lemma Index_poll_loop_writes_nothing env (url : jsstr) (fuel : nat) :
  forall n, writes_nothing (Index.poll_loop env fuel url n).
Proof. induction fuel as [|fuel IH]; intros n; simpl; writes_nothing. Qed.

Lemma Index_extractPdfParse_writes_nothing env (pdfPath : jsstr) :
  writes_nothing (Index.extractPdfParse env pdfPath).
Proof. unfold Index.extractPdfParse. writes_nothing. Qed.

#[local] Hint Resolve Index_poll_loop_writes_nothing Index_extractPdfParse_writes_nothing
  : writes_nothing.

Lemma Index_extractAzure_writes_nothing env (fuel : nat) (pdfPath : jsstr) :
  writes_nothing (Index.extractAzure env fuel pdfPath).
Proof. unfold Index.extractAzure. writes_nothing. Qed.

#[local] Hint Resolve Index_extractAzure_writes_nothing : writes_nothing.

(** What the body of the [try] leaves behind: one transcript when it
    returns, nothing when it throws. *)
Lemma Index_process_body_files toUpperCase env (fuel : nat) (file : jsstr)
      (w : World) (r : result unit) (w' : World) :
  Index.process_body toUpperCase env fuel file w = Some (r, w') ->
  match r with
  | Ok _ => exists content, files w' = files w ++ [(Index.transcript_path file, content)]
  | Throw _ => files w' = files w
  end.
Proof.
  unfold Index.process_body. cbv zeta. intros H.
  unfold bind at 1 in H.
  destruct (Index.extractPdfParse env (path_join_input file) w) as [[[pages|e] w1]|] eqn:E1;
    [| |discriminate].
  - pose proof (Index_extractPdfParse_writes_nothing env (path_join_input file) _ E1) as F1.
    unfold bind at 1 in H.
    match type of H with
    | match ?m w1 with _ => _ end = _ =>
        assert (Hm : writes_nothing m) by writes_nothing;
        destruct (m w1) as [[[chosen|e] w2]|] eqn:E2; [| |discriminate]
    end.
    + pose proof (Hm _ _ _ E2) as F2.
      unfold Index.finish in H. destruct chosen as [ps method].
      unfold writeFileSync in H.
      destruct (write_error env (Index.transcript_path file)) as [e|].
      * inversion H; subst. congruence.
      * inversion H; subst. simpl. eexists. rewrite F2, F1. reflexivity.
    + inversion H; subst. pose proof (Hm _ _ _ E2). congruence.
  - inversion H; subst. exact (Index_extractPdfParse_writes_nothing env (path_join_input file) _ E1).
Qed.

Lemma Index_processSinglePDF_one_artifact toUpperCase env (fuel : nat) (file : jsstr) :
  settles toUpperCase env fuel file ->
  exists entry we,
    artifact_of toUpperCase env fuel file entry
    /\ files we = [entry]
    /\ forall w,
        Index.processSinglePDF toUpperCase env fuel file w = Some (Ok tt, extend w we).
Proof.
  intros [Hend Hrec].
  assert (Hone : exists entry we,
             artifact_of toUpperCase env fuel file entry
             /\ files we = [entry]
             /\ Index.processSinglePDF toUpperCase env fuel file empty_world
                = Some (Ok tt, we)).
  { unfold artifact_of, Index.processSinglePDF, try_catch.
    destruct (Index.process_body toUpperCase env fuel file empty_world)
      as [[[[]|e] we]|] eqn:E; [| |congruence].
    - destruct (Index_process_body_files _ _ _ _ _ E) as [content Hfiles].
      simpl in Hfiles. exists (Index.transcript_path file, content), we. auto.
    - pose proof (Index_process_body_files _ _ _ _ _ E) as Hfiles. simpl in Hfiles.
      unfold writeFileSync. rewrite (Hrec e we eq_refl).
      eexists. eexists. split; [split; [exact Hfiles | reflexivity]|].
      split; [|reflexivity]. simpl. now rewrite Hfiles. }
  destruct Hone as (entry & we & Hart & Hfiles & Hrun).
  exists entry, we. split; [exact Hart|]. split; [exact Hfiles|].
  intros w. rewrite (framed_Index_processSinglePDF toUpperCase env fuel file w), Hrun.
  reflexivity.
Qed.

(** A call made of a computation that only appends to the world, resumed
    turn after turn with nothing in between, does what the computation
    does. *)
Lemma call_of_alone (m : M unit) : framed m -> forall w, run_alone (call_of m) w = m w.
Proof.
  intros Hm w. rewrite (Hm w). unfold call_of.
  destruct (m empty_world) as [[r [fs rs]]|]; [|reflexivity].
  unfold extend. cbn [files requests].
  revert w. induction rs as [|x rs IH]; intros w; cbn [fold_right run_alone].
  - now rewrite app_nil_r.
  - rewrite IH. cbn [files requests]. now rewrite <- app_assoc.
Qed.

(** So are the calls of [processSinglePDF] in [index.js]. *)
Lemma Index_call_alone toUpperCase env (fuel : nat) (file : jsstr) (w : World) :
  run_alone (Index.call_processSinglePDF toUpperCase env fuel file) w
  = Index.processSinglePDF toUpperCase env fuel file w.
Proof. apply call_of_alone, framed_Index_processSinglePDF. Qed.

Lemma final_of_sends (sent : list request) (c : call) :
  final (fold_right Sends c sent) = final c.
Proof. induction sent as [|x sent IH]; [reflexivity | exact IH]. Qed.

Lemma stretches_positive (c : call) : (1 <= stretches c)%nat.
Proof. destruct c; simpl; lia. Qed.

Lemma next_call_some worker (queue queue' : list jsstr) (c : call) :
  next_call worker queue = (queue', Some c) ->
  exists skipped item,
    queue = skipped ++ item :: queue'
    /\ c = worker item
    /\ filter truthy queue = item :: filter truthy queue'.
Proof.
  induction queue as [|x q IH]; cbn [next_call]; [discriminate|].
  destruct (truthy x) eqn:E; intros H.
  - inversion H; subst. exists [], x. cbn [filter app]. now rewrite E.
  - destruct (IH H) as (skipped & item & Hq & Hc & Hf).
    exists (x :: skipped), item. cbn [filter app]. rewrite E, <- Hq. auto.
Qed.

Lemma next_call_none worker (queue queue' : list jsstr) :
  next_call worker queue = (queue', None) -> queue' = [] /\ filter truthy queue = [].
Proof.
  induction queue as [|x q IH]; cbn [next_call].
  - intros H. inversion H. auto.
  - cbn [filter]. destruct (truthy x); [discriminate | exact IH].
Qed.

(** The call that a turn resumes. *)
Lemma resumed_call (running : list call) (n : nat) :
  running <> [] ->
  exists c after,
    skipn (n mod length running) running = c :: after
    /\ running = firstn (n mod length running) running ++ c :: after.
Proof.
  intros Hne.
  assert (Hi : (n mod length running < length running)%nat).
  { apply Nat.mod_upper_bound. destruct running; [congruence | discriminate]. }
  destruct (skipn (n mod length running) running) as [|c after] eqn:E.
  - apply (f_equal (@length call)) in E. rewrite length_skipn in E. simpl in E. lia.
  - exists c, after. split; [reflexivity|]. rewrite <- E. symmetry. apply firstn_skipn.
Qed.

Lemma items_of_running (R : jsstr -> call -> Prop) (taken : list jsstr)
      (before : list call) (c : call) (after : list call) :
  Forall2 R taken (before ++ c :: after) ->
  exists tb item ta,
    taken = tb ++ item :: ta
    /\ Forall2 R tb before /\ R item c /\ Forall2 R ta after.
Proof.
  intros H. apply Forall2_app_inv_r in H.
  destruct H as (tb & rest & Hb & Hrest & ->).
  inversion Hrest as [|item ? ta ? Hc Ha]; subst.
  now exists tb, item, ta.
Qed.

Lemma perm_taken_on (tb ta newly : list jsstr) (f item : jsstr) :
  Permutation ((tb ++ f :: ta) ++ item :: newly) (f :: (tb ++ item :: ta) ++ newly).
Proof.
  rewrite <- !app_assoc. cbn [app].
  etransitivity; [apply Permutation_sym, Permutation_middle|].
  apply perm_skip, Permutation_app_head.
  etransitivity; [apply Permutation_sym, Permutation_middle|].
  apply Permutation_sym.
  etransitivity; [|apply perm_skip, Permutation_refl].
  apply Permutation_refl.
Qed.

Lemma perm_taken_off (tb ta newly : list jsstr) (f : jsstr) :
  Permutation ((tb ++ f :: ta) ++ newly) (f :: (tb ++ ta) ++ newly).
Proof.
  rewrite <- !app_assoc. cbn [app]. apply Permutation_sym, Permutation_middle.
Qed.

(** Whatever the worker function and the order of the turns, a settled
    promise accounts for every item: the calls of the items in the hands of
    the workers go on as the calls of the worker function on those items. *)
Lemma event_loop_accounts worker (schedule : list nat) :
  forall (queue : list jsstr) (running : list call) (w : World)
         (taken : list jsstr) (s : Settled),
    Forall2 (fun item c => final c = final (worker item)) taken running ->
    event_loop worker schedule queue running w = Some s ->
    accounts_for worker taken queue w s.
Proof.
  induction schedule as [|n later IH]; intros queue running w taken s Hrun H.
  - destruct running as [|c0 cs]; [|discriminate]. cbn [event_loop] in H.
    inversion H; subst. inversion Hrun; subst.
    exists [], [], []. cbn. rewrite app_nil_r. repeat split; auto.
    now exists [].
  - destruct running as [|c0 cs].
    { cbn [event_loop] in H. inversion H; subst. inversion Hrun; subst.
      exists [], [], []. cbn. rewrite app_nil_r. repeat split; auto.
      now exists []. }
    cbn [event_loop] in H. unfold resume in H.
    destruct (@resumed_call (c0 :: cs) n) as (c & after & Eskip & Esplit); [discriminate|].
    rewrite Eskip in H.
    set (before := firstn (n mod length (c0 :: cs)) (c0 :: cs)) in *.
    rewrite Esplit in Hrun.
    destruct (@items_of_running _ _ _ _ _ Hrun) as (tb & f & ta & -> & Hb & Hc & Ha).
    cbv beta in Hc.
    destruct c as [r next | written [[]|e] | ].
    + (* a stretch that sends a request *)
      apply (IH _ _ _ (tb ++ f :: ta)) in H.
      * exact H.
      * apply Forall2_app; [exact Hb|]. constructor; [exact Hc | exact Ha].
    + (* the call returns *)
      assert (Hf : returns_normally worker f) by (exists written; now rewrite <- Hc).
      assert (Hw : written_by worker f = written)
        by (unfold written_by; now rewrite <- Hc).
      destruct (next_call worker queue) as [queue' [c'|]] eqn:En.
      * destruct (next_call_some _ _ En) as (skipped & item & Hq & -> & Hfilter).
        apply (IH _ _ _ (tb ++ item :: ta)) in H;
          [|apply Forall2_app; [exact Hb|]; constructor; [reflexivity | exact Ha]].
        destruct H as (finished & newly & still & H1 & [gone H2] & H3 & H4 & H5 & H6).
        exists (f :: finished), (item :: newly), still.
        split; [rewrite Hfilter, H1; reflexivity|].
        split; [exists (skipped ++ item :: gone); rewrite Hq, H2, <- app_assoc;
                reflexivity|].
        split; [etransitivity; [apply perm_taken_on|]; now apply perm_skip|].
        split; [exact H4|].
        split; [rewrite H5; cbn [files map concat]; rewrite Hw, <- app_assoc;
                reflexivity|].
        destruct (rejected s) as [e|].
        -- destruct H6 as (pre & g & -> & Hpre & Hg).
           exists (f :: pre), g. repeat split; [now constructor | exact Hg].
        -- destruct H6 as (Hs & Hall & Hleft).
           split; [exact Hs|]. split; [now constructor|].
           right. destruct Hleft as [E | E]; [|exact E].
           destruct tb; discriminate.
      * destruct (next_call_none _ _ En) as [-> Hfilter].
        apply (IH _ _ _ (tb ++ ta)) in H; [|now apply Forall2_app].
        destruct H as (finished & newly & still & H1 & [gone H2] & H3 & H4 & H5 & H6).
        assert (Hleft : queue_left s = []).
        { symmetry in H2. apply app_eq_nil in H2. tauto. }
        exists (f :: finished), newly, still.
        split; [rewrite Hfilter; exact H1|].
        split; [exists queue; rewrite Hleft; now rewrite app_nil_r|].
        split; [etransitivity; [apply perm_taken_off|]; now apply perm_skip|].
        split; [exact H4|].
        split; [rewrite H5; cbn [files map concat]; rewrite Hw, <- app_assoc;
                reflexivity|].
        destruct (rejected s) as [e|].
        -- destruct H6 as (pre & g & -> & Hpre & Hg).
           exists (f :: pre), g. repeat split; [now constructor | exact Hg].
        -- destruct H6 as (Hs & Hall & _).
           split; [exact Hs|]. split; [now constructor | now right].
    + (* the call throws *)
      inversion H; subst. cbn [rejected queue_left calls_pending world_then files].
      exists [f], [], (tb ++ ta).
      split; [reflexivity|]. split; [now exists []|].
      split; [rewrite app_nil_r; cbn [app]; apply Permutation_sym, Permutation_middle|].
      split; [rewrite length_app, (Forall2_length Hb), (Forall2_length Ha);
              reflexivity|].
      split.
      * cbn [map concat]. unfold written_by. rewrite <- Hc. cbn [final].
        now rewrite app_nil_r.
      * exists [], f. split; [reflexivity|]. split; [constructor|].
        exists written. now rewrite <- Hc.
    + (* a call that is never resumed *)
      apply (IH _ _ _ (tb ++ f :: ta)) in H; [exact H|].
      rewrite Esplit. apply Forall2_app; [exact Hb|]. constructor; [exact Hc | exact Ha].
Qed.

(** The workers at the start: they hold the first items that are not
    falsy. *)
Lemma start_workers_spec worker (limit : nat) :
  forall (items queue : list jsstr) (running : list call),
    start_workers worker items limit = (queue, running) ->
    exists taken,
      running = map worker taken
      /\ filter truthy items = taken ++ filter truthy queue
      /\ (exists gone, items = gone ++ queue)
      /\ ((1 <= limit)%nat -> taken = [] -> queue = []).
Proof.
  induction limit as [|fewer IH]; intros items queue running H; cbn [start_workers] in H.
  - inversion H; subst. exists []. repeat split; [now exists [] | lia].
  - destruct (next_call worker items) as [queue' [c|]] eqn:En.
    + destruct (next_call_some _ _ En) as (skipped & item & Hq & -> & Hfilter).
      destruct (start_workers worker queue' fewer) as [waiting calls] eqn:Es.
      inversion H; subst.
      destruct (IH _ _ _ Es) as (taken & -> & Hf & [gone Hg] & _).
      exists (item :: taken). split; [reflexivity|].
      split; [rewrite Hfilter, Hf; reflexivity|].
      split; [exists (skipped ++ item :: gone); rewrite Hg, <- app_assoc; reflexivity|].
      discriminate.
    + destruct (next_call_none _ _ En) as [-> Hfilter]. inversion H; subst.
      exists []. split; [reflexivity|]. split; [exact Hfilter|].
      split; [exists items; now rewrite app_nil_r | auto].
Qed.

(** What a settled promise of [runQueue] accounts for. *)
Lemma runQueue_accounts worker (items : list jsstr) (limit : nat)
      (schedule : list nat) (w : World) (s : Settled) :
  runQueue worker items limit schedule w = Some s ->
  run_accounts worker items limit w s.
Proof.
  unfold runQueue, run_accounts. destruct (start_workers worker items limit) as [queue running] eqn:Es.
  destruct (@start_workers_spec worker limit _ _ _ Es) as (taken & -> & Hf & [gone Hg] & Hempty).
  intros H.
  assert (Hheld : Forall2 (fun item c => final c = final (worker item))
                          taken (map worker taken))
    by (clear; induction taken; constructor; auto).
  destruct (@event_loop_accounts worker schedule queue _ w taken s Hheld H)
    as (finished & newly & still & H1 & [gone' H2] & H3 & H4 & H5 & H6).
  exists (taken ++ newly), finished, still.
  split; [rewrite Hf, H1; now rewrite app_assoc|].
  split; [exists (gone ++ gone'); rewrite Hg, H2; now rewrite app_assoc|].
  split; [exact H3|]. split; [exact H4|]. split; [exact H5|].
  destruct (rejected s); [exact H6|].
  destruct H6 as (Hs & Hall & Hleft). split; [exact Hs|]. split; [exact Hall|].
  intros Hlimit. destruct Hleft as [E | E]; [|exact E].
  rewrite (Hempty Hlimit E) in H2. symmetry in H2. apply app_eq_nil in H2. tauto.
Qed.

(** When every call comes to an end, the promise is settled in as many
    turns as the calls have stretches, in whatever order they are taken. *)
Lemma event_loop_settles worker (schedule : list nat) :
  forall (queue : list jsstr) (running : list call) (w : World),
    Forall (fun c => final c <> None) running ->
    Forall (fun item => final (worker item) <> None) (filter truthy queue) ->
    (list_sum (map stretches running)
     + list_sum (map (fun item => stretches (worker item)) (filter truthy queue))
     <= length schedule)%nat ->
    event_loop worker schedule queue running w <> None.
Proof.
  induction schedule as [|n later IH]; intros queue running w Hrun Hqueue Hlen.
  - destruct running as [|c0 cs]; [discriminate|].
    pose proof (stretches_positive c0). cbn [map list_sum fold_right length] in Hlen. unfold list_sum in *; lia.
  - destruct running as [|c0 cs]; [discriminate|].
    cbn [event_loop]. unfold resume.
    destruct (@resumed_call (c0 :: cs) n) as (c & after & Eskip & Esplit); [discriminate|].
    rewrite Eskip.
    set (before := firstn (n mod length (c0 :: cs)) (c0 :: cs)) in *.
    rewrite Esplit in Hrun, Hlen.
    apply Forall_app in Hrun. destruct Hrun as [Hb Hrest].
    inversion Hrest as [|? ? Hc Ha]; subst.
    rewrite map_app, list_sum_app in Hlen. cbn [map list_sum fold_right length] in Hlen.
    destruct c as [r next | written [[]|e] | ]; cbn [final stretches] in *.
    + apply IH.
      * apply Forall_app. split; [exact Hb|]. now constructor.
      * exact Hqueue.
      * rewrite map_app, list_sum_app. cbn [map list_sum fold_right]. unfold list_sum in *; lia.
    + destruct (next_call worker queue) as [queue' [c'|]] eqn:En.
      * destruct (next_call_some _ _ En) as (skipped & item & Hq & -> & Hfilter).
        rewrite Hfilter in Hqueue, Hlen. inversion Hqueue; subst.
        cbn [map list_sum fold_right] in Hlen. apply IH.
        -- apply Forall_app. split; [exact Hb|]. now constructor.
        -- assumption.
        -- rewrite map_app, list_sum_app. cbn [map list_sum fold_right]. unfold list_sum in *; lia.
      * destruct (next_call_none _ _ En) as [-> Hfilter]. apply IH.
        -- apply Forall_app. now split.
        -- constructor.
        -- rewrite map_app, list_sum_app. cbn [filter map list_sum fold_right]. unfold list_sum in *; lia.
    + discriminate.
    + congruence.
Qed.

Lemma runQueue_settles worker (items : list jsstr) (limit : nat)
      (schedule : list nat) (w : World) :
  Forall (fun item => final (worker item) <> None) (filter truthy items) ->
  (list_sum (map (fun item => stretches (worker item)) (filter truthy items))
   <= length schedule)%nat ->
  runQueue worker items limit schedule w <> None.
Proof.
  intros Hall Hlen. unfold runQueue.
  destruct (start_workers worker items limit) as [queue running] eqn:Es.
  destruct (@start_workers_spec worker limit _ _ _ Es) as (taken & -> & Hf & _).
  rewrite Hf in Hall, Hlen. apply Forall_app in Hall. destruct Hall as [Ht Hq].
  rewrite map_app, list_sum_app in Hlen.
  apply event_loop_settles.
  - apply Forall_forall. intros c Hc. apply in_map_iff in Hc.
    destruct Hc as (item & <- & Hin). rewrite Forall_forall in Ht. now apply Ht.
  - exact Hq.
  - now rewrite map_map.
Qed.

(** A queue of items for each of which the call of the worker function
    returns, having written one file, is drained by any number of workers,
    in whatever order their calls are resumed, and every item has its file,
    in the order in which the calls end. *)
Lemma runQueue_drains worker (artifact : jsstr -> jsstr * jsstr -> Prop)
      (items : list jsstr) (limit : nat) (schedule : list nat) (w : World) :
  (1 <= limit)%nat ->
  Forall (fun item => truthy item = true) items ->
  Forall (fun item => exists entry,
              final (worker item) = Some ([entry], Ok tt) /\ artifact item entry) items ->
  (list_sum (map (fun item => stretches (worker item)) items) <= length schedule)%nat ->
  exists w' order new,
    runQueue worker items limit schedule w
    = Some {| rejected := None; queue_left := []; calls_pending := 0; world_then := w' |}
    /\ Permutation order items
    /\ files w' = files w ++ new
    /\ Forall2 artifact order new.
Proof.
  intros Hlimit Htruthy Hall Hlen.
  assert (Hfilter : filter truthy items = items).
  { clear - Htruthy. induction items as [|x l IH]; [reflexivity|].
    inversion Htruthy; subst. cbn [filter]. rewrite H1. f_equal. now apply IH. }
  destruct (runQueue worker items limit schedule w) as [s|] eqn:E.
  - destruct (@runQueue_accounts worker items limit schedule w s E)
      as (taken & finished & still & H1 & _ & H3 & H4 & H5 & H6).
    rewrite Hfilter in H1.
    assert (Hin : forall item, In item finished -> In item items).
    { intros item Hi. rewrite H1. apply in_or_app. left.
      apply (Permutation_in _ (Permutation_sym H3)). apply in_or_app. now left. }
    rewrite Forall_forall in Hall.
    destruct s as [[e|] left pending w']; cbn [rejected queue_left calls_pending world_then] in *.
    + destruct H6 as (pre & item & -> & _ & [written Hthrow]).
      destruct (Hall item) as (entry & Hok & _);
        [apply Hin, in_or_app; right; now left|].
      congruence.
    + destruct H6 as (-> & _ & Hleft). specialize (Hleft Hlimit). subst left.
      cbn [length filter] in *. subst pending.
      rewrite !app_nil_r in *. subst taken.
      assert (Hnew : exists new,
                 concat (map (written_by worker) finished) = new
                 /\ Forall2 artifact finished new).
      { clear - Hall Hin. induction finished as [|item rest IH].
        - exists []. split; [reflexivity | constructor].
        - destruct IH as (new & Hn & Hf); [intros x Hx; apply Hin; now right|].
          destruct (Hall item) as (entry & Hok & Hart); [apply Hin; now left|].
          exists (entry :: new). cbn [map concat]. unfold written_by at 1.
          rewrite Hok, Hn. split; [reflexivity | now constructor]. }
      destruct Hnew as (new & Hn & Hf).
      exists w', finished, new.
      split; [reflexivity|]. split; [now apply Permutation_sym|].
      split; [now rewrite H5, Hn | exact Hf].
  - exfalso. revert E. apply runQueue_settles; rewrite Hfilter; [|exact Hlen].
    apply Forall_forall. intros item Hi. rewrite Forall_forall in Hall.
    destruct (Hall item Hi) as (entry & Hok & _). congruence.
Qed.

(** The call of [processSinglePDF] on a document that settles: its requests,
    then its one artifact. *)
Lemma Index_call_of_settled toUpperCase env (fuel : nat) (file : jsstr) :
  settles toUpperCase env fuel file ->
  exists entry,
    final (Index.call_processSinglePDF toUpperCase env fuel file) = Some ([entry], Ok tt)
    /\ artifact_of toUpperCase env fuel file entry.
Proof.
  intros Hs.
  destruct (Index_processSinglePDF_one_artifact Hs) as (entry & we & Hart & Hfiles & Hrun).
  exists entry. split; [|exact Hart].
  unfold Index.call_processSinglePDF, call_of. rewrite (Hrun empty_world).
  rewrite extend_empty_l, final_of_sends, Hfiles. reflexivity.
Qed.

(** C3, as the code has it.  For a batch of file names (none empty, as
    directory entries are) handed to at least one worker: if the processing
    of every document comes to an end, and the error record of every document
    whose processing throws can be written, then, in whatever order the event
    loop resumes the calls of the workers, the promise of [runQueue] is
    fulfilled once every stretch of every call has had its turn, the queue is
    drained, no call is pending, and the output directory has received one
    file for each document, in the order in which the calls ended: the
    transcript of a document whose [try] body returned, or the error record,
    with the stack of the exception, of a document whose body threw
    (extraction, OCR, reconstruction or the write of the transcript), in
    which case the body left no file of its own. *)
Theorem C3_one_artifact_per_document
        (toUpperCase : jsstr -> jsstr) (env : Env) (fuel : nat)
        (pdfFiles : list jsstr) (CONCURRENCY : nat) (schedule : list nat) (w : World) :
  (1 <= CONCURRENCY)%nat ->
  Forall (fun f => truthy f = true) pdfFiles ->
  Forall (settles toUpperCase env fuel) pdfFiles ->
  (list_sum (map (fun f => stretches (Index.call_processSinglePDF toUpperCase env fuel f))
                 pdfFiles)
   <= length schedule)%nat ->
  exists w' order new,
    Index.main toUpperCase env fuel pdfFiles CONCURRENCY schedule w
    = Some {| rejected := None; queue_left := []; calls_pending := 0; world_then := w' |}
    /\ Permutation order pdfFiles
    /\ files w' = files w ++ new
    /\ Forall2 (artifact_of toUpperCase env fuel) order new.
Proof.
  intros Hc Htruthy Hsettle Hlen. unfold Index.main.
  apply runQueue_drains; try assumption.
  eapply Forall_impl; [|exact Hsettle].
  intros f Hf. now apply Index_call_of_settled.
Qed.

(** With one worker, the write error of document [a] is caught once, in the
    [try]; the write of its error record throws again, out of
    [processSinglePDF]: the promise of the worker is rejected, and with it
    the promise of [runQueue], while [b.pdf] and [c.pdf] are in the queue and
    the output directory is empty, although [b.pdf] alone gets its
    transcript.  With two workers the promise is rejected just the same,
    while the call on [b.pdf] is pending and [c.pdf] is in the queue. *)
Lemma C3_failed_error_record_stops_the_batch :
  Index.main toUpperCase_ascii locked_env 5 [js "a.pdf"; js "b.pdf"; js "c.pdf"] 1
    [0; 0; 0]%nat empty_world
  = Some {| rejected := Some EACCES; queue_left := [js "b.pdf"; js "c.pdf"];
            calls_pending := 0; world_then := empty_world |}
  /\ Index.main toUpperCase_ascii locked_env 5 [js "a.pdf"; js "b.pdf"; js "c.pdf"] 2
       [0; 0; 0]%nat empty_world
     = Some {| rejected := Some EACCES; queue_left := [js "c.pdf"];
               calls_pending := 1; world_then := empty_world |}
  /\ match Index.main toUpperCase_ascii locked_env 5 [js "b.pdf"] 1 [0]%nat empty_world with
     | Some s =>
         rejected s = None /\ queue_left s = [] /\ calls_pending s = 0%nat
         /\ map fst (files (world_then s)) = [js "./output/b.txt"]
     | None => False
     end.
Proof. vm_compute. repeat split; reflexivity. Qed.

Lemma C3_one_artifact_witness :
  exists w' order new,
    Index.main toUpperCase_ascii unreadable_env 5 [js "a.pdf"; js "report.pdf"] 2
      [1; 0]%nat empty_world
    = Some {| rejected := None; queue_left := []; calls_pending := 0; world_then := w' |}
    /\ Permutation order [js "a.pdf"; js "report.pdf"]
    /\ files w' = files empty_world ++ new
    /\ Forall2 (artifact_of toUpperCase_ascii unreadable_env 5) order new.
Proof.
  apply (@C3_one_artifact_per_document toUpperCase_ascii unreadable_env 5
           [js "a.pdf"; js "report.pdf"] 2 [1; 0]%nat empty_world).
  - lia.
  - repeat constructor.
  - repeat constructor.
    + intros H. vm_compute in H. discriminate H.
    + intros H. vm_compute in H. discriminate H.
  - vm_compute. lia.
Defined.

(** In that run the call on [report.pdf] is resumed first: its transcript is
    written before the error record of [a.pdf], whose file could not be
    read. *)
Lemma unreadable_document_gets_its_error_record :
  match Index.main toUpperCase_ascii unreadable_env 5 [js "a.pdf"; js "report.pdf"] 2
          [1; 0]%nat empty_world with
  | Some s =>
      rejected s = None
      /\ map fst (files (world_then s)) = [js "./output/report.txt"; js "./output/a.error.txt"]
      /\ map snd (skipn 1 (files (world_then s))) = [stack ENOENT]
  | None => False
  end.
Proof. vm_compute. repeat split; reflexivity. Qed.

(** ** The pages of the output *)

Lemma In_mapi (A B : Type) (f : nat -> A -> B) (arr : list A) (y : B) :
  forall start,
    In y (mapi f start arr)
    <-> exists i x, nth_error arr i = Some x /\ y = f (start + i)%nat x.
Proof.
  induction arr as [|a arr IH]; intros start; simpl.
  - split; [tauto|]. intros (i & x & H & _). destruct i; discriminate.
  - rewrite IH. split.
    + intros [<- | (i & x & H & ->)].
      * exists 0%nat, a. rewrite Nat.add_0_r. auto.
      * exists (S i), x. split; [exact H | f_equal; lia].
    + intros ([|i] & x & H & ->); simpl in H.
      * inversion H; subst. left. now rewrite Nat.add_0_r.
      * right. exists i, x. split; [exact H | f_equal; lia].
Qed.

(** In [index.js] a page of the output carries its position in the array
    that [cleanPages] was given, whatever number the extractor put on it. *)
Lemma Index_cleanPages_numbers_by_position toUpperCase (pages : list Page.t)
      (p : Index.Cleaned.t) :
  In p (Index.cleanPages toUpperCase pages) ->
  exists i raw, nth_error pages i = Some raw /\ Index.Cleaned.pageNumber p = (i + 1)%nat.
Proof.
  unfold Index.cleanPages. intros H. apply filter_In in H. destruct H as [H _].
  apply In_mapi in H. destruct H as (i & raw & Hn & ->).
  exists i, raw. split; [exact Hn | reflexivity].
Qed.

(** In [part_000] a page of the output keeps the number the extractor put
    on it. *)
Lemma Rev0_processedPages_keep_number clean_text (pages : list Page.t) (p : Page.t) :
  In p (Rev0.processedPages clean_text pages) ->
  exists raw, In raw pages /\ Page.page p = Page.page raw.
Proof.
  unfold Rev0.processedPages. intros H. apply filter_In in H. destruct H as [H _].
  apply in_map_iff in H. destruct H as (raw & <- & Hin).
  exists raw. split; [exact Hin | reflexivity].
Qed.

(** C5: the page numbers of the output of an OCR extraction have to be the
    ones the backend reported.  [extractAzure] carries them in [page], and
    [part_000] prints them; [cleanPages] of [index.js] drops them and numbers
    the pages by position: the pages the backend reported as 3 and 4 come out
    as 1 and 2, in the cleaned pages and in the transcript. *)
Theorem C5_index_numbers_ocr_pages_by_position :
  match Index.extractAzure ocr_env 5 (path_join_input (js "scan.pdf")) empty_world with
  | Some (Ok pages, _) =>
      map Page.page pages = [3; 4]%nat
      /\ map Index.Cleaned.pageNumber (Index.cleanPages toUpperCase_ascii pages)
         = [1; 2]%nat
      /\ map Page.page (Rev0.processedPages (fun s => s) pages) = [3; 4]%nat
  | _ => False
  end
  /\ match Index.processSinglePDF toUpperCase_ascii ocr_env 5 (js "scan.pdf") empty_world with
     | Some (Ok _, w') =>
         files w'
         = [(js "./output/scan.txt",
             Index.transcript ocr_env (js "scan.pdf") (js "azure")
               [ {| Index.Cleaned.pageNumber := 1; Index.Cleaned.text := page_with_text |};
                 {| Index.Cleaned.pageNumber := 2; Index.Cleaned.text := page_with_text |} ])]
     | _ => False
     end.
Proof. vm_compute. repeat split; reflexivity. Qed.

(** In [index.js] the cleaned text of [footer_page] has 50 code units, the
    first of them the space that the footer left behind, and the page is
    dropped. *)
Lemma C6_cleaned_page_of_50_is_dropped :
  Index.Cleaned.text (Index.clean_page toUpperCase_ascii 0 footer_page)
  = js " the committee met on mondays and agreed a budget."
  /\ length (Index.Cleaned.text (Index.clean_page toUpperCase_ascii 0 footer_page)) = 50%nat
  /\ Index.cleanPages toUpperCase_ascii [footer_page] = [].
Proof. vm_compute. repeat split; reflexivity. Qed.

(** C6, as the code has it.  In [index.js] a page is in the output exactly
    when its cleaned text, with the white space at its two ends left out, has
    at least [MIN_CHARS_PER_PAGE] (50) code units.  In [part_000] a page is
    in the output exactly when its cleaned text has more than 10 code
    units. *)
Theorem C6_kept_pages
        (toUpperCase : jsstr -> jsstr) (clean_text : jsstr -> jsstr)
        (pages : list Page.t) (i : nat) (page : Page.t) :
  nth_error pages i = Some page ->
  (In (Index.clean_page toUpperCase i page) (Index.cleanPages toUpperCase pages)
   <-> (50 <= length (trim (Index.Cleaned.text (Index.clean_page toUpperCase i page))))%nat)
  /\ (In {| Page.page := Page.page page; Page.text := clean_text (Page.text page) |}
         (Rev0.processedPages clean_text pages)
      <-> (10 < length (clean_text (Page.text page)))%nat).
Proof.
  intros Hn. split.
  - unfold Index.cleanPages. rewrite filter_In.
    unfold Index.MIN_CHARS_PER_PAGE. rewrite Nat.leb_le.
    split; [tauto|]. intros H. split; [|exact H].
    apply In_mapi. exists i, page. split; [exact Hn | reflexivity].
  - unfold Rev0.processedPages. rewrite filter_In. cbn [Page.text].
    rewrite Nat.ltb_lt.
    split; [tauto|]. intros H. split; [|exact H].
    apply in_map_iff. exists page. split; [reflexivity|].
    eapply nth_error_In; exact Hn.
Qed.

Lemma C6_kept_pages_witness :
  In (Index.clean_page toUpperCase_ascii 1
        {| Page.page := 2; Page.text := page_with_text |})
     (Index.cleanPages toUpperCase_ascii
        [footer_page; {| Page.page := 2; Page.text := page_with_text |}])
  /\ In {| Page.page := 2; Page.text := page_with_text |}
        (Rev0.processedPages (fun s => s)
           [footer_page; {| Page.page := 2; Page.text := page_with_text |}]).
Proof.
  destruct (@C6_kept_pages toUpperCase_ascii (fun s => s)
              [footer_page; {| Page.page := 2; Page.text := page_with_text |}] 1
              {| Page.page := 2; Page.text := page_with_text |} eq_refl) as [Hindex Hrev0].
  split.
  - apply Hindex. vm_compute. lia.
  - apply Hrev0. vm_compute. lia.
Defined.

(** * Properties of the rest of the programs *)

(** ** The lines of a document *)

Lemma drop_while_suffix (p : char -> bool) (s : jsstr) : suffix_of (drop_while p s) s.
Proof.
  induction s as [|c s IH]; simpl; [apply suffix_of_refl|].
  destruct (p c); [now apply suffix_of_tail | apply suffix_of_refl].
Qed.

Lemma drop_while_head (p : char -> bool) (s : jsstr) :
  match drop_while p s with
  | [] => True
  | c :: _ => p c = false
  end.
Proof.
  induction s as [|c s IH]; simpl; [exact I|].
  destruct (p c) eqn:E; [exact IH | exact E].
Qed.

Lemma drop_while_fixed (p : char -> bool) (s : jsstr) :
  match s with
  | [] => True
  | c :: _ => p c = false
  end ->
  drop_while p s = s.
Proof. destruct s as [|c s]; simpl; [reflexivity|]. now intros ->. Qed.

Lemma trim_Forall (P : char -> Prop) (s : jsstr) : Forall P s -> Forall P (trim s).
Proof.
  intros H. unfold trim. apply Forall_rev.
  eapply suffix_of_Forall; [apply drop_while_suffix|]. apply Forall_rev.
  eapply suffix_of_Forall; [apply drop_while_suffix | exact H].
Qed.

(** Trimming a trimmed text changes nothing. *)
Lemma trim_trim (s : jsstr) : trim (trim s) = trim s.
Proof.
  unfold trim.
  set (t := drop_while is_space s).
  set (u := drop_while is_space (rev t)).
  assert (Hhead : match rev u with
                  | [] => True
                  | c :: _ => is_space c = false
                  end).
  { destruct (drop_while_suffix is_space (rev t)) as [pre Hpre]. fold u in Hpre.
    destruct u as [|c0 u0] eqn:Eu; [exact I|].
    assert (Hrev : t = rev (c0 :: u0) ++ rev pre).
    { rewrite <- rev_app_distr, <- Hpre. now rewrite rev_involutive. }
    pose proof (drop_while_head is_space s) as Ht. fold t in Ht.
    destruct (rev (c0 :: u0)) as [|x xs] eqn:Er.
    - exfalso. apply (f_equal (@length char)) in Er.
      rewrite length_rev in Er. discriminate.
    - rewrite Hrev in Ht. exact Ht. }
  rewrite (drop_while_fixed is_space (rev u) Hhead), rev_involutive.
  pose proof (drop_while_head is_space (rev t)) as Hu. fold u in Hu.
  now rewrite (drop_while_fixed is_space u Hu).
Qed.

(** A code unit that always starts a match that is not empty is in no piece
    of a split. *)
Lemma split_loop_leaves_out (P : char -> bool) fl r :
  (forall prev c s', P c = false ->
     exists p rest, rexec_at fl r prev (c :: s') = Some (p, rest)
                    /\ (length rest < S (length s'))%nat) ->
  forall fuel prev s acc,
    (2 * length s + (if truthy acc then 1 else 0) < fuel)%nat ->
    Forall (fun c => P c = true) acc ->
    Forall (Forall (fun c => P c = true)) (split_loop fl r fuel prev s acc).
Proof.
  intros Hsep fuel. induction fuel as [|f IH]; intros prev s acc Hfuel Hacc; [lia|].
  simpl. destruct s as [|c s'].
  - constructor; [now apply Forall_rev | constructor].
  - assert (Hadv : P c = true ->
                   Forall (Forall (fun c => P c = true))
                          (split_loop fl r f (Some c) s' (c :: acc))).
    { intros Hc. apply IH; [simpl in *; destruct (truthy acc); lia | now constructor]. }
    destruct (rexec_at fl r prev (c :: s')) as [[p' rest]|] eqn:E.
    + pose proof (suffix_of_length (rexec_at_suffix _ _ _ _ E)) as Hle. simpl in Hle.
      destruct (P c) eqn:Hc.
      * destruct ((length rest =? length (c :: s'))%nat && negb (truthy acc)) eqn:Eb;
          [now apply Hadv|].
        constructor; [now apply Forall_rev|].
        apply IH; [|constructor].
        apply andb_false_iff in Eb. simpl in *.
        destruct Eb as [Eb | Eb].
        -- apply Nat.eqb_neq in Eb. destruct (truthy acc); lia.
        -- apply negb_false_iff in Eb. rewrite Eb in Hfuel. lia.
      * destruct (Hsep prev c s' Hc) as (p2 & rest2 & E2 & Hlt).
        rewrite E in E2. inversion E2; subst.
        assert (Eb : (length rest2 =? length (c :: s'))%nat = false)
          by (apply Nat.eqb_neq; simpl; lia).
        rewrite Eb. simpl andb. cbv iota.
        constructor; [now apply Forall_rev|].
        apply IH; [simpl in *; destruct (truthy acc); lia | constructor].
    + destruct (P c) eqn:Hc; [now apply Hadv|].
      destruct (Hsep prev c s' Hc) as (p2 & rest2 & E2 & _). congruence.
Qed.

Lemma split_leaves_out (P : char -> bool) fl r (s : jsstr) :
  (forall prev c s', P c = false ->
     exists p rest, rexec_at fl r prev (c :: s') = Some (p, rest)
                    /\ (length rest < S (length s'))%nat) ->
  Forall (Forall (fun c => P c = true)) (split fl r s).
Proof.
  intros Hsep. unfold split. destruct s as [|c s'].
  - destruct (rexec_at fl r None []); repeat constructor.
  - apply split_loop_leaves_out; [exact Hsep | simpl; lia | constructor].
Qed.

(** The lines that the constructors of the two revisions make of a text. *)
Lemma lines_of_text (text l : jsstr) :
  In l (filter truthy (map trim (split no_flags Index.re_newline text))) ->
  l <> [] /\ trim l = l /\ ~ In 10 l.
Proof.
  intros H. apply filter_In in H. destruct H as [H Ht].
  apply in_map_iff in H. destruct H as (piece & <- & Hin).
  split; [intros E; rewrite E in Ht; discriminate|].
  split; [apply trim_trim|].
  assert (Hpieces : Forall (Forall (fun c => negb (c =? 10) = true))
                           (split no_flags Index.re_newline text)).
  { apply split_leaves_out. intros prev c s' Hc.
    apply negb_false_iff, N.eqb_eq in Hc. subst c.
    exists (Some 10), s'. split; [reflexivity | lia]. }
  rewrite Forall_forall in Hpieces. specialize (Hpieces _ Hin).
  pose proof (trim_Forall Hpieces) as Hl. rewrite Forall_forall in Hl.
  intros H10. specialize (Hl _ H10). discriminate.
Qed.

(** X1: no line of a [TextStructureAnalyzer] is empty, none has white space
    at either end, and none holds a line feed, whatever the text: in
    [index.js] for the raw text, in [part_000] for the text that [he.decode]
    returns. *)
Theorem X1_lines_are_trimmed_and_not_empty
        (he_decode : jsstr -> jsstr) (rawText l : jsstr) :
  (In l (Index.lines (Index.new_TextStructureAnalyzer rawText)) ->
   l <> [] /\ trim l = l /\ ~ In 10 l)
  /\ (In l (Rev0.lines (Rev0.new_TextStructureAnalyzer he_decode rawText)) ->
      l <> [] /\ trim l = l /\ ~ In 10 l).
Proof.
  split; intros H.
  - now apply (lines_of_text rawText).
  - now apply (lines_of_text (he_decode rawText)).
Qed.

Lemma X1_lines_witness :
  (js "First line" <> [] /\ trim (js "First line") = js "First line"
   /\ ~ In 10 (js "First line"))
  /\ (js "second" ++ [13] ++ js "half" <> []
      /\ trim (js "second" ++ [13] ++ js "half") = js "second" ++ [13] ++ js "half"
      /\ ~ In 10 (js "second" ++ [13] ++ js "half")).
Proof.
  split.
  - apply (proj1 (X1_lines_are_trimmed_and_not_empty (fun s => s) ragged_text
                    (js "First line"))).
    vm_compute. left. reflexivity.
  - apply (proj2 (X1_lines_are_trimmed_and_not_empty (fun s => s) ragged_text
                    (js "second" ++ [13] ++ js "half"))).
    vm_compute. right. left. reflexivity.
Defined.

(** ** The blocks of a text *)

Lemma join_snoc (sep : jsstr) (l : list jsstr) (x : jsstr) :
  l <> [] -> join sep (l ++ [x]) = join sep l ++ sep ++ x.
Proof.
  induction l as [|a l IH]; [congruence|]. intros _.
  destruct l as [|b l]; [reflexivity|].
  change (join sep ((a :: b :: l) ++ [x])) with (a ++ sep ++ join sep ((b :: l) ++ [x])).
  rewrite IH by discriminate.
  change (join sep (a :: b :: l)) with (a ++ sep ++ join sep (b :: l)).
  now rewrite <- !app_assoc.
Qed.

(** Merging a line into the last one reads as pushing it, once the lines
    are joined by single spaces. *)
Lemma join_set_last (ls : list jsstr) (line : jsstr) :
  ls <> [] ->
  join SP (removelast ls ++ [last ls [] ++ SP ++ line]) = join SP ls ++ SP ++ line.
Proof.
  intros Hne.
  assert (H : forall (rl : list jsstr) (l : jsstr),
             join SP (rl ++ [l ++ SP ++ line]) = join SP (rl ++ [l]) ++ SP ++ line).
  { intros [|a rl] l; [reflexivity|].
    rewrite !join_snoc by discriminate. now rewrite <- !app_assoc. }
  rewrite H. do 2 f_equal. symmetry. now apply app_removelast_last.
Qed.

Lemma join_same_snoc (l1 l2 : list jsstr) (x : jsstr) :
  (l1 = [] <-> l2 = []) -> join SP l1 = join SP l2 ->
  join SP (l1 ++ [x]) = join SP (l2 ++ [x]).
Proof.
  intros Hiff Hj. destruct l1 as [|a l1].
  - rewrite (proj1 Hiff eq_refl). reflexivity.
  - destruct l2 as [|b l2]; [destruct Hiff as [_ H]; discriminate (H eq_refl)|].
    rewrite !join_snoc by discriminate. now rewrite Hj.
Qed.

Lemma last_type_snoc (blocks : list Index.Block.t) (b : Index.Block.t) :
  last_type (blocks ++ [b]) = Some (Index.Block.type b).
Proof. unfold last_type. now rewrite rev_app_distr. Qed.

Lemma alternate_snoc (blocks : list Index.Block.t) (b : Index.Block.t) :
  alternate blocks ->
  (last_type blocks = Some (Index.Block.type b) ->
   Index.Block.type b = Index.Block.header) ->
  alternate (blocks ++ [b]).
Proof.
  induction blocks as [|b1 rest IH]; intros Halt Hlast; [exact I|].
  destruct rest as [|b2 rest'].
  - simpl. split; [|exact I]. intros E. rewrite E. apply Hlast.
    unfold last_type. simpl. now rewrite E.
  - destruct Halt as [H12 Halt]. split; [exact H12|].
    apply IH; [exact Halt|].
    intros E. apply Hlast. unfold last_type in *. simpl in *.
    destruct (rev rest' ++ [b2]) eqn:Er; [destruct (rev rest'); discriminate|].
    exact E.
Qed.

Lemma Forall2_snoc (A B : Type) (P : A -> B -> Prop) (l1 : list A) (l2 : list B) a b :
  Forall2 P l1 l2 -> P a b -> Forall2 P (l1 ++ [a]) (l2 ++ [b]).
Proof. intros H Hab. apply Forall2_app; [exact H | now constructor]. Qed.

Lemma concat_snoc (runs : list (list jsstr)) (run : list jsstr) :
  concat (runs ++ [run]) = concat runs ++ run.
Proof. rewrite concat_app. simpl. now rewrite app_nil_r. Qed.

(** An open block that is not empty can be closed on its run. *)
Lemma close_open_run (cur : Index.Block.t) (run : list jsstr) :
  open_run cur run -> Index.Block.lines cur <> [] -> holds_run cur run.
Proof.
  intros (Hty & Hlv & Hiff & Hlist & Hjoin) Hne.
  split; [intros E; apply Hne; now apply Hiff|]. split; [exact Hne|].
  destruct (Index.Block.type cur) eqn:E; [congruence | auto | auto].
Qed.

Lemma header_holds_its_line (line : jsstr) :
  holds_run {| Index.Block.type := Index.Block.header;
               Index.Block.lines := [line];
               Index.Block.level := Some (Index.header_level line) |} [line].
Proof.
  split; [discriminate|]. split; [discriminate|]. simpl. exists line. auto.
Qed.

Lemma open_run_single (k : Index.Block.kind) (line : jsstr) :
  k <> Index.Block.header ->
  open_run {| Index.Block.type := k; Index.Block.lines := [line];
              Index.Block.level := None |} [line].
Proof.
  intros Hk. repeat split; simpl; auto; discriminate.
Qed.

Lemma open_run_empty :
  open_run (Index.Block.empty Index.Block.paragraph) [].
Proof. repeat split; simpl; auto; discriminate. Qed.

(** One iteration of the loop keeps the invariant. *)
Lemma loop_body_shape toUpperCase analyzer (done : list jsstr) (st : Index.loop_state)
      (i : Z) (line : jsstr) :
  shape_inv done st ->
  shape_inv (done ++ [line]) (Index.loop_body toUpperCase analyzer st i line).
Proof.
  intros (runs & run & Hdone & Hblocks & Hopen & Halt & Hlast & Hempty).
  destruct st as [blocks cur]. cbn [fst snd] in *.
  pose proof Hopen as (Hty & Hlv & Hiff & Hlist & Hjoin).
  assert (Hclose : Index.Block.lines cur <> [] ->
                   Forall2 holds_run (blocks ++ [cur]) (runs ++ [run])
                   /\ alternate (blocks ++ [cur])
                   /\ done = concat (runs ++ [run])).
  { intros Hne. split; [|split].
    - apply Forall2_snoc; [exact Hblocks | now apply close_open_run].
    - apply alternate_snoc; [exact Halt|]. intros E. contradiction.
    - now rewrite concat_snoc. }
  unfold Index.loop_body.
  destruct cur as [ty ls lv]. cbn [Index.Block.type Index.Block.lines Index.Block.level] in *.
  subst lv.
  destruct (Index.isHeaderLine toUpperCase analyzer line i);
    [|destruct (Index.isListItem line)].
  - (* a header line *)
    destruct ls as [|l0 ls']; cbn [length Nat.ltb Nat.leb].
    + assert (run = []) by now apply Hiff. subst run. rewrite app_nil_r in Hdone.
      exists (runs ++ [[line]]), []. cbn [fst snd].
      split; [now rewrite concat_snoc, app_nil_r, Hdone|].
      split; [apply Forall2_snoc; [exact Hblocks | apply header_holds_its_line]|].
      split; [apply open_run_empty|].
      split; [apply alternate_snoc; [exact Halt | reflexivity]|].
      rewrite last_type_snoc. cbn. split; [discriminate|].
      intros _. split; [reflexivity | discriminate].
    + destruct Hclose as (Hf & Ha & Hd); [discriminate|].
      exists ((runs ++ [run]) ++ [[line]]), []. cbn [fst snd].
      split; [now rewrite concat_snoc, app_nil_r, <- Hd|].
      split; [apply Forall2_snoc; [exact Hf | apply header_holds_its_line]|].
      split; [apply open_run_empty|].
      split; [apply alternate_snoc; [exact Ha | reflexivity]|].
      rewrite last_type_snoc. cbn. split; [discriminate|].
      intros _. split; [reflexivity | discriminate].
  - (* a list item *)
    destruct ty; [congruence | |].
    + (* into the open list *)
      destruct ls as [|l0 ls']; [destruct (Hempty eq_refl); discriminate|].
      cbn. exists runs, (run ++ [line]). cbn [fst snd].
      split; [now rewrite Hdone, app_assoc|].
      split; [exact Hblocks|].
      split.
      { unfold Index.Block.push_line. cbn.
        rewrite <- (Hlist eq_refl).
        repeat split; cbn; auto; try discriminate;
          intros E; destruct ls'; discriminate. }
      split; [exact Halt|]. split; [exact Hlast|].
      intros E. destruct ls'; discriminate.
    + destruct ls as [|l0 ls']; cbn.
      * assert (run = []) by now apply Hiff. subst run. rewrite app_nil_r in Hdone.
        exists runs, [line]. cbn [fst snd].
        split; [now rewrite Hdone|]. split; [exact Hblocks|].
        split; [apply open_run_single; discriminate|].
        split; [exact Halt|].
        split; [apply (Hempty eq_refl)|]. discriminate.
      * destruct Hclose as (Hf & Ha & Hd); [discriminate|].
        exists (runs ++ [run]), [line]. cbn [fst snd].
        split; [now rewrite <- Hd|]. split; [exact Hf|].
        split; [apply open_run_single; discriminate|].
        split; [exact Ha|].
        rewrite last_type_snoc. cbn. split; discriminate.
  - (* a plain line *)
    destruct ty; [congruence | |].
    + destruct ls as [|l0 ls']; [destruct (Hempty eq_refl); discriminate|].
      cbn. destruct Hclose as (Hf & Ha & Hd); [discriminate|].
      exists (runs ++ [run]), [line]. cbn [fst snd].
      split; [now rewrite <- Hd|]. split; [exact Hf|].
      split; [apply open_run_single; discriminate|].
      split; [exact Ha|].
      rewrite last_type_snoc. cbn. split; discriminate.
    + destruct ls as [|l0 ls'].
      * cbn. assert (run = []) by now apply Hiff. subst run. rewrite app_nil_r in Hdone.
        exists runs, [line]. cbn [fst snd].
        split; [now rewrite Hdone|]. split; [exact Hblocks|].
        split; [apply open_run_single; discriminate|].
        split; [exact Halt|]. split; [exact Hlast|]. discriminate.
      * cbn [Index.Block.kind_eqb andb length Nat.ltb Nat.leb
             Index.Block.type Index.Block.lines].
        assert (Hrun : run <> []).
        { intros E. apply Hiff in E. discriminate. }
        assert (Hne : l0 :: ls' <> []) by discriminate.
        exists runs, (run ++ [line]).
        destruct (Index.shouldMerge toUpperCase analyzer (last (l0 :: ls') []) line);
          cbn [fst snd];
          (split; [now rewrite Hdone, app_assoc|]);
          (split; [exact Hblocks|]);
          unfold Index.Block.set_last, Index.Block.push_line;
          cbn [Index.Block.type Index.Block.lines Index.Block.level];
          (split; [|split; [exact Halt|]; split; [exact Hlast|];
                    intros E; now apply snoc_not_nil in E]).
        -- repeat split; try discriminate;
             try (intros E; now apply snoc_not_nil in E).
           etransitivity; [apply (join_set_last line Hne)|].
           rewrite (join_snoc SP line Hrun). now rewrite Hjoin.
        -- repeat split; try discriminate;
             try (intros E; now apply snoc_not_nil in E).
           apply join_same_snoc; [exact Hiff | exact Hjoin].
Qed.

Lemma loop_shape toUpperCase analyzer (ls : list jsstr) :
  forall done st i,
    shape_inv done st ->
    shape_inv (done ++ ls) (Index.loop toUpperCase analyzer ls i st).
Proof.
  induction ls as [|line rest IH]; intros done st i H; simpl.
  - now rewrite app_nil_r.
  - replace (done ++ line :: rest) with ((done ++ [line]) ++ rest)
      by now rewrite <- app_assoc.
    apply IH. now apply loop_body_shape.
Qed.

Lemma shape_inv_init : shape_inv [] ([], Index.Block.empty Index.Block.paragraph).
Proof.
  exists [], []. cbn [fst snd]. split; [reflexivity|]. split; [constructor|].
  split; [apply open_run_empty|]. split; [exact I|].
  split; [discriminate|]. intros _. split; [reflexivity | discriminate].
Qed.

Lemma build_blocks_shape toUpperCase analyzer :
  exists runs,
    concat runs = Index.lines analyzer
    /\ Forall2 holds_run (Index.build_blocks toUpperCase analyzer) runs
    /\ alternate (Index.build_blocks toUpperCase analyzer).
Proof.
  pose proof (loop_shape toUpperCase analyzer (Index.lines analyzer) 0%Z shape_inv_init)
    as (runs & run & Hdone & Hblocks & Hopen & Halt & Hlast & Hempty).
  unfold Index.build_blocks.
  destruct (Index.loop toUpperCase analyzer (Index.lines analyzer) 0
              ([], Index.Block.empty Index.Block.paragraph)) as [blocks cur].
  cbn [fst snd app] in *.
  destruct (Index.Block.lines cur) as [|l0 ls'] eqn:E; cbn [length Nat.ltb Nat.leb].
  - exists runs. destruct Hopen as (_ & _ & Hiff & _).
    rewrite (proj1 Hiff E), app_nil_r in Hdone. auto.
  - exists (runs ++ [run]).
    split; [now rewrite concat_snoc|].
    split.
    + apply Forall2_snoc; [exact Hblocks|]. apply close_open_run; [exact Hopen|].
      rewrite E. discriminate.
    + apply alternate_snoc; [exact Halt|]. intros F. contradiction.
Qed.

(** X2: the blocks that [cleanNaturalText] builds cut the lines of the text
    into consecutive runs, none of them empty, one for each block and in
    their order.  A header block holds its one line, with the level that the
    length of the line gives; a list block holds its lines as they were; a
    paragraph block holds lines that, joined by single spaces, read as the
    lines of its run joined by single spaces.  So no line is lost, repeated or
    moved, and a merge adds nothing that the rendering of the paragraph would
    not add. *)
Theorem X2_blocks_cut_the_lines_into_runs
        (toUpperCase : jsstr -> jsstr) (analyzer : Index.TextStructureAnalyzer) :
  exists runs,
    concat runs = Index.lines analyzer
    /\ Forall2 holds_run (Index.build_blocks toUpperCase analyzer) runs.
Proof.
  destruct (build_blocks_shape toUpperCase analyzer) as (runs & H1 & H2 & _).
  now exists runs.
Qed.

(** X3: of two blocks in a row that [cleanNaturalText] builds, one at least
    is a header, or one is a list and the other a paragraph: a paragraph is
    closed by a header or a list item only, so plain lines that follow one
    another end up in one paragraph block, merged or not. *)
Theorem X3_blocks_alternate
        (toUpperCase : jsstr -> jsstr) (analyzer : Index.TextStructureAnalyzer) :
  alternate (Index.build_blocks toUpperCase analyzer).
Proof.
  destruct (build_blocks_shape toUpperCase analyzer) as (runs & _ & _ & H).
  exact H.
Qed.

(** ** The end of the reconstruction: blank lines and the two ends *)

(** A greedy [x*] for a pattern [x] of one code unit, at the end of a
    pattern: it takes the whole run. *)
Lemma star_single_greedy (fl : flags) (p : char -> bool)
      (ma : option char -> jsstr
            -> (option char -> jsstr -> option (option char * jsstr))
            -> option (option char * jsstr)) :
  (forall prev s k, ma prev s k = match s with
                                  | x :: s' => if p x then k (Some x) s' else None
                                  | [] => None
                                  end) ->
  forall n prev s,
    (length s < n)%nat ->
    exists p', star_loop ma (fun q s' => Some (q, s')) n prev s
               = Some (p', drop_while p s).
Proof.
  intros Hma n. induction n as [|n IH]; intros prev s Hn; [lia|].
  simpl. rewrite Hma. destruct s as [|x s']; [now exists prev|].
  simpl. destruct (p x).
  - assert (Hlt : (length s' <? S (length s'))%nat = true) by (apply Nat.ltb_lt; lia).
    rewrite Hlt. destruct (IH (Some x) s') as [p' E]; [simpl in Hn; lia|].
    rewrite E. now exists p'.
  - now exists prev.
Qed.

Lemma leading_lf_drop_while (s : jsstr) :
  leading_lf (drop_while is_lf s) = 0%nat.
Proof.
  induction s as [|c s IH]; [reflexivity|]. unfold is_lf in *. simpl.
  destruct (c =? 10) eqn:E; [exact IH|]. simpl. now rewrite E.
Qed.

(** [/\n{3,}/] at a position: it matches a run of three line feeds or more,
    the whole of it. *)
Lemma rexec_at_nl3 (prev : option char) (s : jsstr) :
  ((3 <= leading_lf s)%nat
   /\ exists p', rexec_at no_flags Index.re_nl3 prev s
                 = Some (p', drop_while is_lf s))
  \/ ((leading_lf s < 3)%nat /\ rexec_at no_flags Index.re_nl3 prev s = None).
Proof.
  unfold rexec_at, Index.re_nl3, char_eqb, is_lf.
  destruct s as [|c1 s]; [right; split; [simpl; lia | reflexivity]|].
  cbn [rmatch leading_lf drop_while canonicalize ignoreCase no_flags andb];
    unfold char_eqb.
  destruct (c1 =? 10) eqn:E1; [|right; split; [lia | reflexivity]].
  destruct s as [|c2 s]; [right; split; [simpl; lia | reflexivity]|].
  cbn [rmatch leading_lf drop_while canonicalize ignoreCase no_flags andb];
    unfold char_eqb.
  destruct (c2 =? 10) eqn:E2; [|right; split; [lia | reflexivity]].
  destruct s as [|c3 s]; [right; split; [simpl; lia | reflexivity]|].
  cbn [rmatch leading_lf drop_while canonicalize ignoreCase no_flags andb];
    unfold char_eqb.
  destruct (c3 =? 10) eqn:E3; [|right; split; [lia | reflexivity]].
  left. split; [lia|].
  apply (star_single_greedy no_flags is_lf); [|lia].
  intros q t k. destruct t; reflexivity.
Qed.

Lemma replace_nl3_loop (fuel : nat) :
  forall prev s,
    (length s < fuel)%nat ->
    no_lf3 (replace_loop no_flags Index.re_nl3 (LF ++ LF) fuel prev s) = true
    /\ (leading_lf (replace_loop no_flags Index.re_nl3 (LF ++ LF) fuel prev s)
        <= Nat.min 2 (leading_lf s))%nat.
Proof.
  induction fuel as [|f IH]; intros prev s Hf; [lia|].
  cbn [replace_loop].
  destruct (rexec_at_nl3 prev s) as [[H3 [p' E]] | [H3 E]]; rewrite E.
  - pose proof (drop_while_length is_lf s) as Hlen.
    assert (Hshort : (length (drop_while is_lf s) < length s)%nat).
    { destruct s as [|c s']; [simpl in H3; lia|].
      cbn [drop_while leading_lf length] in *. unfold is_lf at 1.
      destruct (c =? 10); [|lia].
      pose proof (drop_while_length is_lf s'). lia. }
    apply Nat.ltb_lt in Hshort. rewrite Hshort.
    destruct (IH p' (drop_while is_lf s)) as [Hno Hlead];
      [apply Nat.ltb_lt in Hshort; lia|].
    rewrite leading_lf_drop_while in Hlead.
    set (out := replace_loop no_flags Index.re_nl3 (LF ++ LF) f p'
                  (drop_while is_lf s)) in *.
    assert (H0 : leading_lf out = 0%nat) by lia.
    cbn [LF app no_lf3 leading_lf N.eqb Pos.eqb]. rewrite H0, Hno.
    split; [reflexivity | lia].
  - destruct s as [|c s']; [split; [reflexivity | simpl; lia]|].
    destruct (IH (Some c) s') as [Hno Hlead]; [simpl in Hf; lia|].
    set (out := replace_loop no_flags Index.re_nl3 (LF ++ LF) f (Some c) s') in *.
    cbn [no_lf3 leading_lf] in *. rewrite Hno.
    destruct (c =? 10).
    + split; [|lia]. rewrite andb_true_r. apply Nat.ltb_lt. lia.
    + split; [reflexivity | lia].
Qed.

Lemma no_lf3_sound (s : jsstr) :
  no_lf3 s = true -> forall pre post, s <> pre ++ LF ++ LF ++ LF ++ post.
Proof.
  intros H pre. revert s H. induction pre as [|c pre IH]; intros s H post E; subst s.
  - simpl in H. discriminate.
  - change ((c :: pre) ++ LF ++ LF ++ LF ++ post)
      with (c :: (pre ++ LF ++ LF ++ LF ++ post)) in H.
    cbn [no_lf3] in H. apply andb_true_iff in H. destruct H as [_ H].
    exact (IH _ H post eq_refl).
Qed.

(** What [trim] returns is a stretch of its argument. *)
Lemma trim_stretch (s : jsstr) : exists a b, s = a ++ trim s ++ b.
Proof.
  unfold trim.
  destruct (drop_while_suffix is_space s) as [a Ha].
  destruct (drop_while_suffix is_space (rev (drop_while is_space s))) as [b Hb].
  exists a, (rev b). rewrite <- rev_app_distr, <- Hb, rev_involutive. exact Ha.
Qed.

(** The last two steps of both reconstructions: [.replace(/\n{3,}/g, '\n\n')]
    and [.trim()]. *)
Lemma squeezed_and_trimmed (text : jsstr) :
  let out := trim (replace_all no_flags Index.re_nl3 (LF ++ LF) text) in
  trim out = out /\ forall pre post, out <> pre ++ LF ++ LF ++ LF ++ post.
Proof.
  cbv zeta. split; [apply trim_trim|].
  intros pre post E.
  destruct (trim_stretch (replace_all no_flags Index.re_nl3 (LF ++ LF) text))
    as (a & b & Hab).
  rewrite E in Hab.
  destruct (@replace_nl3_loop (S (length text)) None text (Nat.lt_succ_diag_r _))
    as [Hno _].
  apply (no_lf3_sound Hno (a ++ pre) (post ++ b)).
  unfold replace_all in Hab. rewrite Hab. now rewrite <- !app_assoc.
Qed.

(** X4: the text that [cleanNaturalText] of [index.js] returns, and the text
    that [processContent] of [part_000] returns, has no white space at either
    end and nowhere three line feeds in a row, whatever the input and
    whatever the case mapping, the entity decoder and the sentence tokenizer
    do. *)
Theorem X4_reconstructed_text_is_squeezed_and_trimmed
        (toUpperCase he_decode : jsstr -> jsstr) (getSentences : jsstr -> list jsstr)
        (rawText : option jsstr) :
  (trim (Index.cleanNaturalText toUpperCase rawText)
   = Index.cleanNaturalText toUpperCase rawText
   /\ forall pre post,
       Index.cleanNaturalText toUpperCase rawText <> pre ++ LF ++ LF ++ LF ++ post)
  /\ (trim (Rev0Text.processContent toUpperCase he_decode getSentences rawText)
      = Rev0Text.processContent toUpperCase he_decode getSentences rawText
      /\ forall pre post,
          Rev0Text.processContent toUpperCase he_decode getSentences rawText
          <> pre ++ LF ++ LF ++ LF ++ post).
Proof.
  assert (Hempty : trim [] = []
                   /\ forall pre post : jsstr, [] <> pre ++ LF ++ LF ++ LF ++ post).
  { split; [reflexivity|]. intros [|c pre] post; discriminate. }
  unfold Index.cleanNaturalText, Rev0Text.processContent.
  destruct rawText as [s|]; [|split; exact Hempty].
  destruct (negb (truthy s)); [split; exact Hempty|].
  split; apply squeezed_and_trimmed.
Qed.

(** ** Lines that end in a colon *)

(** [/c$/.test(s)] looks at the last code unit. *)
Lemma test_chr_eol (c : char) (s : jsstr) :
  forall prev, test_from no_flags (Seq (Chr c) Eol) prev s
               = match s with
                 | [] => false
                 | _ => last s 0 =? c
                 end.
Proof.
  induction s as [|x s IH]; intros prev; [reflexivity|].
  simpl. unfold rexec_at. simpl. unfold char_eqb, canonicalize. simpl.
  destruct s as [|y s'].
  - simpl. destruct (x =? c); reflexivity.
  - rewrite IH. simpl. destruct (x =? c); reflexivity.
Qed.

(** X5: in [index.js] a line of less than 100 code units that ends in a
    colon is a header line, at every index from [-1] to [lines.length]
    (among them the positions of the lines, which [cleanNaturalText] calls
    [isHeaderLine] with; further out the reads of the neighbours throw) and
    whatever else the line holds: the colon weighs 2 and the missing end
    punctuation 1, and no factor takes anything away. *)
Theorem X5_index_colon_line_is_header
        (toUpperCase : jsstr -> jsstr) (this : Index.TextStructureAnalyzer)
        (line : jsstr) (index : Z) :
  (-1 <= index <= Z.of_nat (length (Index.lines this)))%Z ->
  line <> [] ->
  last line 0 = 58 ->
  (length line < 100)%nat ->
  Index.isHeaderLine toUpperCase this line index = true.
Proof.
  intros _ Hne Hlast Hlen.
  assert (Hcolon : test no_flags Index.re_colon_end line = true).
  { unfold test, Index.re_colon_end. rewrite test_chr_eol.
    destruct line; [congruence|]. rewrite Hlast. reflexivity. }
  assert (Hpunct : Index.endsWithPunctuation line = false).
  { rewrite endsWithPunctuation_last. destruct line; [congruence|].
    rewrite Hlast. reflexivity. }
  unfold Index.isHeaderLine. rewrite Hcolon, Hpunct.
  apply Nat.ltb_lt in Hlen. rewrite Hlen.
  rewrite ?andb_true_r. cbn [negb andb].
  repeat match goal with
         | |- context [if ?c then _ else _] => destruct c
         end; reflexivity.
Qed.

Lemma X5_index_colon_line_witness :
  Index.isHeaderLine toUpperCase_ascii
    (Index.new_TextStructureAnalyzer (js "and then he said:" ++ LF ++ js "no."))
    (js "and then he said:") 0%Z = true.
Proof.
  apply (@X5_index_colon_line_is_header toUpperCase_ascii
           (Index.new_TextStructureAnalyzer (js "and then he said:" ++ LF ++ js "no."))
           (js "and then he said:") 0%Z).
  - vm_compute. split; discriminate.
  - discriminate.
  - reflexivity.
  - vm_compute. lia.
Defined.

(** ** The page numbers of [cleanPages] *)

Lemma Index_cleanPages_numbers_from toUpperCase (pages : list Page.t) :
  forall start,
    let numbers :=
      map Index.Cleaned.pageNumber
          (filter (fun p => (Index.MIN_CHARS_PER_PAGE
                             <=? length (trim (Index.Cleaned.text p)))%nat)
                  (mapi (Index.clean_page toUpperCase) start pages)) in
    StronglySorted lt numbers
    /\ Forall (fun n => (start < n <= start + length pages)%nat) numbers.
Proof.
  induction pages as [|page rest IH]; intros start; cbv zeta.
  - split; constructor.
  - destruct (IH (S start)) as [Hs Hb]. cbn [mapi filter].
    assert (Hb' : Forall (fun n => (start < n <= start + length (page :: rest))%nat)
                    (map Index.Cleaned.pageNumber
                       (filter (fun p => (Index.MIN_CHARS_PER_PAGE
                                          <=? length (trim (Index.Cleaned.text p)))%nat)
                          (mapi (Index.clean_page toUpperCase) (S start) rest)))).
    { eapply Forall_impl; [|exact Hb]. cbn [length]. intros n Hn. cbv beta in Hn. lia. }
    destruct (Index.MIN_CHARS_PER_PAGE
              <=? length (trim (Index.Cleaned.text (Index.clean_page toUpperCase start page))))%nat.
    + cbn [map Index.clean_page Index.Cleaned.pageNumber]. split.
      * constructor; [exact Hs|].
        eapply Forall_impl; [|exact Hb]. intros n Hn. cbv beta in Hn. lia.
      * constructor; [cbn [length]; lia | exact Hb'].
    + split; [exact Hs | exact Hb'].
Qed.

(** X6: the page numbers of the pages that [cleanPages] of [index.js]
    returns go up strictly, and lie between 1 and the number of pages it was
    given: no two pages of a transcript carry the same number. *)
Theorem X6_index_page_numbers_go_up
        (toUpperCase : jsstr -> jsstr) (pages : list Page.t) :
  StronglySorted lt (map Index.Cleaned.pageNumber (Index.cleanPages toUpperCase pages))
  /\ Forall (fun n => (1 <= n <= length pages)%nat)
            (map Index.Cleaned.pageNumber (Index.cleanPages toUpperCase pages)).
Proof.
  destruct (Index_cleanPages_numbers_from toUpperCase pages 0) as [Hs Hb].
  split; [exact Hs|].
  eapply Forall_impl; [|exact Hb]. intros n Hn. cbv beta in Hn. lia.
Qed.

(** ** The local extraction *)

Lemma seq_strongly_sorted (n : nat) : forall a, StronglySorted lt (seq a n).
Proof.
  induction n as [|n IH]; intros a; simpl; constructor; [apply IH|].
  apply Forall_forall. intros x Hx. apply in_seq in Hx. lia.
Qed.

Lemma filter_strongly_sorted (A : Type) (g : A -> nat) (q : A -> bool) (l : list A) :
  StronglySorted lt (map g l) -> StronglySorted lt (map g (filter q l)).
Proof.
  induction l as [|x l IH]; intros H; [exact H|].
  simpl in H. inversion H as [|? ? Hs Hall]; subst.
  cbn [filter]. destruct (q x); [|now apply IH].
  cbn [map]. constructor; [now apply IH|].
  rewrite Forall_forall in *. intros n Hn. apply Hall.
  apply in_map_iff in Hn. destruct Hn as (y & <- & Hy).
  apply in_map. apply filter_In in Hy. tauto.
Qed.

Lemma length_mapi (A B : Type) (f : nat -> A -> B) (l : list A) :
  forall start, length (mapi f start l) = length l.
Proof. induction l as [|x l IH]; intros start; simpl; [reflexivity | now rewrite IH]. Qed.

(** Pages numbered by [(x, i) => ({ page: i + 1, ... })]. *)
Lemma mapi_page_numbers (A : Type) (f : nat -> A -> Page.t) (l : list A) :
  (forall i x, Page.page (f i x) = (i + 1)%nat) ->
  forall start, map Page.page (mapi f start l) = seq (start + 1) (length l).
Proof.
  intros Hf. induction l as [|x l IH]; intros start; [reflexivity|].
  cbn [mapi map length seq]. rewrite Hf, IH. reflexivity.
Qed.

(** X7: [extractPdfParse] sends no request and writes no file, and it comes
    to an end.  It throws what reading the file or the parser throws.  The
    pages it returns are numbered by position from 1: in [part_000] with the
    numbers 1 to n, in [index.js], where the blank pieces of a text cut at
    form feeds are left out, with numbers that go up strictly. *)
Theorem X7_local_extraction_numbers_by_position
        (env : Env) (pdfPath : jsstr) (w : World) :
  (exists r,
      Index.extractPdfParse env pdfPath w = Some (r, w)
      /\ match r with
         | Ok pages =>
             StronglySorted lt (map Page.page pages)
             /\ Forall (fun n => (1 <= n)%nat) (map Page.page pages)
         | Throw e =>
             readFileSync env pdfPath = Throw e
             \/ exists buffer, readFileSync env pdfPath = Ok buffer
                               /\ getText env buffer = Throw e
         end)
  /\ (exists r,
         Rev0.extractPdfParse env pdfPath w = Some (r, w)
         /\ match r with
            | Ok pages => map Page.page pages = seq 1 (length pages)
            | Throw e =>
                readFileSync env pdfPath = Throw e
                \/ exists buffer, readFileSync env pdfPath = Ok buffer
                                  /\ getText env buffer = Throw e
            end).
Proof.
  assert (Hpos : forall n l, Forall (fun n => (1 <= n)%nat) (seq (S n) l)).
  { intros n l. apply Forall_forall. intros x Hx. apply in_seq in Hx. lia. }
  split.
  - unfold Index.extractPdfParse, bind, lift, ret.
    destruct (readFileSync env pdfPath) as [buffer|e]; [|exists (Throw e); auto].
    destruct (getText env buffer) as [result|e] eqn:E;
      [|exists (Throw e); split; [reflexivity|]; right; now exists buffer].
    set (by_formfeed :=
           filter (fun p => (0 <? length (trim (Page.text p)))%nat)
                  (mapi (fun i text => {| Page.page := i + 1; Page.text := text |}) 0
                        (split no_flags (Chr 12) (Parsed.text result)))).
    assert (Hff : StronglySorted lt (map Page.page by_formfeed)
                  /\ Forall (fun n => (1 <= n)%nat) (map Page.page by_formfeed)).
    { split.
      - apply filter_strongly_sorted. rewrite mapi_page_numbers by reflexivity.
        apply seq_strongly_sorted.
      - apply Forall_forall. intros n Hn.
        apply in_map_iff in Hn. destruct Hn as (p & <- & Hp).
        apply filter_In in Hp. destruct Hp as [Hp _].
        apply In_mapi in Hp. destruct Hp as (i & x & _ & ->). simpl. lia. }
    destruct (Parsed.pages result) as [pages|]; [|exists (Ok by_formfeed); auto].
    destruct (0 <? length pages)%nat; [|exists (Ok by_formfeed); auto].
    eexists. split; [reflexivity|]. cbv beta iota.
    rewrite mapi_page_numbers by reflexivity.
    split; [apply seq_strongly_sorted | apply Hpos].
  - unfold Rev0.extractPdfParse, bind, lift, ret.
    destruct (readFileSync env pdfPath) as [buffer|e]; [|exists (Throw e); auto].
    destruct (getText env buffer) as [result|e] eqn:E;
      [|exists (Throw e); split; [reflexivity|]; right; now exists buffer].
    destruct (Parsed.pages result) as [pages|];
      (eexists; split; [reflexivity|]; cbv beta iota;
       rewrite mapi_page_numbers by reflexivity;
       now rewrite length_mapi).
Qed.

(** ** The extraction by OCR comes to an end *)

Lemma Index_poll_loop_returns env (url : jsstr) (poll : Azure.poll) :
  str_eqb (Azure.status poll) (js "succeeded") = true ->
  forall k n fuel w,
    (k < fuel)%nat ->
    (forall j, (j < k)%nat ->
       exists p, get env url (n + j) = Ok p
                 /\ str_eqb (Azure.status p) (js "succeeded") = false) ->
    get env url (n + k) = Ok poll ->
    Index.poll_loop env fuel url n w
    = Some (Ok poll, {| files := files w; requests := requests w ++ gets url (S k) |}).
Proof.
  intros Hs k. induction k as [|k IH]; intros n fuel w Hk Hbefore Hat;
    (destruct fuel as [|fuel]; [lia|]); cbn [Index.poll_loop]; unfold bind, axios_get.
  - rewrite Nat.add_0_r in Hat. rewrite Hat, Hs. reflexivity.
  - destruct (Hbefore 0%nat) as (p & Hp & Hno); [lia|].
    rewrite Nat.add_0_r in Hp. rewrite Hp, Hno.
    rewrite (IH (S n) fuel); [| lia | | ].
    + cbn [files requests gets]. now rewrite <- app_assoc.
    + intros j Hj. destruct (Hbefore (S j)) as (q & Hq & Hqno); [lia|].
      exists q. split; [|exact Hqno]. now replace (S n + j)%nat with (n + S j)%nat by lia.
    + now replace (S n + k)%nat with (n + S k)%nat by lia.
Qed.

Lemma Rev0_poll_loop_returns env (url : jsstr) (poll : Azure.poll) :
  str_eqb (Azure.status poll) (js "succeeded") = true ->
  forall k n fuel w,
    (k < fuel)%nat ->
    (forall j, (j < k)%nat ->
       exists p, get env url (n + j) = Ok p
                 /\ str_eqb (Azure.status p) (js "succeeded") = false
                 /\ str_eqb (Azure.status p) (js "failed") = false) ->
    get env url (n + k) = Ok poll ->
    Rev0.poll_loop env fuel url n w
    = Some (Ok poll, {| files := files w; requests := requests w ++ gets url (S k) |}).
Proof.
  intros Hs k. induction k as [|k IH]; intros n fuel w Hk Hbefore Hat;
    (destruct fuel as [|fuel]; [lia|]); cbn [Rev0.poll_loop]; unfold bind, axios_get.
  - rewrite Nat.add_0_r in Hat. rewrite Hat, Hs. reflexivity.
  - destruct (Hbefore 0%nat) as (p & Hp & Hno & Hnf); [lia|].
    rewrite Nat.add_0_r in Hp. rewrite Hp, Hno, Hnf.
    rewrite (IH (S n) fuel); [| lia | | ].
    + cbn [files requests gets]. now rewrite <- app_assoc.
    + intros j Hj. destruct (Hbefore (S j)) as (q & Hq & Hq'); [lia|].
      exists q. split; [|exact Hq']. now replace (S n + j)%nat with (n + S j)%nat by lia.
    + now replace (S n + k)%nat with (n + S k)%nat by lia.
Qed.

(** X8: when the document can be read, the service accepts it, and the
    poll number [k] is the first that the service answers with the status
    [succeeded], [extractAzure] of [index.js] returns after one POST and
    [k + 1] polls, with the pages of that answer under the numbers the
    service gave them, and without writing a file.  So does [extractAzure]
    of [part_000], if none of the answers before was [failed]. *)
Theorem X8_ocr_extraction_returns
        (env : Env) (fuel : nat) (pdfPath file pollUrl : jsstr) (k : nat)
        (poll : Azure.poll) (pages : list Azure.page) (w : World) :
  readFileSync env pdfPath = Ok file ->
  post env (Index.analyze_url env) file = Ok pollUrl ->
  succeeds_at env pollUrl k poll ->
  Azure.analyzeResult poll = Some pages ->
  (k < fuel)%nat ->
  let w' := {| files := files w;
               requests := requests w
                           ++ POST (Index.analyze_url env) :: gets pollUrl (S k) |} in
  Index.extractAzure env fuel pdfPath w = Some (Ok (map page_of_azure pages), w')
  /\ ((forall j p, (j < k)%nat -> get env pollUrl j = Ok p ->
         str_eqb (Azure.status p) (js "failed") = false) ->
      Rev0.extractAzure env fuel pdfPath w = Some (Ok (map page_of_azure pages), w')).
Proof.
  intros Hread Hpost (Hbefore & Hat & Hs) Hres Hk. cbv zeta. split.
  - unfold Index.extractAzure, bind at 1, lift. rewrite Hread.
    unfold bind at 1, axios_post. rewrite Hpost.
    unfold bind.
    rewrite (@Index_poll_loop_returns env pollUrl poll Hs k 0 fuel _ Hk Hbefore Hat).
    rewrite Hres. unfold ret. cbn [files requests].
    now rewrite <- app_assoc.
  - intros Hnf.
    unfold Rev0.extractAzure, bind at 1, lift. rewrite Hread.
    unfold bind at 1, axios_post.
    change (Rev0.analyze_url env) with (Index.analyze_url env). rewrite Hpost.
    unfold bind.
    rewrite (@Rev0_poll_loop_returns env pollUrl poll Hs k 0 fuel _ Hk); [| |exact Hat].
    + rewrite Hres. unfold ret. cbn [files requests].
      now rewrite <- app_assoc.
    + intros j Hj. destruct (Hbefore j Hj) as (p & Hp & Hno).
      exists p. split; [exact Hp|]. split; [exact Hno|]. exact (Hnf j p Hj Hp).
Qed.

Lemma X8_ocr_extraction_witness :
  let w' := {| files := [];
               requests := [ POST (js "https://ocr.example/formrecognizer/documentModels/prebuilt-layout:analyze?api-version=2023-07-31");
                             GET (js "https://ocr.example/operations/1");
                             GET (js "https://ocr.example/operations/1");
                             GET (js "https://ocr.example/operations/1") ] |} in
  Index.extractAzure slow_ocr_env 3 (js "input_pdfs/scan.pdf") empty_world
  = Some (Ok (map page_of_azure pages_3_and_4), w')
  /\ Rev0.extractAzure slow_ocr_env 3 (js "input_pdfs/scan.pdf") empty_world
     = Some (Ok (map page_of_azure pages_3_and_4), w').
Proof.
  cbv zeta.
  destruct (@X8_ocr_extraction_returns slow_ocr_env 3 (js "input_pdfs/scan.pdf")
              (js "%PDF-1.7") (js "https://ocr.example/operations/1") 2
              {| Azure.status := js "succeeded";
                 Azure.analyzeResult := Some pages_3_and_4 |}
              pages_3_and_4 empty_world) as [Hindex Hrev0].
  - reflexivity.
  - reflexivity.
  - split; [|split; reflexivity].
    intros j Hj. exists {| Azure.status := js "running"; Azure.analyzeResult := None |}.
    destruct j as [|[|j]]; [split; reflexivity | split; reflexivity | lia].
  - reflexivity.
  - lia.
  - split; [exact Hindex|]. apply Hrev0.
    intros j p Hj Hp. destruct j as [|[|j]]; [| |lia];
      vm_compute in Hp; inversion Hp; subst; reflexivity.
Defined.

(** ** What a call of [processSinglePDF] leaves behind *)

Lemma Rev0_poll_loop_writes_nothing env (url : jsstr) (fuel : nat) :
  forall n, writes_nothing (Rev0.poll_loop env fuel url n).
Proof. induction fuel as [|fuel IH]; intros n; simpl; writes_nothing. Qed.

Lemma Rev0_extractPdfParse_writes_nothing env (pdfPath : jsstr) :
  writes_nothing (Rev0.extractPdfParse env pdfPath).
Proof. unfold Rev0.extractPdfParse. writes_nothing. Qed.

#[local] Hint Resolve Rev0_poll_loop_writes_nothing Rev0_extractPdfParse_writes_nothing
  : writes_nothing.

Lemma Rev0_extractAzure_writes_nothing env (fuel : nat) (pdfPath : jsstr) :
  writes_nothing (Rev0.extractAzure env fuel pdfPath).
Proof. unfold Rev0.extractAzure. writes_nothing. Qed.

#[local] Hint Resolve Rev0_extractAzure_writes_nothing : writes_nothing.

(** What the body of the [try] of [part_000] leaves behind: one manifest
    when it returns, nothing when it throws. *)
Lemma Rev0_process_body_files env clean_text path_parse_name (fuel : nat) (file : jsstr)
      (w : World) (r : result unit) (w' : World) :
  Rev0.process_body env clean_text path_parse_name fuel file w = Some (r, w') ->
  match r with
  | Ok _ =>
      exists content,
        files w' = files w
                   ++ [(Rev0.path_join_output (path_parse_name file ++ js ".txt"), content)]
  | Throw _ => files w' = files w
  end.
Proof.
  unfold Rev0.process_body. cbv zeta. intros H.
  unfold bind at 1 in H.
  destruct (Rev0.extractPdfParse env (path_join_input file) w) as [[[pages|e] w1]|] eqn:E1;
    [| |discriminate].
  - pose proof (@Rev0_extractPdfParse_writes_nothing env (path_join_input file) _ _ _ E1)
      as F1.
    unfold bind at 1 in H.
    match type of H with
    | match ?m w1 with _ => _ end = _ =>
        assert (Hm : writes_nothing m) by writes_nothing;
        destruct (m w1) as [[[chosen|e] w2]|] eqn:E2; [| |discriminate]
    end.
    + pose proof (Hm _ _ _ E2) as F2.
      unfold Rev0.finish in H. destruct chosen as [ps method].
      unfold writeFileSync in H.
      destruct (write_error env (Rev0.path_join_output (path_parse_name file ++ js ".txt")))
        as [e|].
      * inversion H; subst. congruence.
      * inversion H; subst. simpl. eexists. rewrite F2, F1. reflexivity.
    + inversion H; subst. pose proof (Hm _ _ _ E2). congruence.
  - inversion H; subst.
    exact (@Rev0_extractPdfParse_writes_nothing env (path_join_input file) _ _ _ E1).
Qed.

(** X9: a call of [processSinglePDF] that returns has added exactly one
    file to the output directory, the transcript of the document or its error
    record; a call that throws has added none, and what it throws is the
    error of the write of the error record.  This holds in [index.js] and in
    [part_000], whatever the collaborators do. *)
Theorem X9_one_call_one_file_at_most
        (toUpperCase clean_text path_parse_name : jsstr -> jsstr)
        (env : Env) (fuel : nat) (file : jsstr) (w : World) (r : result unit) (w' : World) :
  (Index.processSinglePDF toUpperCase env fuel file w = Some (r, w') ->
   match r with
   | Ok _ =>
       exists content,
         files w' = files w ++ [(Index.transcript_path file, content)]
         \/ files w' = files w ++ [(Index.error_path file, content)]
   | Throw e =>
       files w' = files w /\ write_error env (Index.error_path file) = Some e
   end)
  /\ (Rev0.processSinglePDF env clean_text path_parse_name fuel file w = Some (r, w') ->
      match r with
      | Ok _ =>
          exists content,
            files w' = files w
                       ++ [(Rev0.path_join_output (path_parse_name file ++ js ".txt"),
                            content)]
            \/ files w' = files w
                          ++ [(Rev0.path_join_output
                                 (path_parse_name file ++ js ".error.log"), content)]
      | Throw e =>
          files w' = files w
          /\ write_error env
               (Rev0.path_join_output (path_parse_name file ++ js ".error.log")) = Some e
      end).
Proof.
  split.
  - unfold Index.processSinglePDF, try_catch. intros H.
    destruct (Index.process_body toUpperCase env fuel file w) as [[[[]|e] w1]|] eqn:E;
      [| |discriminate].
    + inversion H; subst.
      destruct (Index_process_body_files _ _ _ _ _ E) as [content Hf].
      exists content. now left.
    + pose proof (Index_process_body_files _ _ _ _ _ E) as Hf. cbv beta iota in Hf.
      unfold writeFileSync in H.
      destruct (write_error env (Index.error_path file)) as [e'|];
        inversion H; subst.
      * split; [exact Hf | reflexivity].
      * exists (stack e). right. cbn [files]. now rewrite Hf.
  - unfold Rev0.processSinglePDF, try_catch. intros H.
    destruct (Rev0.process_body env clean_text path_parse_name fuel file w)
      as [[[[]|e] w1]|] eqn:E; [| |discriminate].
    + inversion H; subst.
      destruct (Rev0_process_body_files _ _ _ _ _ _ E) as [content Hf].
      exists content. now left.
    + pose proof (Rev0_process_body_files _ _ _ _ _ _ E) as Hf. cbv beta iota in Hf.
      unfold writeFileSync in H.
      destruct (write_error env
                  (Rev0.path_join_output (path_parse_name file ++ js ".error.log")))
        as [e'|]; inversion H; subst.
      * split; [exact Hf | reflexivity].
      * exists (stack e). right. cbn [files]. now rewrite Hf.
Qed.

Lemma X9_one_call_witness :
  (exists w',
      Index.processSinglePDF toUpperCase_ascii half_text_env 5 (js "report.pdf") empty_world
      = Some (Ok tt, w')
      /\ exists content,
          files w' = files empty_world ++ [(Index.transcript_path (js "report.pdf"), content)]
          \/ files w' = files empty_world ++ [(Index.error_path (js "report.pdf"), content)])
  /\ (exists w',
         Rev0.processSinglePDF half_text_env (fun s => s) name_of 5 (js "report.pdf")
           empty_world
         = Some (Ok tt, w')
         /\ exists content,
             files w' = files empty_world
                        ++ [(Rev0.path_join_output (name_of (js "report.pdf") ++ js ".txt"),
                             content)]
             \/ files w' = files empty_world
                           ++ [(Rev0.path_join_output
                                  (name_of (js "report.pdf") ++ js ".error.log"), content)]).
Proof.
  split.
  - eexists. split; [vm_compute; reflexivity|].
    apply (proj1 (@X9_one_call_one_file_at_most toUpperCase_ascii (fun s => s) name_of
                    half_text_env 5 (js "report.pdf") empty_world (Ok tt) _)).
    vm_compute. reflexivity.
  - eexists. split; [vm_compute; reflexivity|].
    apply (proj2 (@X9_one_call_one_file_at_most toUpperCase_ascii (fun s => s) name_of
                    half_text_env 5 (js "report.pdf") empty_world (Ok tt) _)).
    vm_compute. reflexivity.
Defined.

(** ** The queue *)

(** X10: whatever the worker function does and in whatever order the event
    loop resumes its calls, a promise of [runQueue] that is settled accounts
    for every item.  The items taken off the queue that are not falsy are a
    first part of those it was given, and each was handed to the worker
    function once: its call has ended, and what it wrote is in the output in
    the order in which the calls ended, or its call is still pending.  When
    the promise is fulfilled, every call has returned, none is pending, and
    with a worker or more the queue is empty.  When it is rejected, the
    exception is the one of the call that ended last, and the calls before it
    returned.  Without a worker the promise is fulfilled at once and nothing
    is touched. *)
Theorem X10_settled_queue_accounts_for_every_item
        (worker : jsstr -> call) (items : list jsstr) (limit : nat)
        (schedule : list nat) (w : World) (s : Settled) :
  runQueue worker items limit schedule w = Some s ->
  run_accounts worker items limit w s
  /\ (limit = 0%nat ->
      s = {| rejected := None; queue_left := items; calls_pending := 0; world_then := w |}).
Proof.
  intros H. split; [exact (runQueue_accounts _ _ _ _ _ H)|].
  intros ->. unfold runQueue in H. cbn [start_workers] in H.
  destruct schedule; cbn [event_loop] in H; now inversion H.
Qed.

Lemma X10_settled_queue_witness :
  run_accounts (Index.call_processSinglePDF toUpperCase_ascii locked_env 5)
    [js "b.pdf"; js "a.pdf"; js "c.pdf"; js "d.pdf"] 2 empty_world
    {| rejected := Some EACCES; queue_left := [js "d.pdf"]; calls_pending := 1;
       world_then :=
         {| files := [(js "./output/b.txt",
                       Index.transcript locked_env (js "b.pdf") (js "pdf-parse")
                         (Index.cleanPages toUpperCase_ascii half_text_pages))];
            requests := [] |} |}
  /\ (2%nat = 0%nat ->
      {| rejected := Some EACCES; queue_left := [js "d.pdf"]; calls_pending := 1;
         world_then :=
           {| files := [(js "./output/b.txt",
                         Index.transcript locked_env (js "b.pdf") (js "pdf-parse")
                           (Index.cleanPages toUpperCase_ascii half_text_pages))];
              requests := [] |} |}
      = {| rejected := None;
           queue_left := [js "b.pdf"; js "a.pdf"; js "c.pdf"; js "d.pdf"];
           calls_pending := 0; world_then := empty_world |}).
Proof.
  apply (@X10_settled_queue_accounts_for_every_item
           (Index.call_processSinglePDF toUpperCase_ascii locked_env 5)
           [js "b.pdf"; js "a.pdf"; js "c.pdf"; js "d.pdf"] 2 [0; 1; 0]%nat empty_world).
  vm_compute. reflexivity.
Defined.

(** ** The whole run *)

Lemma endsWith_pdf_truthy (f : jsstr) :
  Rev0.endsWith f (js ".pdf") = true -> truthy f = true.
Proof. destruct f; [discriminate | reflexivity]. Qed.

Lemma CONCURRENCY_positive (cpus : nat) : exists fewer, CONCURRENCY cpus = S fewer.
Proof.
  unfold CONCURRENCY. exists (Nat.max 1 (cpus - 1) - 1)%nat. lia.
Qed.

(** X11: the run of [index.js] over a directory listing, on a host with any
    number of processors (one worker at least being kept by [Math.max]), in
    whatever order the event loop resumes the workers: of the entries it takes
    those that end in [.pdf], and if the processing of each of these comes to
    an end and its error record, when one is due, can be written, and the
    event loop runs as many turns as the calls have stretches between their
    awaits, then the promise of the queue is fulfilled, no call is pending,
    the queue is drained, and the output directory gets one file for each of
    these entries, in the order in which their calls ended: the transcript, or
    the error record of the document; the other entries of the directory are
    not touched. *)
Theorem X11_index_run_over_a_directory
        (toUpperCase : jsstr -> jsstr) (env : Env) (fuel : nat)
        (entries : list jsstr) (cpus : nat) (schedule : list nat) (w : World) :
  Forall (settles toUpperCase env fuel) (IndexMain.pdfFiles entries) ->
  (list_sum (map (fun f => stretches (Index.call_processSinglePDF toUpperCase env fuel f))
                 (IndexMain.pdfFiles entries))
   <= length schedule)%nat ->
  exists w' order new,
    IndexMain.run toUpperCase env fuel entries cpus schedule w
    = Some {| rejected := None; queue_left := []; calls_pending := 0; world_then := w' |}
    /\ (1 <= CONCURRENCY cpus)%nat
    /\ Permutation order (IndexMain.pdfFiles entries)
    /\ files w' = files w ++ new
    /\ Forall2 (artifact_of toUpperCase env fuel) order new.
Proof.
  intros Hsettle Hlen. unfold IndexMain.run.
  assert (Hc : (1 <= CONCURRENCY cpus)%nat).
  { destruct (CONCURRENCY_positive cpus) as [fewer ->]. lia. }
  assert (Htruthy : Forall (fun f => truthy f = true) (IndexMain.pdfFiles entries)).
  { apply Forall_forall. intros f Hf. apply filter_In in Hf.
    now apply endsWith_pdf_truthy. }
  destruct (@runQueue_drains (Index.call_processSinglePDF toUpperCase env fuel)
              (artifact_of toUpperCase env fuel) (IndexMain.pdfFiles entries)
              (CONCURRENCY cpus) schedule w Hc Htruthy)
    as (w' & order & new & Hq & Hperm & Hf & Hall).
  - eapply Forall_impl; [|exact Hsettle].
    intros f Hs. now apply Index_call_of_settled.
  - exact Hlen.
  - exists w', order, new. repeat split; assumption.
Qed.

Lemma X11_index_run_witness :
  exists w' order new,
    IndexMain.run toUpperCase_ascii unreadable_env 5
      [js "a.pdf"; js "notes.txt"; js "report.pdf"; js "SCAN.PDF"; js "minutes.pdf"] 4
      [2; 1; 0]%nat empty_world
    = Some {| rejected := None; queue_left := []; calls_pending := 0; world_then := w' |}
    /\ (1 <= CONCURRENCY 4)%nat
    /\ Permutation order
         (IndexMain.pdfFiles
            [js "a.pdf"; js "notes.txt"; js "report.pdf"; js "SCAN.PDF"; js "minutes.pdf"])
    /\ files w' = files empty_world ++ new
    /\ Forall2 (artifact_of toUpperCase_ascii unreadable_env 5) order new.
Proof.
  apply (@X11_index_run_over_a_directory toUpperCase_ascii unreadable_env 5
           [js "a.pdf"; js "notes.txt"; js "report.pdf"; js "SCAN.PDF"; js "minutes.pdf"] 4
           [2; 1; 0]%nat empty_world).
  - repeat constructor.
    + intros H. vm_compute in H. discriminate H.
    + intros H. vm_compute in H. discriminate H.
    + intros H. vm_compute in H. discriminate H.
  - vm_compute. lia.
Defined.

(** In that run three workers are at work; the call on [minutes.pdf] is
    resumed first and the call on [a.pdf], whose file cannot be read, last:
    the error record of [a.pdf] is the last file written. *)
Lemma index_run_files_in_order_of_completion :
  match IndexMain.run toUpperCase_ascii unreadable_env 5
          [js "a.pdf"; js "notes.txt"; js "report.pdf"; js "SCAN.PDF"; js "minutes.pdf"] 4
          [2; 1; 0]%nat empty_world with
  | Some s =>
      rejected s = None
      /\ map fst (files (world_then s))
         = [js "./output/minutes.txt"; js "./output/report.txt"; js "./output/a.error.txt"]
  | None => False
  end.
Proof. vm_compute. split; reflexivity. Qed.

(** ** The paths of the output *)

(** [file.replace(".pdf", "")] takes the extension off a name that has no
    other dot. *)
Lemma base_of_plain_name (stem : jsstr) :
  ~ In 46 stem -> Index.base_of (stem ++ js ".pdf") = stem.
Proof.
  unfold Index.base_of. induction stem as [|c stem IH]; intros Hdot; [reflexivity|].
  cbn [app replace_first].
  assert (Hc : char_eqb 46 c = false).
  { apply N.eqb_neq. intros E. apply Hdot. left. now symmetry. }
  change (is_prefix (js ".pdf") (c :: stem ++ js ".pdf")) with
    (if char_eqb 46 c then is_prefix (js "pdf") (stem ++ js ".pdf") else None).
  rewrite Hc. f_equal. apply IH. intros H. apply Hdot. now right.
Qed.

(** X12: for documents named [stem.pdf] with no dot in the stem,
    [processSinglePDF] of [index.js] writes the transcript to
    [./output/stem.txt] and the error record to [./output/stem.error.txt];
    two such documents with different names never share a file, and the
    transcript of one is never the error record of another. *)
Theorem X12_index_output_paths_do_not_collide (stem1 stem2 : jsstr) :
  ~ In 46 stem1 ->
  ~ In 46 stem2 ->
  Index.transcript_path (stem1 ++ js ".pdf") = js "./output/" ++ stem1 ++ js ".txt"
  /\ Index.error_path (stem1 ++ js ".pdf") = js "./output/" ++ stem1 ++ js ".error.txt"
  /\ (Index.transcript_path (stem1 ++ js ".pdf") = Index.transcript_path (stem2 ++ js ".pdf")
      -> stem1 = stem2)
  /\ (Index.error_path (stem1 ++ js ".pdf") = Index.error_path (stem2 ++ js ".pdf")
      -> stem1 = stem2)
  /\ Index.transcript_path (stem1 ++ js ".pdf") <> Index.error_path (stem2 ++ js ".pdf").
Proof.
  intros H1 H2. unfold Index.transcript_path, Index.error_path.
  rewrite !base_of_plain_name by assumption.
  split; [reflexivity|]. split; [reflexivity|].
  split; [|split].
  - intros E. apply app_inv_head in E. apply app_inv_head in E.
    now apply app_inv_tail in E.
  - intros E. apply app_inv_head in E. apply app_inv_head in E.
    now apply app_inv_tail in E.
  - intros E. apply app_inv_head in E. apply app_inv_head in E.
    change (js ".error.txt") with (js ".error" ++ js ".txt") in E.
    rewrite app_assoc in E. apply app_inv_tail in E.
    apply H1. rewrite E. apply in_or_app. right. left. reflexivity.
Qed.

Lemma X12_index_output_paths_witness :
  Index.transcript_path (js "report" ++ js ".pdf") = js "./output/" ++ js "report" ++ js ".txt"
  /\ Index.error_path (js "report" ++ js ".pdf")
     = js "./output/" ++ js "report" ++ js ".error.txt"
  /\ (Index.transcript_path (js "report" ++ js ".pdf")
      = Index.transcript_path (js "notes" ++ js ".pdf")
      -> js "report" = js "notes")
  /\ (Index.error_path (js "report" ++ js ".pdf") = Index.error_path (js "notes" ++ js ".pdf")
      -> js "report" = js "notes")
  /\ Index.transcript_path (js "report" ++ js ".pdf")
     <> Index.error_path (js "notes" ++ js ".pdf").
Proof.
  apply (@X12_index_output_paths_do_not_collide (js "report") (js "notes")).
  - vm_compute. intuition discriminate.
  - vm_compute. intuition discriminate.
Defined.

(** ** The clean-up of artifacts in [part_000] *)

(** A replacement by a fixed text is a replacement by a function of the
    match that does not look at it. *)
Lemma replace_loop_as_fn fl r (repl : jsstr) (fuel : nat) :
  forall prev s,
    replace_loop fl r repl fuel prev s
    = replace_fn_loop fl r (fun _ => repl) fuel prev s.
Proof.
  induction fuel as [|f IH]; intros prev s; [reflexivity|].
  cbn [replace_loop replace_fn_loop].
  destruct (rexec_at fl r prev s) as [[p' rest]|].
  - destruct (length rest <? length s)%nat; [now rewrite IH|].
    destruct s; [reflexivity | now rewrite IH].
  - destruct s; [reflexivity | now rewrite IH].
Qed.

Lemma firstn_keeps_Forall (P : char -> Prop) (n : nat) :
  forall s : jsstr, Forall P s -> Forall P (firstn n s).
Proof.
  induction n as [|n IH]; intros s H; [constructor|].
  destruct s as [|c s']; [constructor|]. inversion H; subst.
  cbn [firstn]. constructor; [assumption | now apply IH].
Qed.

(** A replacement puts nothing into a text but what the replacements are
    made of. *)
Lemma replace_fn_loop_Forall (P : char -> Prop) fl r (f : jsstr -> jsstr) :
  (forall m, Forall P m -> Forall P (f m)) ->
  forall fuel prev s,
    Forall P s -> Forall P (replace_fn_loop fl r f fuel prev s).
Proof.
  intros Hf fuel. induction fuel as [|n IH]; intros prev s Hs; [exact Hs|].
  cbn [replace_fn_loop].
  assert (Hadv : Forall P match s with
                          | [] => []
                          | c :: s' => c :: replace_fn_loop fl r f n (Some c) s'
                          end).
  { destruct s as [|c s']; [constructor|].
    inversion Hs; subst. constructor; [assumption | now apply IH]. }
  destruct (rexec_at fl r prev s) as [[p' rest]|] eqn:E; [|exact Hadv].
  assert (Hm : Forall P (f (firstn (length s - length rest) s))).
  { apply Hf. now apply firstn_keeps_Forall. }
  destruct (length rest <? length s)%nat; apply Forall_app; split; try assumption.
  apply IH. eapply suffix_of_Forall; [|exact Hs]. eapply rexec_at_suffix; exact E.
Qed.

Lemma replace_all_Forall (P : char -> Prop) fl r (repl s : jsstr) :
  Forall P repl -> Forall P s -> Forall P (replace_all fl r repl s).
Proof.
  intros Hr Hs. unfold replace_all. rewrite replace_loop_as_fn.
  apply replace_fn_loop_Forall; [intros _ _; exact Hr | exact Hs].
Qed.

(** [s.replace(/[class]/g, "")] leaves no code unit of the class. *)
Lemma replace_loop_class (p : char -> bool) (fuel : nat) :
  forall prev s,
    (length s < fuel)%nat ->
    replace_loop no_flags (Cls p) [] fuel prev s = filter (fun c => negb (p c)) s.
Proof.
  induction fuel as [|f IH]; intros prev s Hf; [lia|].
  cbn [replace_loop]. destruct s as [|c s']; [reflexivity|].
  unfold rexec_at. cbn [rmatch filter]. simpl in Hf.
  destruct (p c); cbn [negb].
  - assert (Hlt : (length s' <? length (c :: s'))%nat = true)
      by (apply Nat.ltb_lt; simpl; lia).
    rewrite Hlt. cbn [app]. apply IH. lia.
  - f_equal. apply IH. lia.
Qed.

Lemma replace_all_class (p : char -> bool) (s : jsstr) :
  Forall (fun c => p c = false) (replace_all no_flags (Cls p) [] s).
Proof.
  unfold replace_all. rewrite replace_loop_class by lia.
  apply Forall_forall. intros c Hc. apply filter_In in Hc.
  now apply negb_true_iff.
Qed.

Lemma last_Forall (P : char -> Prop) (l : jsstr) (d : char) :
  Forall P l -> P d -> P (last l d).
Proof.
  induction l as [|c l IH]; intros Hl Hd; [exact Hd|].
  inversion Hl; subst. destruct l as [|c' l']; [assumption|].
  now apply IH.
Qed.

Lemma first_and_last_Forall (P : char -> Prop) (m : jsstr) :
  Forall P m -> Forall P (Rev0Text.first_and_last m).
Proof.
  intros H. destruct m as [|c m']; [constructor|].
  unfold Rev0Text.first_and_last. inversion H; subst.
  constructor; [assumption|]. constructor; [|constructor].
  now apply last_Forall.
Qed.

(** [/[ \t]+/] at a position: it matches a run of spaces and tabs, the whole
    of it. *)
Lemma rexec_at_blanks (prev : option char) (s : jsstr) :
  match s with
  | c :: s' =>
      if Rev0Text.is_blank c
      then exists p', rexec_at no_flags Rev0Text.re_blanks prev s
                      = Some (p', drop_while Rev0Text.is_blank s')
      else rexec_at no_flags Rev0Text.re_blanks prev s = None
  | [] => rexec_at no_flags Rev0Text.re_blanks prev s = None
  end.
Proof.
  destruct s as [|c s']; [reflexivity|].
  unfold rexec_at, Rev0Text.re_blanks, Plus. cbn [rmatch].
  destruct (Rev0Text.is_blank c); [|reflexivity].
  apply (star_single_greedy no_flags Rev0Text.is_blank); [|lia].
  intros q t k. destruct t; reflexivity.
Qed.

Lemma starts_blank_drop_while (s : jsstr) :
  starts_blank (drop_while Rev0Text.is_blank s) = false.
Proof.
  pose proof (drop_while_head Rev0Text.is_blank s) as H.
  destruct (drop_while Rev0Text.is_blank s); [reflexivity | exact H].
Qed.

Lemma replace_blanks_loop (fuel : nat) :
  forall prev s,
    (length s < fuel)%nat ->
    let out := replace_loop no_flags Rev0Text.re_blanks SP fuel prev s in
    spaced out = true
    /\ Forall (fun c => c <> 9) out
    /\ (starts_blank s = false -> starts_blank out = false).
Proof.
  induction fuel as [|f IH]; intros prev s Hf; [lia|].
  cbv zeta. cbn [replace_loop].
  pose proof (rexec_at_blanks prev s) as Hx.
  destruct s as [|c s'].
  - rewrite Hx. repeat split; constructor.
  - destruct (Rev0Text.is_blank c) eqn:Ec.
    + destruct Hx as [p' E]. rewrite E.
      pose proof (drop_while_length Rev0Text.is_blank s') as Hlen.
      assert (Hlt : (length (drop_while Rev0Text.is_blank s') <? length (c :: s'))%nat
                    = true) by (apply Nat.ltb_lt; simpl; lia).
      rewrite Hlt.
      destruct (IH p' (drop_while Rev0Text.is_blank s')) as (Hs & Hn & Hb);
        [simpl in Hf; lia|].
      specialize (Hb (starts_blank_drop_while s')).
      cbn [SP app spaced]. rewrite Hb, Hs, andb_false_r.
      split; [reflexivity|]. split; [constructor; [discriminate | exact Hn]|].
      cbn [starts_blank]. congruence.
    + rewrite Hx.
      destruct (IH (Some c) s') as (Hs & Hn & _); [simpl in Hf; lia|].
      cbn [spaced starts_blank]. rewrite Ec, Hs.
      split; [reflexivity|]. split; [|auto].
      constructor; [|exact Hn].
      intros E. subst c. discriminate.
Qed.

Lemma spaced_sound (s : jsstr) :
  spaced s = true -> forall pre post, s <> pre ++ SP ++ SP ++ post.
Proof.
  intros H pre. revert s H. induction pre as [|c pre IH]; intros s H post E; subst s.
  - discriminate.
  - change ((c :: pre) ++ SP ++ SP ++ post) with (c :: (pre ++ SP ++ SP ++ post)) in H.
    cbn [spaced] in H. apply andb_true_iff in H. destruct H as [_ H].
    exact (IH _ H post eq_refl).
Qed.

(** X13: the text that [applyArtifactCleanup] returns holds no control
    character of the class the function names (form feeds among them), no
    tab, and nowhere two spaces in a row, whatever text goes in. *)
Theorem X13_cleaned_text_has_no_control_no_tab_no_double_space (text : jsstr) :
  Forall (fun c => Rev0Text.is_control c = false /\ c <> 9)
         (Rev0Text.applyArtifactCleanup text)
  /\ forall pre post, Rev0Text.applyArtifactCleanup text <> pre ++ SP ++ SP ++ post.
Proof.
  unfold Rev0Text.applyArtifactCleanup. cbv zeta.
  set (t3 := replace_all flag_m Rev0Text.re_lone_number []
               (replace_all flag_i Rev0Text.re_page_of []
                  (replace_all no_flags Rev0Text.re_formfeed [] text))).
  set (t5 := replace_all_fn no_flags Rev0Text.re_hyphen_break Rev0Text.first_and_last
               (replace_all no_flags Rev0Text.re_control [] t3)).
  assert (H5 : Forall (fun c => Rev0Text.is_control c = false) t5).
  { apply replace_fn_loop_Forall; [apply first_and_last_Forall|].
    apply replace_all_class. }
  assert (H6 : Forall (fun c => Rev0Text.is_control c = false)
                      (replace_all no_flags Rev0Text.re_blanks SP t5)).
  { apply replace_all_Forall; [repeat constructor | exact H5]. }
  destruct (@replace_blanks_loop (S (length t5)) None t5 (Nat.lt_succ_diag_r _))
    as (Hs & Hn & _).
  split.
  - rewrite Forall_forall in *. intros c Hc. split; [now apply H6 | now apply Hn].
  - now apply spaced_sound.
Qed.

(** ** Form feeds in [index.js] *)

Lemma replace_loop_chr (c0 : char) (fuel : nat) :
  forall prev s,
    (length s < fuel)%nat ->
    replace_loop no_flags (Chr c0) [] fuel prev s = filter (fun c => negb (c =? c0)) s.
Proof.
  induction fuel as [|f IH]; intros prev s Hf; [lia|].
  cbn [replace_loop]. destruct s as [|c s']; [reflexivity|].
  unfold rexec_at. cbn [rmatch filter canonicalize ignoreCase no_flags andb].
  unfold char_eqb. simpl in Hf.
  destruct (c =? c0); cbn [negb].
  - assert (Hlt : (length s' <? length (c :: s'))%nat = true)
      by (apply Nat.ltb_lt; simpl; lia).
    rewrite Hlt. cbn [app]. apply IH. lia.
  - f_equal. apply IH. lia.
Qed.

(** X14: the text of a page that [cleanPages] of [index.js] makes holds no
    form feed: the first replacement takes them all out, and the three that
    follow only take code units away. *)
Theorem X14_index_cleaned_page_has_no_form_feed
        (toUpperCase : jsstr -> jsstr) (idx : nat) (page : Page.t) :
  ~ In 12 (Index.Cleaned.text (Index.clean_page toUpperCase idx page)).
Proof.
  unfold Index.clean_page. cbv zeta. cbn [Index.Cleaned.text].
  set (text := Index.cleanNaturalText toUpperCase (Some (Page.text page))).
  assert (H : Forall (fun c => c <> 12)
                (replace_all flag_m Index.re_rule_line []
                   (replace_all flag_m Index.re_lone_number []
                      (replace_all flag_i Index.re_page_of []
                         (replace_all no_flags Index.re_formfeed [] text))))).
  { do 3 (apply replace_all_Forall; [constructor|]).
    unfold replace_all, Index.re_formfeed. rewrite replace_loop_chr by lia.
    apply Forall_forall. intros c Hc. apply filter_In in Hc. destruct Hc as [_ Hc].
    apply negb_true_iff, N.eqb_neq in Hc. exact Hc. }
  rewrite Forall_forall in H. intros Hin. exact (H _ Hin eq_refl).
Qed.

(** ** The two usability tests *)

(** X15: pages that the test of [part_000] takes for usable (more than half
    of them with 50 code units between their ends) are usable for the test of
    [index.js] as well (one page with 50 code units): where [part_000] keeps
    the local extraction, so does [index.js]. *)
Theorem X15_usable_in_part_000_is_usable_in_index (pages : list Page.t) :
  Rev0.usable pages = true -> Index.usable pages = true.
Proof.
  rewrite Rev0_usable_spec, Index_usable_spec. intros H.
  apply Nat.ltb_lt in H. pose proof (trimmed_meeting_le pages) as Hle.
  apply negb_true_iff, Nat.eqb_neq. lia.
Qed.

Lemma X15_usable_witness :
  Index.usable [ {| Page.page := 1; Page.text := page_with_text |};
                 {| Page.page := 2; Page.text := page_with_text |};
                 {| Page.page := 3; Page.text := js "(blank)" |} ] = true.
Proof.
  apply (@X15_usable_in_part_000_is_usable_in_index
           [ {| Page.page := 1; Page.text := page_with_text |};
             {| Page.page := 2; Page.text := page_with_text |};
             {| Page.page := 3; Page.text := js "(blank)" |} ]).
  vm_compute. reflexivity.
Defined.

(** ** Blank pages in [part_000] *)

(** X16: in [part_000] a page whose text is empty, or is white space only
    once [he.decode] has decoded it, is cleaned to the empty string, and is
    left out of the pages of the manifest. *)
Theorem X16_part_000_drops_blank_pages
        (toUpperCase he_decode : jsstr -> jsstr) (getSentences : jsstr -> list jsstr)
        (page : Page.t) :
  Forall (fun c => is_space c = true) (he_decode (Page.text page)) ->
  Rev0Text.clean_text toUpperCase he_decode getSentences (Page.text page) = []
  /\ forall before after,
      Rev0.processedPages (Rev0Text.clean_text toUpperCase he_decode getSentences)
                          (before ++ page :: after)
      = Rev0.processedPages (Rev0Text.clean_text toUpperCase he_decode getSentences)
                            (before ++ after).
Proof.
  intros Hblank.
  assert (Hclean : Rev0Text.clean_text toUpperCase he_decode getSentences (Page.text page)
                   = []).
  { unfold Rev0Text.clean_text, Rev0Text.processContent.
    destruct (negb (truthy (Page.text page))); [reflexivity|].
    unfold Rev0Text.content_blocks, Rev0.new_TextStructureAnalyzer. cbv zeta.
    cbn [Rev0.lines].
    rewrite (blank_text_has_no_line no_flags Rev0.re_newline Hblank). reflexivity. }
  split; [exact Hclean|].
  intros before after. unfold Rev0.processedPages.
  rewrite !map_app, !filter_app. f_equal.
  cbn [map filter Page.text]. now rewrite Hclean.
Qed.

Lemma X16_part_000_blank_page_witness :
  Rev0Text.clean_text toUpperCase_ascii (fun s => s) (fun s => [s])
    (Page.text {| Page.page := 2; Page.text := [32; 9] ++ LF ++ [13; 10; 32] |}) = []
  /\ forall before after,
      Rev0.processedPages (Rev0Text.clean_text toUpperCase_ascii (fun s => s) (fun s => [s]))
        (before ++ {| Page.page := 2; Page.text := [32; 9] ++ LF ++ [13; 10; 32] |} :: after)
      = Rev0.processedPages (Rev0Text.clean_text toUpperCase_ascii (fun s => s) (fun s => [s]))
          (before ++ after).
Proof.
  apply (@X16_part_000_drops_blank_pages toUpperCase_ascii (fun s => s) (fun s => [s])
           {| Page.page := 2; Page.text := [32; 9] ++ LF ++ [13; 10; 32] |}).
  repeat constructor.
Defined.

(** ** The blocks of a text in [part_000] *)

Section ContentBlocks.
Variable toUpperCase : jsstr -> jsstr.
Variable getSentences : jsstr -> list jsstr.
Variable analyzer : Rev0.TextStructureAnalyzer.

(** [flush] closes the open paragraph, if there is one. *)
Lemma flush_inv (done : list jsstr) (st : Rev0Text.content_state) :
  content_inv toUpperCase getSentences analyzer done st ->
  content_inv toUpperCase getSentences analyzer done (Rev0Text.flush getSentences st)
  /\ snd (Rev0Text.flush getSentences st) = [].
Proof.
  intros (runs & Hdone & Hblocks & Hplain).
  destruct st as [blocks para]. cbn [fst snd] in *. unfold Rev0Text.flush.
  destruct para as [|l0 para']; cbn [length Nat.ltb Nat.leb].
  - split; [|reflexivity]. exists runs. auto.
  - split; [|reflexivity]. exists (runs ++ [l0 :: para']). cbn [fst snd].
    split; [now rewrite concat_snoc, app_nil_r|].
    split; [|constructor].
    apply Forall2_snoc; [exact Hblocks|].
    right. right. split; [discriminate|]. split; [exact Hplain | reflexivity].
Qed.

Lemma content_body_inv (done : list jsstr) (st : Rev0Text.content_state)
      (i : Z) (line : jsstr) :
  content_inv toUpperCase getSentences analyzer done st ->
  content_inv toUpperCase getSentences analyzer (done ++ [line])
    (Rev0Text.content_body toUpperCase getSentences analyzer st i line).
Proof.
  intros Hinv. unfold Rev0Text.content_body.
  destruct (flush_inv Hinv) as [(runs & Hdone & Hblocks & _) Hempty].
  assert (Hown : forall b,
             content_block_of toUpperCase getSentences analyzer b [line] ->
             content_inv toUpperCase getSentences analyzer (done ++ [line])
               (fst (Rev0Text.flush getSentences st) ++ [b],
                snd (Rev0Text.flush getSentences st))).
  { intros b Hb. exists (runs ++ [[line]]). cbn [fst snd].
    rewrite Hempty in *. rewrite app_nil_r in *.
    split; [now rewrite concat_snoc, Hdone|].
    split; [now apply Forall2_snoc | constructor]. }
  assert (Hindex : Rev0.isHeaderLine toUpperCase analyzer line i
                   = Rev0.isHeaderLine toUpperCase analyzer line 0) by reflexivity.
  rewrite Hindex.
  destruct (Rev0.isHeaderLine toUpperCase analyzer line 0) eqn:Eh;
    [|destruct (Rev0Text.isListItem line) eqn:El].
  - destruct (Rev0Text.flush getSentences st) as [blocks para] eqn:Ef.
    apply Hown. left. exists line. auto.
  - destruct (Rev0Text.flush getSentences st) as [blocks para] eqn:Ef.
    apply Hown. right. left. exists line. auto.
  - assert (Hline : plain_line toUpperCase analyzer line) by (split; assumption).
    assert (Hpush : forall st',
               content_inv toUpperCase getSentences analyzer done st' ->
               content_inv toUpperCase getSentences analyzer (done ++ [line])
                 (let '(blocks, para) := st' in (blocks, para ++ [line]))).
    { intros [blocks para] (runs' & Hd' & Hb' & Hp'). cbn [fst snd] in *.
      exists runs'. cbn [fst snd].
      split; [now rewrite Hd', app_assoc|]. split; [exact Hb'|].
      apply Forall_app. split; [exact Hp' | now constructor]. }
    destruct ((0 <? length (snd st))%nat
              && negb (Rev0Text.shouldJoin analyzer (last (snd st) []) line)).
    + apply Hpush. apply (flush_inv Hinv).
    + apply Hpush. exact Hinv.
Qed.

Lemma content_loop_inv (ls : list jsstr) :
  forall done st i,
    content_inv toUpperCase getSentences analyzer done st ->
    content_inv toUpperCase getSentences analyzer (done ++ ls)
      (Rev0Text.content_loop toUpperCase getSentences analyzer ls i st).
Proof.
  induction ls as [|line rest IH]; intros done st i H; simpl.
  - now rewrite app_nil_r.
  - replace (done ++ line :: rest) with ((done ++ [line]) ++ rest)
      by now rewrite <- app_assoc.
    apply IH. now apply content_body_inv.
Qed.

End ContentBlocks.

(** X17: the blocks that [processContent] of [part_000] builds cut the
    lines of the text into consecutive runs, one for each block and in their
    order: a header line is a block of its own, in capitals between [###]
    marks; a list item is a block of its own, as it was; the other lines go
    by runs into paragraphs, each the sentences that the tokenizer finds in
    the lines of the run joined by spaces.  No line is lost, repeated or
    moved, and no list item is joined to a neighbour. *)
Theorem X17_part_000_blocks_cut_the_lines_into_runs
        (toUpperCase : jsstr -> jsstr) (getSentences : jsstr -> list jsstr)
        (analyzer : Rev0.TextStructureAnalyzer) :
  exists runs,
    concat runs = Rev0.lines analyzer
    /\ Forall2 (content_block_of toUpperCase getSentences analyzer)
               (Rev0Text.content_blocks toUpperCase getSentences analyzer) runs.
Proof.
  assert (Hinit : content_inv toUpperCase getSentences analyzer [] ([], [])).
  { exists []. repeat split; constructor. }
  pose proof (content_loop_inv (Rev0.lines analyzer) 0%Z Hinit) as Hloop.
  destruct (flush_inv Hloop) as [(runs & Hdone & Hblocks & _) Hempty].
  exists runs. unfold Rev0Text.content_blocks.
  rewrite Hempty, app_nil_r in Hdone. split; [now symmetry | exact Hblocks].
Qed.

(** ** Numbered lines in [index.js] *)

Section MatcherRuns.
Variable R : Type.
Variable fl : flags.

(** A greedy [x*] for a class [x], in front of a run of the class: if the
    rest of the pattern matches after the run, the whole matches. *)
Lemma star_run_matches (p : char -> bool) (k : option char -> jsstr -> option R)
      (rest : jsstr) :
  (forall q, k q rest <> None) ->
  forall run n prev,
    Forall (fun c => p c = true) run ->
    (length (run ++ rest) < n)%nat ->
    star_loop (rmatch fl (Cls p)) k n prev (run ++ rest) <> None.
Proof.
  intros Hk run. induction run as [|x run IH]; intros n prev Hrun Hn;
    (destruct n as [|n]; [lia|]); cbn [star_loop app].
  - destruct (rmatch fl (Cls p) prev rest _); [discriminate | apply Hk].
  - inversion Hrun as [|? ? Hx Hrest]; subst.
    assert (Hgo : star_loop (rmatch fl (Cls p)) k n (Some x) (run ++ rest) <> None)
      by (apply IH; [exact Hrest | simpl in Hn; lia]).
    cbn [rmatch] in *. rewrite Hx.
    assert (Hlt : (length (run ++ rest) <? length (x :: run ++ rest))%nat = true)
      by (apply Nat.ltb_lt; simpl; lia).
    rewrite Hlt.
    match goal with
    | |- match ?t with _ => _ end <> None => destruct t; [discriminate | congruence]
    end.
Qed.

Lemma rmatch_plus_run (p : char -> bool) (k : option char -> jsstr -> option R)
      (run rest : jsstr) (prev : option char) :
  run <> [] ->
  Forall (fun c => p c = true) run ->
  (forall q, k q rest <> None) ->
  rmatch fl (Plus (Cls p)) prev (run ++ rest) k <> None.
Proof.
  intros Hne Hrun Hk. destruct run as [|x run]; [congruence|].
  inversion Hrun as [|? ? Hx Hrest]; subst.
  unfold Plus. cbn [rmatch app]. rewrite Hx.
  apply star_run_matches; [exact Hk | exact Hrest | lia].
Qed.

Lemma rmatch_alt_left (a b : regex) (prev : option char) (s : jsstr)
      (k : option char -> jsstr -> option R) :
  rmatch fl a prev s k <> None -> rmatch fl (Alt a b) prev s k <> None.
Proof. intros H. cbn [rmatch]. destruct (rmatch fl a prev s k); [discriminate | congruence]. Qed.

Lemma rmatch_seq (a b : regex) (prev : option char) (s : jsstr)
      (k : option char -> jsstr -> option R) :
  rmatch fl (Seq a b) prev s k = rmatch fl a prev s (fun p' s' => rmatch fl b p' s' k).
Proof. reflexivity. Qed.

Lemma rmatch_bol_start (s : jsstr) (k : option char -> jsstr -> option R) :
  rmatch fl Bol None s k = k None s.
Proof. reflexivity. Qed.

Lemma rmatch_chr_head (c : char) (prev : option char) (s : jsstr)
      (k : option char -> jsstr -> option R) :
  rmatch fl (Chr c) prev (c :: s) k = k (Some c) s.
Proof. cbn [rmatch]. unfold char_eqb. now rewrite N.eqb_refl. Qed.

Lemma rmatch_cls_head (p : char -> bool) (c : char) (prev : option char) (s : jsstr)
      (k : option char -> jsstr -> option R) :
  p c = true -> rmatch fl (Cls p) prev (c :: s) k = k (Some c) s.
Proof. intros H. cbn [rmatch]. now rewrite H. Qed.
End MatcherRuns.

Lemma test_of_rexec_at fl r (s : jsstr) :
  rexec_at fl r None s <> None -> test fl r s = true.
Proof.
  intros H. unfold test. destruct s; simpl; destruct (rexec_at fl r None _); congruence.
Qed.

Section NumberedLines.
Variables (digits spaces rest : jsstr) (c : char).
Hypothesis Hdigits : Forall (fun x => is_digit x = true) digits.
Hypothesis Hsome_digit : digits <> [].
Hypothesis Hspaces : Forall (fun x => is_space x = true) spaces.
Hypothesis Hsome_space : spaces <> [].
Hypothesis Hupper : is_upper_AZ c = true.

(** After the number and its full stop: white space, then the capital. *)
Lemma spaces_then_capital (q : option char) :
  rmatch no_flags (Seq Index.re_spaces (Cls is_upper_AZ)) q (spaces ++ c :: rest)
    (fun p s' => Some (p, s')) <> None.
Proof.
  rewrite rmatch_seq. apply rmatch_plus_run; [assumption | assumption|].
  intros q'. rewrite rmatch_cls_head by assumption. discriminate.
Qed.

Lemma numbered_line_matches_header_pattern :
  existsb (fun p => test (fst p) (snd p) (digits ++ [46] ++ spaces ++ c :: rest))
          Index.headerPatterns = true.
Proof.
  apply existsb_exists.
  exists (no_flags,
          Seq Bol (Seq Index.re_digits
                       (Seq (Chr 46) (Seq Index.re_spaces (Cls is_upper_AZ))))).
  split; [right; right; left; reflexivity|].
  cbn [fst snd]. apply test_of_rexec_at. unfold rexec_at.
  rewrite rmatch_seq, rmatch_bol_start, rmatch_seq.
  apply rmatch_plus_run; [assumption | assumption|].
  intros q. cbn [app]. rewrite rmatch_seq, rmatch_chr_head.
  apply spaces_then_capital.
Qed.

Lemma numbered_line_matches_bullet_header :
  test no_flags Index.re_bullet_header (digits ++ [46] ++ spaces ++ c :: rest) = true.
Proof.
  apply test_of_rexec_at. unfold rexec_at, Index.re_bullet_header, alts.
  cbn [fold_left].
  rewrite rmatch_seq, rmatch_bol_start, rmatch_seq.
  do 4 apply rmatch_alt_left.
  rewrite rmatch_seq.
  apply rmatch_plus_run; [assumption | assumption|].
  intros q. cbn [app]. rewrite rmatch_chr_head.
  apply spaces_then_capital.
Qed.

Lemma numbered_line_is_list_item :
  Index.isListItem (digits ++ [46] ++ spaces ++ c :: rest) = true.
Proof.
  unfold Index.isListItem.
  apply test_of_rexec_at. unfold rexec_at, Index.re_list_item, alts.
  cbn [fold_left].
  rewrite rmatch_seq, rmatch_bol_start, rmatch_seq.
  do 8 apply rmatch_alt_left.
  rewrite rmatch_seq.
  apply rmatch_plus_run; [assumption | assumption|].
  intros q. cbn [app]. rewrite rmatch_chr_head.
  apply rmatch_plus_run; [assumption | assumption|].
  intros q'. discriminate.
Qed.
End NumberedLines.

(** X18: in [index.js] a line made of a number, a full stop, white space
    and text that starts with a capital letter, of less than 100 code units,
    is a list item for [isListItem] and a header line for [isHeaderLine], at
    every position [i] of the lines; the loop of [cleanNaturalText] asks for
    headers first, so at that position the line closes the open block and
    becomes a header block of its own: the items of such a numbered list
    never make a list block. *)
Theorem X18_index_numbered_items_become_headers
        (toUpperCase : jsstr -> jsstr) (analyzer : Index.TextStructureAnalyzer)
        (digits spaces rest : jsstr) (c : char) (i : Z) (st : Index.loop_state) :
  (0 <= i < Z.of_nat (length (Index.lines analyzer)))%Z ->
  Forall (fun x => is_digit x = true) digits ->
  digits <> [] ->
  Forall (fun x => is_space x = true) spaces ->
  spaces <> [] ->
  is_upper_AZ c = true ->
  let line := digits ++ [46] ++ spaces ++ c :: rest in
  (length line < 100)%nat ->
  Index.isListItem line = true
  /\ Index.isHeaderLine toUpperCase analyzer line i = true
  /\ exists blocks,
      Index.loop_body toUpperCase analyzer st i line
      = (blocks ++ [ {| Index.Block.type := Index.Block.header;
                        Index.Block.lines := [line];
                        Index.Block.level := Some (Index.header_level line) |} ],
         Index.Block.empty Index.Block.paragraph).
Proof.
  intros _ Hd Hd0 Hs Hs0 Hc line Hlen. subst line.
  assert (Hheader : Index.isHeaderLine toUpperCase analyzer
                      (digits ++ [46] ++ spaces ++ c :: rest) i = true).
  { unfold Index.isHeaderLine.
    rewrite (@numbered_line_matches_header_pattern digits spaces rest c Hd Hd0 Hs Hs0 Hc).
    rewrite (@numbered_line_matches_bullet_header digits spaces rest c Hd Hd0 Hs Hs0 Hc).
    apply Nat.ltb_lt in Hlen. rewrite Hlen. cbn [andb].
    repeat match goal with
           | |- context [if ?b then _ else _] => destruct b
           end; reflexivity. }
  split; [exact (@numbered_line_is_list_item digits spaces rest c Hd Hd0 Hs Hs0)|].
  split; [exact Hheader|].
  unfold Index.loop_body. destruct st as [blocks cur]. rewrite Hheader.
  eexists. reflexivity.
Qed.

Lemma X18_index_numbered_items_witness :
  Index.isListItem (js "1. First item") = true
  /\ Index.isHeaderLine toUpperCase_ascii
       (Index.new_TextStructureAnalyzer (js "1. First item" ++ LF ++ js "2. Second item"))
       (js "1. First item") 0%Z = true
  /\ exists blocks,
      Index.loop_body toUpperCase_ascii
        (Index.new_TextStructureAnalyzer (js "1. First item" ++ LF ++ js "2. Second item"))
        ([], Index.Block.empty Index.Block.paragraph) 0%Z (js "1. First item")
      = (blocks ++ [ {| Index.Block.type := Index.Block.header;
                        Index.Block.lines := [js "1. First item"];
                        Index.Block.level := Some (Index.header_level (js "1. First item")) |} ],
         Index.Block.empty Index.Block.paragraph).
Proof.
  apply (@X18_index_numbered_items_become_headers toUpperCase_ascii
           (Index.new_TextStructureAnalyzer (js "1. First item" ++ LF ++ js "2. Second item"))
           (js "1") (js " ") (js "irst item") 70 0%Z
           ([], Index.Block.empty Index.Block.paragraph)).
  - vm_compute. split; [discriminate | reflexivity].
  - repeat constructor.
  - discriminate.
  - repeat constructor.
  - discriminate.
  - reflexivity.
  - vm_compute. lia.
Defined.

(** ** The list items of the two revisions *)

Section MatcherInversion.
Variable R : Type.
Variable fl : flags.

Lemma rmatch_alt_inv (a b : regex) (prev : option char) (s : jsstr)
      (k : option char -> jsstr -> option R) :
  rmatch fl (Alt a b) prev s k <> None ->
  rmatch fl a prev s k <> None \/ rmatch fl b prev s k <> None.
Proof.
  cbn [rmatch]. destruct (rmatch fl a prev s k); [left; discriminate | now right].
Qed.

Lemma rmatch_alt_right (a b : regex) (prev : option char) (s : jsstr)
      (k : option char -> jsstr -> option R) :
  rmatch fl b prev s k <> None -> rmatch fl (Alt a b) prev s k <> None.
Proof. intros H. cbn [rmatch]. destruct (rmatch fl a prev s k); [discriminate | exact H]. Qed.

Lemma rmatch_cls_inv (p : char -> bool) (prev : option char) (s : jsstr)
      (k : option char -> jsstr -> option R) :
  rmatch fl (Cls p) prev s k <> None ->
  exists x s', s = x :: s' /\ p x = true /\ k (Some x) s' <> None.
Proof.
  cbn [rmatch]. destruct s as [|x s']; [congruence|].
  destruct (p x) eqn:E; [|congruence]. intros H. now exists x, s'.
Qed.

Lemma star_cls_inv (p : char -> bool) (k : option char -> jsstr -> option R) (n : nat) :
  forall prev s,
    star_loop (rmatch fl (Cls p)) k n prev s <> None ->
    exists run rest q,
      s = run ++ rest /\ Forall (fun c => p c = true) run /\ k q rest <> None.
Proof.
  induction n as [|n IH]; intros prev s H.
  - exists [], s, prev. repeat split; [constructor | exact H].
  - cbn [star_loop] in H.
    match type of H with
    | match ?t with _ => _ end <> None => destruct t eqn:E
    end.
    + assert (E' : rmatch fl (Cls p) prev s
                     (fun p' s' => if (length s' <? length s)%nat
                                   then star_loop (rmatch fl (Cls p)) k n p' s'
                                   else None) <> None) by (rewrite E; discriminate).
      apply rmatch_cls_inv in E'. destruct E' as (x & s' & -> & Hx & Hk).
      destruct (length s' <? length (x :: s'))%nat; [|congruence].
      destruct (IH _ _ Hk) as (run & rest & q & -> & Hrun & Hq).
      exists (x :: run), rest, q. repeat split; [now constructor | exact Hq].
    + exists [], s, prev. repeat split; [constructor | exact H].
Qed.

Lemma rmatch_plus_inv (p : char -> bool) (prev : option char) (s : jsstr)
      (k : option char -> jsstr -> option R) :
  rmatch fl (Plus (Cls p)) prev s k <> None ->
  exists run rest q,
    run <> [] /\ s = run ++ rest /\ Forall (fun c => p c = true) run /\ k q rest <> None.
Proof.
  unfold Plus. rewrite rmatch_seq. intros H.
  apply rmatch_cls_inv in H. destruct H as (x & s' & -> & Hx & Hk).
  change (rmatch fl (Star (Cls p)) (Some x) s' k)
    with (star_loop (rmatch fl (Cls p)) k (S (length s')) (Some x) s') in Hk.
  apply star_cls_inv in Hk. destruct Hk as (run & rest & q & -> & Hrun & Hq).
  exists (x :: run), rest, q. repeat split; [discriminate | now constructor | exact Hq].
Qed.
End MatcherInversion.

Lemma rmatch_chr_inv (R : Type) (c : char) (prev : option char) (s : jsstr)
      (k : option char -> jsstr -> option R) :
  rmatch no_flags (Chr c) prev s k <> None ->
  exists s', s = c :: s' /\ k (Some c) s' <> None.
Proof.
  cbn [rmatch canonicalize ignoreCase no_flags andb]. unfold char_eqb.
  destruct s as [|x s']; [congruence|].
  destruct (x =? c) eqn:E; [|congruence]. apply N.eqb_eq in E. subst x.
  intros H. now exists s'.
Qed.

(** A pattern anchored at the start matches at the start or not at all. *)
Lemma test_bol_inv (r : regex) (s : jsstr) :
  test no_flags (Seq Bol r) s = true -> rexec_at no_flags (Seq Bol r) None s <> None.
Proof.
  unfold test. destruct s as [|c s]; cbn [test_from];
    destruct (rexec_at no_flags (Seq Bol r) None _); try discriminate.
  now rewrite test_from_bol_later.
Qed.

(** White space after a marker. *)
Lemma spaces_inv (R : Type) (prev : option char) (s : jsstr)
      (k : option char -> jsstr -> option R) :
  rmatch no_flags Index.re_spaces prev s k <> None ->
  exists sp rest, s = sp :: rest /\ is_space sp = true.
Proof.
  intros H. apply rmatch_plus_inv in H.
  destruct H as (run & rest & q & Hne & -> & Hrun & _).
  destruct run as [|sp run]; [congruence|]. inversion Hrun; subst.
  now exists sp, (run ++ rest).
Qed.

Lemma spaces_match (R : Type) (prev : option char) (sp : char) (rest : jsstr)
      (k : option char -> jsstr -> option R) :
  is_space sp = true ->
  (forall q s, k q s <> None) ->
  rmatch no_flags Index.re_spaces prev (sp :: rest) k <> None.
Proof.
  intros Hsp Hk. unfold Index.re_spaces, Plus. rewrite rmatch_seq.
  rewrite rmatch_cls_head by exact Hsp.
  change (rmatch no_flags (Star (Cls is_space)) (Some sp) rest k)
    with (star_loop (rmatch no_flags (Cls is_space)) k (S (length rest)) (Some sp) rest).
  cbn [star_loop].
  match goal with
  | |- match ?t with _ => _ end <> None => destruct t; [discriminate | apply Hk]
  end.
Qed.

(** What [isListItem] of [index.js] accepts: a marker, then white space. *)
Lemma Index_isListItem_shape (line : jsstr) :
  Index.isListItem line = true ->
  exists m sp rest,
    line = m ++ sp :: rest /\ is_space sp = true /\ index_list_marker m.
Proof.
  unfold Index.isListItem, Index.re_list_item. intros H.
  apply test_bol_inv in H. unfold rexec_at, alts in H. cbn [fold_left] in H.
  rewrite rmatch_seq, rmatch_bol_start, rmatch_seq in H.
  assert (Hsign : forall g,
             In g [45; 42; 8226; 9675; 167] ->
             rmatch no_flags (Chr g) None line
               (fun p' s' => rmatch no_flags Index.re_spaces p' s'
                               (fun p s' => Some (p, s'))) <> None ->
             exists m sp rest,
               line = m ++ sp :: rest /\ is_space sp = true /\ index_list_marker m).
  { intros g Hg Hm. apply rmatch_chr_inv in Hm. destruct Hm as (s1 & -> & Hs).
    apply spaces_inv in Hs. destruct Hs as (sp & rest & -> & Hsp).
    exists [g], sp, rest. split; [reflexivity|]. split; [exact Hsp|].
    right. left. now exists g. }
  assert (Hnumber : forall c0,
             c0 = 46 \/ c0 = 41 ->
             rmatch no_flags (Seq Index.re_digits (Chr c0)) None line
               (fun p' s' => rmatch no_flags Index.re_spaces p' s'
                               (fun p s' => Some (p, s'))) <> None ->
             exists m sp rest,
               line = m ++ sp :: rest /\ is_space sp = true /\ index_list_marker m).
  { intros c0 Hc0 Hm. rewrite rmatch_seq in Hm. apply rmatch_plus_inv in Hm.
    destruct Hm as (digits & s1 & q & Hne & -> & Hdigits & Hs).
    apply rmatch_chr_inv in Hs. destruct Hs as (s2 & -> & Hs).
    apply spaces_inv in Hs. destruct Hs as (sp & rest & -> & Hsp).
    exists (digits ++ [c0]), sp, rest.
    split; [now rewrite <- app_assoc|]. split; [exact Hsp|].
    left. exists digits. split; [exact Hne|]. split; [exact Hdigits|].
    destruct Hc0 as [-> | ->]; auto. }
  assert (Hletter : forall p : char -> bool,
             (forall x, p x = true -> is_lower_az x = true \/ is_upper_AZ x = true) ->
             rmatch no_flags (Seq (Cls p) (Chr 46)) None line
               (fun p' s' => rmatch no_flags Index.re_spaces p' s'
                               (fun p s' => Some (p, s'))) <> None ->
             exists m sp rest,
               line = m ++ sp :: rest /\ is_space sp = true /\ index_list_marker m).
  { intros p Hp Hm. rewrite rmatch_seq in Hm. apply rmatch_cls_inv in Hm.
    destruct Hm as (x & s1 & -> & Hx & Hs).
    apply rmatch_chr_inv in Hs. destruct Hs as (s2 & -> & Hs).
    apply spaces_inv in Hs. destruct Hs as (sp & rest & -> & Hsp).
    exists [x; 46], sp, rest. split; [reflexivity|]. split; [exact Hsp|].
    right. right. exists x. split; [now apply Hp | reflexivity]. }
  repeat match goal with
         | H : rmatch _ (Alt _ _) _ _ _ <> None |- _ =>
             apply rmatch_alt_inv in H; destruct H as [H|H]
         end.
  - apply (Hnumber 46); auto.
  - apply (Hnumber 41); auto.
  - apply (Hsign 45); [simpl; auto | exact H].
  - apply (Hsign 42); [simpl; auto | exact H].
  - apply (Hsign 8226); [simpl; auto | exact H].
  - apply (Hsign 9675); [simpl; auto 6 | exact H].
  - apply (Hsign 167); [simpl; auto 6 | exact H].
  - apply (Hletter is_lower_az); [auto | exact H].
  - apply (Hletter is_upper_AZ); [auto | exact H].
Qed.

(** X19: every line that [isListItem] of [index.js] accepts is accepted by
    [isListItem] of [part_000], whose pattern only adds markers (a letter
    with a closing parenthesis, and the bullet glyphs). *)
Theorem X19_list_items_of_index_are_list_items_of_part_000 (line : jsstr) :
  Index.isListItem line = true -> Rev0Text.isListItem line = true.
Proof.
  intros H. apply Index_isListItem_shape in H.
  destruct H as (m & sp & rest & -> & Hsp & Hm).
  unfold Rev0Text.isListItem. apply orb_true_iff. left.
  apply test_of_rexec_at. unfold rexec_at, Rev0Text.re_list_marker, alts.
  cbn [fold_left].
  rewrite rmatch_seq, rmatch_bol_start, rmatch_seq.
  assert (Hk : forall q s, (fun p (s' : jsstr) => Some (p, s')) q s
                           <> (None : option (option char * jsstr)))
    by (intros; discriminate).
  destruct Hm as [(digits & Hne & Hdigits & Hm) | [(g & -> & Hg) | (x & Hx & ->)]].
  - apply rmatch_alt_left, rmatch_alt_left. rewrite rmatch_seq.
    assert (Hgo : forall c0, c0 = 46 \/ c0 = 41 ->
               rmatch no_flags Rev0.re_digits None (digits ++ c0 :: sp :: rest)
                 (fun p' s' =>
                    rmatch no_flags (Cls (fun c => (c =? 46) || (c =? 41))) p' s'
                      (fun p'0 s'0 =>
                         rmatch no_flags Rev0.re_spaces p'0 s'0
                           (fun p s'1 => Some (p, s'1)))) <> None).
    { intros c0 Hc0. apply rmatch_plus_run; [exact Hne | exact Hdigits|].
      intros q. rewrite rmatch_cls_head by (destruct Hc0 as [-> | ->]; reflexivity).
      now apply spaces_match. }
    destruct Hm as [-> | ->]; rewrite <- app_assoc; apply Hgo; auto.
  - apply rmatch_alt_left, rmatch_alt_right. cbn [app].
    rewrite rmatch_cls_head.
    + now apply spaces_match.
    + simpl in Hg. decompose [or] Hg; subst; try reflexivity. contradiction.
  - apply rmatch_alt_right. cbn [app]. rewrite rmatch_seq.
    assert (Hx' : rmatch no_flags (Alt (Cls is_lower_az) (Cls is_upper_AZ)) None
                    (x :: 46 :: sp :: rest)
                    (fun p' s' =>
                       rmatch no_flags (Cls (fun c => (c =? 46) || (c =? 41))) p' s'
                         (fun p'0 s'0 =>
                            rmatch no_flags Rev0.re_spaces p'0 s'0
                              (fun p s'1 => Some (p, s'1)))) <> None).
    { destruct Hx as [Hx | Hx];
        [apply rmatch_alt_left | apply rmatch_alt_right];
        rewrite rmatch_cls_head by exact Hx;
        rewrite rmatch_cls_head by reflexivity;
        now apply spaces_match. }
    exact Hx'.
Qed.

Lemma X19_list_items_witness :
  Rev0Text.isListItem (js "12) twelve") = true.
Proof.
  apply (@X19_list_items_of_index_are_list_items_of_part_000 (js "12) twelve")).
  reflexivity.
Defined.

(** ** The listings of the three revisions *)

Lemma is_prefix_app (p s r : jsstr) : is_prefix p s = Some r -> s = p ++ r.
Proof.
  revert s. induction p as [|x p IH]; intros s H; simpl in H.
  - now inversion H.
  - destruct s as [|y s]; [discriminate|].
    unfold char_eqb in H. destruct (x =? y) eqn:E; [|discriminate].
    apply N.eqb_eq in E. subst y. simpl. f_equal. now apply IH.
Qed.

(** [s.endsWith(suffix)] holds of the texts that end in [suffix]. *)
Lemma endsWith_app (s suffix : jsstr) :
  Rev0.endsWith s suffix = true -> exists stem, s = stem ++ suffix.
Proof.
  unfold Rev0.endsWith. destruct (is_prefix (rev suffix) (rev s)) as [r|] eqn:E;
    [|discriminate].
  intros _. apply is_prefix_app in E. exists (rev r).
  rewrite <- (rev_involutive s), E, rev_app_distr, rev_involutive. reflexivity.
Qed.

(** A match at a later position is found by [test]. *)
Lemma test_from_later fl r (stem s : jsstr) :
  (forall prev, rexec_at fl r prev s <> None) ->
  forall prev, test_from fl r prev (stem ++ s) = true.
Proof.
  intros Hs. induction stem as [|c stem IH]; intros prev.
  - cbn [app]. specialize (Hs prev).
    destruct s; cbn [test_from]; destruct (rexec_at fl r prev _); congruence.
  - cbn [app test_from]. destruct (rexec_at fl r prev (c :: stem ++ s)); [reflexivity|].
    apply IH.
Qed.

(** X20: of the entries of the input directory, [index.js] takes those
    that end in [.pdf], [part_000] those that end in [.pdf] in any case of
    the letters, and [part_001] every entry with a name: what [index.js]
    processes, [part_000] processes, and what [part_000] processes,
    [part_001] does. *)
Theorem X20_the_listings_widen (entries : list jsstr) (f : jsstr) :
  (In f (IndexMain.pdfFiles entries) -> In f (Rev0Main.pdfFiles entries))
  /\ (In f (Rev0Main.pdfFiles entries) -> In f (Part001Main.pdfFiles entries)).
Proof.
  unfold IndexMain.pdfFiles, Rev0Main.pdfFiles, Part001Main.pdfFiles.
  rewrite !filter_In. split; intros [Hin H]; (split; [exact Hin|]).
  - apply endsWith_app in H. destruct H as [stem ->].
    unfold test. apply test_from_later. intros prev. discriminate.
  - destruct f as [|c f]; [|reflexivity]. discriminate.
Qed.

Lemma X20_the_listings_witness :
  In (js "report.pdf") (Rev0Main.pdfFiles [js "notes.txt"; js "report.pdf"; js "SCAN.PDF"])
  /\ In (js "SCAN.PDF") (Part001Main.pdfFiles [js "notes.txt"; js "report.pdf"; js "SCAN.PDF"]).
Proof.
  split.
  - apply (proj1 (X20_the_listings_widen
                    [js "notes.txt"; js "report.pdf"; js "SCAN.PDF"] (js "report.pdf"))).
    vm_compute. auto.
  - apply (proj2 (X20_the_listings_widen
                    [js "notes.txt"; js "report.pdf"; js "SCAN.PDF"] (js "SCAN.PDF"))).
    vm_compute. auto.
Defined.

(** ** Sentences are no headers *)

Lemma punctuation_is_no_colon (line : jsstr) :
  Index.endsWithPunctuation line = true -> test no_flags Index.re_colon_end line = false.
Proof.
  rewrite endsWithPunctuation_last. unfold test, Index.re_colon_end.
  rewrite test_chr_eol. destruct line as [|c line]; [reflexivity|].
  destruct (last (c :: line) 0 =? 58) eqn:E; [|reflexivity].
  apply N.eqb_eq in E. rewrite E. discriminate.
Qed.

(** X22: in [index.js] a line that ends in a full stop, an exclamation or
    question mark, or a semicolon is a header line only by its form: it
    passes the all-caps test, or starts with a bullet or a number followed by
    a capital, or starts with one of the header patterns.  Without any of
    these, what is left is the length factor and the context factor, 1.5
    together, below the threshold.  The [index] is any from [-1] to
    [lines.length], among them the positions of the lines, which
    [cleanNaturalText] calls [isHeaderLine] with; further out the reads of
    the neighbours throw. *)
Theorem X22_index_sentence_is_header_by_form_only
        (toUpperCase : jsstr -> jsstr) (this : Index.TextStructureAnalyzer)
        (line : jsstr) (index : Z) :
  (-1 <= index <= Z.of_nat (length (Index.lines this)))%Z ->
  Index.endsWithPunctuation line = true ->
  Index.isAllCaps toUpperCase line (split no_flags Index.re_spaces line) = false ->
  test no_flags Index.re_bullet_header line = false ->
  existsb (fun p => test (fst p) (snd p) line) Index.headerPatterns = false ->
  Index.isHeaderLine toUpperCase this line index = false.
Proof.
  intros _ Hpunct Hcaps Hbullet Hpatterns.
  unfold Index.isHeaderLine.
  rewrite Hpunct, Hcaps, Hbullet, Hpatterns, (punctuation_is_no_colon line Hpunct).
  rewrite ?andb_false_r. cbn [negb andb].
  repeat match goal with
         | |- context [if ?c then _ else _] => destruct c
         end; reflexivity.
Qed.

Lemma X22_index_sentence_witness :
  Index.isHeaderLine toUpperCase_ascii
    (Index.new_TextStructureAnalyzer eleven_words_document)
    (js "Stop now.") 0%Z = false.
Proof.
  apply (@X22_index_sentence_is_header_by_form_only toUpperCase_ascii
           (Index.new_TextStructureAnalyzer eleven_words_document) (js "Stop now.") 0%Z);
    [vm_compute; split; discriminate | reflexivity ..].
Defined.

Lemma endsWith_last (line : jsstr) (c : char) :
  Rev0.endsWith line [c] = true -> line <> [] /\ last line 0 = c.
Proof.
  intros H. apply endsWith_app in H. destruct H as [stem ->].
  split; [apply snoc_not_nil | apply last_last].
Qed.

(** X23: in [part_000] a line that ends in a full stop, an exclamation mark
    or a question mark is a header line only if it passes the all-caps test
    with 8 words at most, is numbered like a section, or starts with hash
    marks: the weight 2 of a line of capitals, digits, spaces, hyphens and
    full stops is all it can get otherwise, below the threshold 4. *)
Theorem X23_part_000_sentence_is_header_by_form_only
        (toUpperCase : jsstr -> jsstr) (this : Rev0.TextStructureAnalyzer)
        (line : jsstr) (index : Z) :
  test no_flags Rev0.re_sentence_end line = true ->
  str_eqb line (toUpperCase line) && test no_flags Rev0.re_has_upper line
  && (length (split no_flags Rev0.re_spaces line) <=? 8)%nat = false ->
  test no_flags Rev0.re_numbered line = false ->
  test no_flags Rev0.re_hashes line = false ->
  Rev0.isHeaderLine toUpperCase this line index = false.
Proof.
  intros Hend Hcaps Hnum Hhash.
  assert (Hcolon : Rev0.endsWith line (js ":") = false).
  { destruct (Rev0.endsWith line (js ":")) eqn:E; [|reflexivity].
    apply endsWith_last in E. destruct E as [Hne Hlast].
    unfold test, Rev0.re_sentence_end, one_of in Hend. rewrite test_cls_eol in Hend.
    destruct line; [congruence|]. rewrite Hlast in Hend. discriminate. }
  unfold Rev0.isHeaderLine.
  rewrite Hend, Hcaps, Hnum, Hhash, Hcolon. cbn [negb andb].
  repeat match goal with
         | |- context [if ?c then _ else _] => destruct c
         end; reflexivity.
Qed.

Lemma X23_part_000_sentence_witness :
  Rev0.isHeaderLine toUpperCase_ascii
    (Rev0.new_TextStructureAnalyzer (fun s => s) eleven_words_document)
    (js "Stop now.") 0%Z = false.
Proof.
  apply (@X23_part_000_sentence_is_header_by_form_only toUpperCase_ascii
           (Rev0.new_TextStructureAnalyzer (fun s => s) eleven_words_document)
           (js "Stop now.") 0%Z);
    reflexivity.
Defined.

(** ** The whole run of [part_000] *)

Lemma framed_Rev0_poll_loop env (url : jsstr) (fuel : nat) :
  forall n, framed (Rev0.poll_loop env fuel url n).
Proof. induction fuel as [|fuel IH]; intros n; simpl; framed. Qed.

Lemma framed_Rev0_extractPdfParse env (pdfPath : jsstr) :
  framed (Rev0.extractPdfParse env pdfPath).
Proof. unfold Rev0.extractPdfParse. framed. Qed.

#[local] Hint Resolve framed_Rev0_poll_loop framed_Rev0_extractPdfParse : framed.

Lemma framed_Rev0_extractAzure env (fuel : nat) (pdfPath : jsstr) :
  framed (Rev0.extractAzure env fuel pdfPath).
Proof. unfold Rev0.extractAzure. framed. Qed.

Lemma framed_Rev0_finish env clean_text path_parse_name (file : jsstr) chosen :
  framed (Rev0.finish env clean_text path_parse_name file chosen).
Proof. unfold Rev0.finish. destruct chosen. framed. Qed.

#[local] Hint Resolve framed_Rev0_extractAzure framed_Rev0_finish : framed.

Lemma framed_Rev0_process_body env clean_text path_parse_name (fuel : nat) (file : jsstr) :
  framed (Rev0.process_body env clean_text path_parse_name fuel file).
Proof. unfold Rev0.process_body. framed. Qed.

#[local] Hint Resolve framed_Rev0_process_body : framed.

Lemma framed_Rev0_processSinglePDF env clean_text path_parse_name
      (fuel : nat) (file : jsstr) :
  framed (Rev0.processSinglePDF env clean_text path_parse_name fuel file).
Proof. unfold Rev0.processSinglePDF. framed. Qed.

Lemma Rev0_processSinglePDF_one_artifact env clean_text path_parse_name
      (fuel : nat) (file : jsstr) :
  Rev0_settles env clean_text path_parse_name fuel file ->
  exists entry we,
    Rev0_artifact_of env clean_text path_parse_name fuel file entry
    /\ files we = [entry]
    /\ forall w,
        Rev0.processSinglePDF env clean_text path_parse_name fuel file w
        = Some (Ok tt, extend w we).
Proof.
  intros [Hend Hrec].
  assert (Hone : exists entry we,
             Rev0_artifact_of env clean_text path_parse_name fuel file entry
             /\ files we = [entry]
             /\ Rev0.processSinglePDF env clean_text path_parse_name fuel file empty_world
                = Some (Ok tt, we)).
  { unfold Rev0_artifact_of, Rev0.processSinglePDF, try_catch.
    destruct (Rev0.process_body env clean_text path_parse_name fuel file empty_world)
      as [[[[]|e] we]|] eqn:E; [| |congruence].
    - destruct (Rev0_process_body_files _ _ _ _ _ _ E) as [content Hfiles].
      simpl in Hfiles.
      exists (Rev0.path_join_output (path_parse_name file ++ js ".txt"), content), we.
      auto.
    - pose proof (Rev0_process_body_files _ _ _ _ _ _ E) as Hfiles. simpl in Hfiles.
      unfold writeFileSync. rewrite (Hrec e we eq_refl).
      eexists. eexists. split; [split; [exact Hfiles | reflexivity]|].
      split; [|reflexivity]. simpl. now rewrite Hfiles. }
  destruct Hone as (entry & we & Hart & Hfiles & Hrun).
  exists entry, we. split; [exact Hart|]. split; [exact Hfiles|].
  intros w.
  rewrite (framed_Rev0_processSinglePDF env clean_text path_parse_name fuel file w), Hrun.
  reflexivity.
Qed.

(** A queue of items for each of which the worker returns, having added one
    file, is drained by any number of workers. *)
(** A call of [processSinglePDF] of [part_000], resumed turn after turn with
    nothing in between, does what the function does. *)
Lemma Rev0_call_alone env clean_text path_parse_name (fuel : nat) (file : jsstr) (w : World) :
  run_alone (Rev0.call_processSinglePDF env clean_text path_parse_name fuel file) w
  = Rev0.processSinglePDF env clean_text path_parse_name fuel file w.
Proof. apply call_of_alone, framed_Rev0_processSinglePDF. Qed.

Lemma Rev0_call_of_settled env clean_text path_parse_name (fuel : nat) (file : jsstr) :
  Rev0_settles env clean_text path_parse_name fuel file ->
  exists entry,
    final (Rev0.call_processSinglePDF env clean_text path_parse_name fuel file)
    = Some ([entry], Ok tt)
    /\ Rev0_artifact_of env clean_text path_parse_name fuel file entry.
Proof.
  intros Hs.
  destruct (Rev0_processSinglePDF_one_artifact Hs) as (entry & we & Hart & Hfiles & Hrun).
  exists entry. split; [|exact Hart].
  unfold Rev0.call_processSinglePDF, call_of. rewrite (Hrun empty_world).
  rewrite extend_empty_l, final_of_sends, Hfiles. reflexivity.
Qed.

(** X21: the run of [part_000] over a directory listing, on a host with any
    number of processors, in whatever order the event loop resumes the
    workers: of the entries it takes those whose name ends in [.pdf] in any
    case of the letters, and if the processing of each of these comes to an
    end and its error log, when one is due, can be written, and the event
    loop runs as many turns as the calls have stretches between their awaits,
    then the promise of the queue is fulfilled, no call is pending, the queue
    is drained, and the output directory gets one file for each of these
    entries, in the order in which their calls ended: the manifest
    [name.txt], or the error log [name.error.log] with the stack of the
    exception. *)
Theorem X21_part_000_run_over_a_directory
        (env : Env) (clean_text path_parse_name : jsstr -> jsstr) (fuel : nat)
        (entries : list jsstr) (cpus : nat) (schedule : list nat) (w : World) :
  Forall (Rev0_settles env clean_text path_parse_name fuel) (Rev0Main.pdfFiles entries) ->
  (list_sum (map (fun f => stretches
                             (Rev0.call_processSinglePDF env clean_text path_parse_name fuel f))
                 (Rev0Main.pdfFiles entries))
   <= length schedule)%nat ->
  exists w' order new,
    Rev0Main.run env clean_text path_parse_name fuel entries cpus schedule w
    = Some {| rejected := None; queue_left := []; calls_pending := 0; world_then := w' |}
    /\ (1 <= CONCURRENCY cpus)%nat
    /\ Permutation order (Rev0Main.pdfFiles entries)
    /\ files w' = files w ++ new
    /\ Forall2 (Rev0_artifact_of env clean_text path_parse_name fuel) order new.
Proof.
  intros Hsettle Hlen. unfold Rev0Main.run.
  assert (Hc : (1 <= CONCURRENCY cpus)%nat).
  { destruct (CONCURRENCY_positive cpus) as [fewer ->]. lia. }
  assert (Htruthy : Forall (fun f => truthy f = true) (Rev0Main.pdfFiles entries)).
  { apply Forall_forall. intros f Hf. apply filter_In in Hf.
    destruct f; [destruct Hf; discriminate | reflexivity]. }
  destruct (@runQueue_drains
              (Rev0.call_processSinglePDF env clean_text path_parse_name fuel)
              (Rev0_artifact_of env clean_text path_parse_name fuel)
              (Rev0Main.pdfFiles entries) (CONCURRENCY cpus) schedule w Hc Htruthy)
    as (w' & order & new & Hq & Hperm & Hf & Hall).
  - eapply Forall_impl; [|exact Hsettle].
    intros f Hs. now apply Rev0_call_of_settled.
  - exact Hlen.
  - exists w', order, new. repeat split; assumption.
Qed.

Lemma X21_part_000_run_witness :
  exists w' order new,
    Rev0Main.run unreadable_env (fun s => s) name_of 5
      [js "a.pdf"; js "notes.txt"; js "report.pdf"; js "SCAN.PDF"] 4
      [2; 1; 2; 1; 0; 0; 0]%nat empty_world
    = Some {| rejected := None; queue_left := []; calls_pending := 0; world_then := w' |}
    /\ (1 <= CONCURRENCY 4)%nat
    /\ Permutation order
         (Rev0Main.pdfFiles [js "a.pdf"; js "notes.txt"; js "report.pdf"; js "SCAN.PDF"])
    /\ files w' = files empty_world ++ new
    /\ Forall2 (Rev0_artifact_of unreadable_env (fun s => s) name_of 5) order new.
Proof.
  apply (@X21_part_000_run_over_a_directory unreadable_env (fun s => s) name_of 5
           [js "a.pdf"; js "notes.txt"; js "report.pdf"; js "SCAN.PDF"] 4
           [2; 1; 2; 1; 0; 0; 0]%nat empty_world).
  - repeat constructor.
    + intros H. vm_compute in H. discriminate H.
    + intros H. vm_compute in H. discriminate H.
    + intros H. vm_compute in H. discriminate H.
  - vm_compute. lia.
Defined.

(** ** Running text *)

Lemma join_app_ne (sep : jsstr) (l1 l2 : list jsstr) :
  l1 <> [] -> l2 <> [] -> join sep (l1 ++ l2) = join sep l1 ++ sep ++ join sep l2.
Proof.
  intros H1 H2. induction l1 as [|a l1 IH]; [congruence|].
  destruct l1 as [|b l1].
  - destruct l2; [congruence | reflexivity].
  - change (join sep ((a :: b :: l1) ++ l2)) with (a ++ sep ++ join sep ((b :: l1) ++ l2)).
    rewrite IH by discriminate.
    change (join sep (a :: b :: l1)) with (a ++ sep ++ join sep (b :: l1)).
    now rewrite <- !app_assoc.
Qed.

Lemma join_same_app (l1 l2 rest : list jsstr) :
  join SP l1 = join SP l2 -> (l1 = [] <-> l2 = []) ->
  join SP (l1 ++ rest) = join SP (l2 ++ rest).
Proof.
  intros Hj Hiff. destruct rest as [|r rest]; [now rewrite !app_nil_r|].
  destruct l1 as [|a l1].
  - now rewrite (proj1 Hiff eq_refl).
  - destruct l2 as [|b l2]; [destruct Hiff as [_ H]; discriminate (H eq_refl)|].
    rewrite !join_app_ne by discriminate. now rewrite Hj.
Qed.

(** The loop of [cleanNaturalText] over lines that are neither headers nor
    list items: one open paragraph, which reads as the lines. *)
Lemma loop_over_plain_lines toUpperCase analyzer (rest : list jsstr) :
  forall (i : nat) (taken : list jsstr),
    (forall j line, nth_error rest j = Some line ->
       Index.isHeaderLine toUpperCase analyzer line (Z.of_nat (i + j)) = false
       /\ Index.isListItem line = false) ->
    exists ls,
      Index.loop toUpperCase analyzer rest (Z.of_nat i)
        ([], {| Index.Block.type := Index.Block.paragraph;
                Index.Block.lines := taken;
                Index.Block.level := None |})
      = ([], {| Index.Block.type := Index.Block.paragraph;
                Index.Block.lines := ls;
                Index.Block.level := None |})
      /\ join SP ls = join SP (taken ++ rest)
      /\ (ls = [] <-> taken ++ rest = []).
Proof.
  induction rest as [|line rest IH]; intros i taken Hplain.
  - exists taken. rewrite app_nil_r. cbn [Index.loop]. repeat split; auto.
  - destruct (Hplain 0%nat line eq_refl) as [Hh Hl]. rewrite Nat.add_0_r in Hh.
    assert (Hrest : forall j l, nth_error rest j = Some l ->
                      Index.isHeaderLine toUpperCase analyzer l (Z.of_nat (S i + j)) = false
                      /\ Index.isListItem l = false).
    { intros j l Hj. replace (S i + j)%nat with (i + S j)%nat by lia.
      now apply Hplain. }
    cbn [Index.loop]. unfold Index.loop_body at 1. rewrite Hh, Hl.
    cbn [Index.Block.type Index.Block.lines Index.Block.kind_eqb andb].
    replace (Z.of_nat i + 1)%Z with (Z.of_nat (S i)) by lia.
    assert (Hgo : forall taken',
               join SP taken' = join SP (taken ++ [line]) ->
               taken' <> [] ->
               exists ls,
                 Index.loop toUpperCase analyzer rest (Z.of_nat (S i))
                   ([], {| Index.Block.type := Index.Block.paragraph;
                           Index.Block.lines := taken';
                           Index.Block.level := None |})
                 = ([], {| Index.Block.type := Index.Block.paragraph;
                           Index.Block.lines := ls;
                           Index.Block.level := None |})
                 /\ join SP ls = join SP (taken ++ line :: rest)
                 /\ (ls = [] <-> taken ++ line :: rest = [])).
    { intros taken' Hj Hne.
      destruct (IH (S i) taken' Hrest) as (ls & Hloop & Hjoin & Hiff).
      exists ls. split; [exact Hloop|]. split.
      - rewrite Hjoin.
        replace (taken ++ line :: rest) with ((taken ++ [line]) ++ rest)
          by now rewrite <- app_assoc.
        apply join_same_app; [exact Hj|].
        split; intros E; [congruence | now apply snoc_not_nil in E].
      - split; intros E.
        + apply Hiff in E. apply app_eq_nil in E. destruct E; congruence.
        + apply app_eq_nil in E. destruct E; discriminate. }
    destruct taken as [|t0 taken'].
    + cbn [length Nat.ltb Nat.leb]. unfold Index.Block.push_line.
      cbn [Index.Block.type Index.Block.lines Index.Block.level app].
      apply (Hgo [line]); [reflexivity | discriminate].
    + cbn [length Nat.ltb Nat.leb].
      destruct (Index.shouldMerge toUpperCase analyzer (last (t0 :: taken') []) line).
      * unfold Index.Block.set_last.
        cbn [Index.Block.type Index.Block.lines Index.Block.level].
        apply Hgo; [|apply snoc_not_nil].
        etransitivity; [apply join_set_last; discriminate|].
        now rewrite join_snoc by discriminate.
      * unfold Index.Block.push_line.
        cbn [Index.Block.type Index.Block.lines Index.Block.level].
        apply Hgo; [reflexivity | apply snoc_not_nil].
Qed.

(** Without line feeds there is nothing for [/\n{3,}/g] to replace. *)
Lemma replace_nl3_without_lf (s : jsstr) :
  ~ In 10 s ->
  forall fuel prev, replace_loop no_flags Index.re_nl3 (LF ++ LF) fuel prev s = s.
Proof.
  induction s as [|c s IH]; intros Hno fuel prev; (destruct fuel as [|f]; [reflexivity|]);
    cbn [replace_loop].
  - destruct (rexec_at_nl3 prev []) as [[H3 _] | [_ E]]; [simpl in H3; lia|].
    now rewrite E.
  - assert (Hc : (c =? 10) = false).
    { apply N.eqb_neq. intros E. apply Hno. left. now symmetry. }
    destruct (rexec_at_nl3 prev (c :: s)) as [[H3 _] | [_ E]].
    + simpl in H3. rewrite Hc in H3. lia.
    + rewrite E. f_equal. apply IH. intros H. apply Hno. now right.
Qed.

Lemma hd_rev_is_last (s : jsstr) (d : char) : hd d (rev s) = last s d.
Proof.
  destruct s as [|c s] using rev_ind; [reflexivity|].
  rewrite rev_app_distr, last_last. reflexivity.
Qed.

(** A text is left alone by [trim] when, and only when, its first and its
    last code unit are no white space. *)
Lemma trim_fixed_ends (s : jsstr) :
  s <> [] ->
  (trim s = s <-> is_space (hd 0 s) = false /\ is_space (last s 0) = false).
Proof.
  intros Hne. split.
  - intros H.
    assert (Hfirst : is_space (hd 0 s) = false).
    { destruct s as [|c s']; [congruence|]. cbn [hd].
      destruct (is_space c) eqn:E; [|reflexivity].
      pose proof (trim_length (c :: s')) as Hl. exfalso.
      assert (Hlt : (length (trim (c :: s')) < length (c :: s'))%nat).
      { unfold trim. rewrite length_rev.
        eapply Nat.le_lt_trans; [apply drop_while_length|].
        rewrite length_rev. cbn [drop_while]. rewrite E.
        pose proof (drop_while_length is_space s'). simpl. lia. }
      rewrite H in Hlt. lia. }
    split; [exact Hfirst|].
    unfold trim in H. rewrite (drop_while_fixed is_space s) in H
      by (destruct s; [exact I | exact Hfirst]).
    apply (f_equal (@rev char)) in H. rewrite rev_involutive in H.
    pose proof (drop_while_head is_space (rev s)) as Hh. rewrite H in Hh.
    rewrite <- hd_rev_is_last. destruct (rev s) as [|x r] eqn:Er; [|exact Hh].
    apply (f_equal (@rev char)) in Er. rewrite rev_involutive in Er.
    simpl in Er. congruence.
  - intros [Hfirst Hlast]. unfold trim.
    rewrite (drop_while_fixed is_space s) by (destruct s; [exact I | exact Hfirst]).
    rewrite drop_while_fixed; [apply rev_involutive|].
    rewrite <- hd_rev_is_last in Hlast. destruct (rev s); [exact I | exact Hlast].
Qed.

(** Trimmed lines joined by single spaces make a trimmed text. *)
Lemma join_of_trimmed_lines (ls : list jsstr) :
  Forall (fun l => l <> [] /\ trim l = l) ls -> trim (join SP ls) = join SP ls.
Proof.
  intros H. destruct ls as [|l0 ls]; [reflexivity|].
  assert (Hne : join SP (l0 :: ls) <> []).
  { inversion H as [|? ? [H0 _] _]; subst.
    destruct ls; cbn [join]; [exact H0|]. destruct l0; [congruence | discriminate]. }
  apply trim_fixed_ends; [exact Hne|]. split.
  - inversion H as [|? ? [H0 Ht] _]; subst.
    apply (trim_fixed_ends H0) in Ht. destruct Ht as [Hf _].
    destruct l0 as [|c l0]; [congruence|]. destruct ls; exact Hf.
  - destruct (exists_last (l := l0 :: ls)) as (front & final & E); [discriminate|].
    rewrite E in *. apply Forall_app in H. destruct H as [_ Hfinal].
    inversion Hfinal as [|? ? [Hn Ht] _]; subst.
    apply (trim_fixed_ends Hn) in Ht. destruct Ht as [_ Hl].
    destruct front as [|f0 front]; [exact Hl|].
    rewrite join_snoc by discriminate.
    rewrite app_assoc, (last_of_app _ 0 Hn). exact Hl.
Qed.

(** X24: for a text none of whose lines is a header line (at its
    position) or a list item, [cleanNaturalText] of [index.js] returns the
    lines of the text (trimmed, the blank ones left out) joined by single
    spaces: one paragraph, whatever the merge policy decides between two
    lines. *)
Theorem X24_index_running_text_is_one_paragraph
        (toUpperCase : jsstr -> jsstr) (rawText : jsstr) :
  let analyzer := Index.new_TextStructureAnalyzer rawText in
  (forall i line,
      nth_error (Index.lines analyzer) i = Some line ->
      Index.isHeaderLine toUpperCase analyzer line (Z.of_nat i) = false
      /\ Index.isListItem line = false) ->
  Index.cleanNaturalText toUpperCase (Some rawText) = join SP (Index.lines analyzer).
Proof.
  intros analyzer Hplain. unfold Index.cleanNaturalText.
  destruct rawText as [|c0 raw]; [reflexivity|].
  cbn [truthy negb]. fold analyzer.
  destruct (@loop_over_plain_lines toUpperCase analyzer (Index.lines analyzer) 0 [])
    as (ls & Hloop & Hjoin & Hiff); [exact Hplain|].
  cbn [app] in Hjoin, Hiff.
  assert (Hlines : Forall (fun l => l <> [] /\ trim l = l /\ ~ In 10 l)
                          (Index.lines analyzer)).
  { apply Forall_forall. intros l Hl. apply (lines_of_text (c0 :: raw)). exact Hl. }
  assert (Hblocks : join (LF ++ LF) (map (Index.render toUpperCase)
                                         (Index.build_blocks toUpperCase analyzer))
                    = join SP (Index.lines analyzer)).
  { unfold Index.build_blocks. change 0%Z with (Z.of_nat 0).
    unfold Index.Block.empty. rewrite Hloop.
    cbn [Index.Block.lines]. destruct ls as [|l0 ls'].
    - cbn [length Nat.ltb Nat.leb map join]. now rewrite (proj1 Hiff eq_refl).
    - cbn [length Nat.ltb Nat.leb app map join]. unfold Index.render.
      cbn [Index.Block.type Index.Block.lines]. exact Hjoin. }
  rewrite Hblocks. unfold replace_all.
  rewrite replace_nl3_without_lf.
  - apply join_of_trimmed_lines. eapply Forall_impl; [|exact Hlines].
    intros l (H1 & H2 & _). now split.
  - intros Hin.
    assert (Hno : forall ls, Forall (fun l => ~ In 10 l) ls -> ~ In 10 (join SP ls)).
    { clear. induction ls as [|l ls IH]; intros H; [intros []|].
      inversion H; subst. destruct ls as [|l' ls']; [assumption|].
      change (join SP (l :: l' :: ls')) with (l ++ SP ++ join SP (l' :: ls')).
      intros Hin. apply in_app_or in Hin. destruct Hin as [Hin | Hin]; [contradiction|].
      apply in_app_or in Hin. destruct Hin as [[E | []] | Hin]; [discriminate|].
      now apply IH in Hin. }
    revert Hin. apply Hno. eapply Forall_impl; [|exact Hlines].
    intros l (_ & _ & H3). exact H3.
Qed.

Lemma X24_index_running_text_witness :
  Index.cleanNaturalText toUpperCase_ascii (Some running_text)
  = join SP (Index.lines (Index.new_TextStructureAnalyzer running_text)).
Proof.
  apply (@X24_index_running_text_is_one_paragraph toUpperCase_ascii running_text).
  intros i line H.
  destruct i as [|[|i]]; vm_compute in H; [| |destruct i; discriminate H];
    inversion H; subst; split; vm_compute; reflexivity.
Defined.
